(** * The fetch-over-RPC bridge of denoflare: wire codec and body registry

    A shallow embedding of the module that defines [makeFetchOverRpc]:
    [packRequest], [unpackRequest], [packResponse], [unpackResponse], the
    [Bodies] registry and the body resolver over the RPC channel, with the
    properties the design document states about them.

    Conventions of the embedding.
    - A JavaScript value that may be [undefined] is an [option]; a value
      that may be [undefined] or [null] is an [option (option _)].
    - A JavaScript [number] that the code only uses as an integer (status,
      body id, content length) is a [Z]; integers are exact in a double
      up to 2^53, which is the range the model is meant for.
    - A throwing computation returns a [Completion]; code that mutates the
      registry is a function from the registry to a completion and the
      registry afterwards.
    - [Headers] objects and the streams handed to the registry are taken in
      a well-formed state.  The constructors [new Request], [new Response]
      and [new ReadableStream] are the platform's: they are modelled from
      the fetch and streams standards, with the normalisation they do and
      the errors they throw. *)

From Stdlib Require Import ZArith Ascii Lia.
From Stdlib Require String.
From stdpp Require Import base option list gmap strings pretty list_numbers.

Open Scope Z_scope.

(* ===================================================================== *)
(** ** Completions: a result or a thrown error *)
(* ===================================================================== *)

(** The errors of the bridge are plain [Error] objects, told apart by their
    message; the platform throws [TypeError] and [RangeError]. *)
Inductive JsError : Type :=
| Error (message : string)
| TypeError
| RangeError.

Inductive Completion (A : Type) : Type :=
| Return (a : A)
| Throw (e : JsError).
Arguments Return {A} a.
Arguments Throw {A} e.

(** Sequencing stops at the first throw.  The instances give the
    notations [x ← c; k] and [c;; k] of stdpp. *)
Global Instance Completion_ret : MRet Completion := @Return.
Global Instance Completion_bind : MBind Completion := λ A B k c,
  match c with
  | Return a => k a
  | Throw e => Throw e
  end.

(** [if (cond) throw new Error(message);] *)
Definition throwIf (cond : bool) (message : string) : Completion unit :=
  if cond then Throw (Error message) else Return tt.

(* ===================================================================== *)
(** ** parseInt *)
(* ===================================================================== *)

(** Header values are byte strings: every character of a [string] stands
    for one code unit in 0..255.  [parseInt(s)] with no radix skips leading
    white space, reads an optional sign, switches to radix 16 after a
    [0x]/[0X] prefix, and reads the longest run of digits of the radix;
    with no digit the result is [NaN], here [None]. *)

Definition isStrWhiteSpaceChar (c : ascii) : bool :=
  let n := N_of_ascii c in
  ((9 <=? n) && (n <=? 13) || (n =? 32) || (n =? 160))%N.

Fixpoint trimStart (s : string) : string :=
  match s with
  | String c rest => if isStrWhiteSpaceChar c then trimStart rest else s
  | EmptyString => EmptyString
  end.

Definition digitValue (c : ascii) : option Z :=
  let n := Z.of_N (N_of_ascii c) in
  if (48 <=? n) && (n <=? 57) then Some (n - 48)
  else if (97 <=? n) && (n <=? 122) then Some (n - 87)
  else if (65 <=? n) && (n <=? 90) then Some (n - 55)
  else None.

(** The value of the longest prefix of digits of [radix]; [acc] is [None]
    until a first digit was read. *)
Fixpoint parseDigits (radix : Z) (acc : option Z) (s : string) : option Z :=
  match s with
  | EmptyString => acc
  | String c rest =>
      match digitValue c with
      | Some d =>
          if d <? radix
          then parseDigits radix (Some (default 0 acc * radix + d)) rest
          else acc
      | None => acc
      end
  end.

Definition stripSign (s : string) : Z * string :=
  match s with
  | String "-" rest => (-1, rest)
  | String "+" rest => (1, rest)
  | _ => (1, s)
  end.

Definition stripRadixPrefix (s : string) : Z * string :=
  match s with
  | String "0" (String "x" rest) => (16, rest)
  | String "0" (String "X" rest) => (16, rest)
  | _ => (10, s)
  end.

Definition parseInt (s : string) : option Z :=
  let '(sign, s1) := stripSign (trimStart s) in
  let '(radix, s2) := stripRadixPrefix s1 in
  match parseDigits radix None s2 with
  | Some v => Some (sign * v)
  | None => None
  end.

(** Comparisons of a possibly-[NaN] number with an integer: every
    comparison with [NaN] is false. *)
Definition numGt (x : option Z) (y : Z) : bool :=
  match x with Some v => y <? v | None => false end.
Definition numLe (x : option Z) (y : Z) : bool :=
  match x with Some v => v <=? y | None => false end.

(* ===================================================================== *)
(** ** Streams of bytes *)
(* ===================================================================== *)

Definition Chunk : Type := list Byte.byte.        (* Uint8Array *)
Definition ArrayBuffer : Type := list Byte.byte.

(** A [ReadableStream<Uint8Array>] handed to the registry is modelled by
    the chunks its source will still produce, in order; it is readable
    (not locked, not errored) and owned by the registry alone. *)
Record ReadableStream : Type := { pending : list Chunk }.

(** [ReadableStreamReadResult<Uint8Array>] *)
Module ReadResult.
Record t : Type := mk { value : option Chunk; done : bool }.
End ReadResult.

(** [ReadableStreamDefaultReader<Uint8Array>]: the chunks not read yet. *)
Record Reader : Type := { remaining : list Chunk }.

(** [body.getReader()] *)
Definition getReader (body : ReadableStream) : Reader :=
  {| remaining := pending body |}.

(** [reader.read()]: one read of the source; the reader advances by the
    chunk it returned, and reports [done] once the source is exhausted. *)
Definition read (reader : Reader) : ReadResult.t * Reader :=
  match remaining reader with
  | chunk :: rest => (ReadResult.mk (Some chunk) false, {| remaining := rest |})
  | [] => (ReadResult.mk None true, reader)
  end.

(** [response.arrayBuffer()]: the whole body, buffered; empty when the
    body is [null]. *)
Definition arrayBuffer (body : option ReadableStream) : ArrayBuffer :=
  match body with
  | Some stream => concat (pending stream)
  | None => []
  end.

(* ===================================================================== *)
(** ** The body registry: class [Bodies] *)
(* ===================================================================== *)

Record Bodies : Type := {
  bodies : gmap Z ReadableStream;
  readers : gmap Z Reader;
  nextBodyId : Z;
}.

(** [new Bodies()] *)
Definition newBodies : Bodies :=
  {| bodies := ∅; readers := ∅; nextBodyId := 1 |}.

(** [computeBodyId(body)]: no identifier for a [null] body, the next
    identifier otherwise. *)
Definition computeBodyId (body : option ReadableStream) (self : Bodies)
  : option Z * Bodies :=
  match body with
  | None => (None, self)
  | Some stream =>
      let bodyId := nextBodyId self in
      (Some bodyId,
       {| bodies := <[bodyId := stream]> (bodies self);
          readers := readers self;
          nextBodyId := bodyId + 1 |})
  end.

(** The first half of [readBodyChunk]: the cached reader, or a reader
    opened over the stored body and cached; [Bad bodyId] when there is
    neither. *)
Definition openReader (bodyId : Z) (self : Bodies) : Completion Reader * Bodies :=
  match readers self !! bodyId with
  | Some reader => (Return reader, self)
  | None =>
      match bodies self !! bodyId with
      | None => (Throw (Error ("Bad bodyId: " +:+ pretty bodyId)), self)
      | Some body =>
          let reader := getReader body in
          (Return reader,
           {| bodies := bodies self;
              readers := <[bodyId := reader]> (readers self);
              nextBodyId := nextBodyId self |})
      end
  end.

(** [readBodyChunk(bodyId)].  The reader is an object shared with the
    [readers] map, so the map holds the reader as the read left it; a
    result with [done] removes the reader and the body. *)
Definition readBodyChunk (bodyId : Z) (self : Bodies)
  : Completion ReadResult.t * Bodies :=
  match openReader bodyId self with
  | (Throw e, self1) => (Throw e, self1)
  | (Return reader, self1) =>
      let '(result, reader') := read reader in
      let self2 :=
        {| bodies := bodies self1;
           readers := <[bodyId := reader']> (readers self1);
           nextBodyId := nextBodyId self1 |} in
      if ReadResult.done result
      then (Return result,
            {| bodies := delete bodyId (bodies self2);
               readers := delete bodyId (readers self2);
               nextBodyId := nextBodyId self2 |})
      else (Return result, self2)
  end.

(** *** Runs of the registry *)

(** One call on the registry, and what it returned. *)
Inductive BodiesCall : Type :=
| CallComputeBodyId (body : option ReadableStream)
| CallReadBodyChunk (bodyId : Z).

Inductive BodiesReturn : Type :=
| ComputedBodyId (bodyId : option Z)
| ReadChunk (result : Completion ReadResult.t).

Definition call (c : BodiesCall) (self : Bodies) : BodiesReturn * Bodies :=
  match c with
  | CallComputeBodyId body =>
      let '(bodyId, self') := computeBodyId body self in (ComputedBodyId bodyId, self')
  | CallReadBodyChunk bodyId =>
      let '(result, self') := readBodyChunk bodyId self in (ReadChunk result, self')
  end.

Fixpoint run (calls : list BodiesCall) (self : Bodies) : list BodiesReturn * Bodies :=
  match calls with
  | [] => ([], self)
  | c :: rest =>
      let '(r, self1) := call c self in
      let '(rs, self2) := run rest self1 in
      (r :: rs, self2)
  end.

(** The identifiers a run handed out, in the order of the calls. *)
Fixpoint issuedIds (returns : list BodiesReturn) : list Z :=
  match returns with
  | ComputedBodyId (Some bodyId) :: rest => bodyId :: issuedIds rest
  | _ :: rest => issuedIds rest
  | [] => []
  end.

(** The calls of a run that register a present body. *)
Fixpoint presentBodies (calls : list BodiesCall) : nat :=
  match calls with
  | CallComputeBodyId (Some _) :: rest => S (presentBodies rest)
  | _ :: rest => presentBodies rest
  | [] => O
  end.

(** [n] successive pulls of one body. *)
Fixpoint pulls (n : nat) (bodyId : Z) (self : Bodies)
  : list (Completion ReadResult.t) * Bodies :=
  match n with
  | O => ([], self)
  | S n' =>
      let '(r, self1) := readBodyChunk bodyId self in
      let '(rs, self2) := pulls n' bodyId self1 in
      (r :: rs, self2)
  end.

(** The results, in a run, of the pulls of one body. *)
Fixpoint readResults (bodyId : Z) (calls : list BodiesCall) (returns : list BodiesReturn)
  : list (Completion ReadResult.t) :=
  match calls, returns with
  | CallReadBodyChunk pulled :: calls', ReadChunk result :: returns' =>
      if bool_decide (pulled = bodyId)
      then result :: readResults bodyId calls' returns'
      else readResults bodyId calls' returns'
  | _ :: calls', _ :: returns' => readResults bodyId calls' returns'
  | _, _ => []
  end.

(** How many times a run pulls one body. *)
Fixpoint readCount (bodyId : Z) (calls : list BodiesCall) : nat :=
  match calls with
  | CallReadBodyChunk pulled :: calls' =>
      if bool_decide (pulled = bodyId)
      then S (readCount bodyId calls') else readCount bodyId calls'
  | _ :: calls' => readCount bodyId calls'
  | [] => O
  end.

(** What is left of the source behind an identifier: the cached reader's
    chunks, or the stored body's when no reader was opened yet. *)
Definition source (self : Bodies) (bodyId : Z) : option (list Chunk) :=
  match readers self !! bodyId with
  | Some reader => Some (remaining reader)
  | None => pending <$> bodies self !! bodyId
  end.

(** The registry once the body behind [bodyId] was released. *)
Definition released (bodyId : Z) (self : Bodies) : Bodies :=
  {| bodies := delete bodyId (bodies self);
     readers := delete bodyId (readers self);
     nextBodyId := nextBodyId self |}.

Definition chunkResult (chunk : Chunk) : Completion ReadResult.t :=
  Return (ReadResult.mk (Some chunk) false).
Definition doneResult : Completion ReadResult.t :=
  Return (ReadResult.mk None true).
Definition badBodyId (bodyId : Z) : JsError :=
  Error ("Bad bodyId: " +:+ pretty bodyId).

(** The life of a body reference in the design document: unconsumed or
    streaming while chunks are [left], released after the pull that found
    none.  [expectedPulls bodyId left n] is what [n] pulls return. *)
Fixpoint expectedPulls (bodyId : Z) (left : option (list Chunk)) (n : nat)
  : list (Completion ReadResult.t) :=
  match n with
  | O => []
  | S n' =>
      match left with
      | Some (chunk :: rest) => chunkResult chunk :: expectedPulls bodyId (Some rest) n'
      | Some [] => doneResult :: expectedPulls bodyId None n'
      | None => Throw (badBodyId bodyId) :: expectedPulls bodyId None n'
      end
  end.


(* ===================================================================== *)
(** ** Headers, requests and responses of the platform *)
(* ===================================================================== *)

(** The part of the platform's [Headers] class the codec uses:
    [new Headers(init)], [[...h.entries()]] and [h.get(name)]. *)
Class HeadersApi : Type := {
  Headers : Type;
  newHeaders : list (string * string) -> Headers;
  headersEntries : Headers -> list (string * string);
  headersGet : Headers -> string -> option string;
}.

Fixpoint allChars (p : ascii -> bool) (s : string) : bool :=
  match s with
  | String c rest => p c && allChars p rest
  | EmptyString => true
  end.

Definition nonEmpty (s : string) : bool :=
  match s with String _ _ => true | EmptyString => false end.

Definition asciiUpper (c : ascii) : ascii :=
  let n := N_of_ascii c in
  if ((97 <=? n) && (n <=? 122))%N then ascii_of_N (n - 32) else c.

Fixpoint upperCase (s : string) : string :=
  match s with
  | String c rest => String (asciiUpper c) (upperCase rest)
  | EmptyString => EmptyString
  end.

(** The characters of an HTTP token, which a method name is made of. *)
Definition isTokenChar (c : ascii) : bool :=
  let n := N_of_ascii c in
  ((48 <=? n) && (n <=? 57) || (65 <=? n) && (n <=? 90) || (97 <=? n) && (n <=? 122)
   || existsb (N.eqb n) [33; 35; 36; 37; 38; 39; 42; 43; 45; 46; 94; 95; 96; 124; 126])%N.

Definition isMethod (method : string) : bool :=
  nonEmpty method && allChars isTokenChar method.

(** The methods that [new Request] refuses, and the ones whose name it
    writes in upper case; both are compared without regard to case. *)
Definition isForbiddenMethod (method : string) : bool :=
  existsb (String.eqb (upperCase method)) ["CONNECT"; "TRACE"; "TRACK"].

Definition normalizeMethod (method : string) : string :=
  if existsb (String.eqb (upperCase method)) ["DELETE"; "GET"; "HEAD"; "OPTIONS"; "POST"; "PUT"]
  then upperCase method
  else method.

(** [BodyInit] as the codec tells it apart: a string, a stream, or
    anything else, kept as the text a template literal shows for it. *)
Inductive BodyInit : Type :=
| BodyString (text : string)
| BodyStream (stream : ReadableStream)
| BodyOther (shown : string).

(** A live [Request]; [S] is the type of its body stream. *)
Module Request.
Record t `{HeadersApi} (S : Type) : Type := mk {
  method : string;
  url : string;
  headers : Headers;
  body : option S;
}.
Arguments mk {_ S} _ _ _ _.
Arguments method {_ S} _.
Arguments url {_ S} _.
Arguments headers {_ S} _.
Arguments body {_ S} _.
End Request.

(** [RequestInit]: every option may be left [undefined]. *)
Module RequestInit.
Record t : Type := mk {
  method : option string;
  headers : option (list (string * string));
  body : option (option BodyInit);
  cache : option string;
  credentials : option string;
  integrity : option string;
  keepalive : option bool;
  mode : option string;
  redirect : option string;
  referrer : option string;
  referrerPolicy : option string;
  signal : option (option bool);   (* an AbortSignal (aborted or not) or null *)
  window : option unit;            (* can only be set to null *)
}.
End RequestInit.

(** [RequestInfo = Request | string] *)
Inductive RequestInfo `{HeadersApi} : Type :=
| InfoRequest (request : Request.t ReadableStream)
| InfoUrl (url : string).

(** Modelled from the spec: the class [DenoflareResponse] is imported from
    a module that is not among the sources; it is the document's synthetic
    response, tagged as such ([DenoflareResponse.is]) and keeping the
    [bodyInit] it was made from.  A [Response] as [packResponse] sees it is
    such a response, or a response of the platform with a body stream or
    [null]. *)
Inductive Response `{HeadersApi} : Type :=
| DenoflareResponse (status : Z) (headers : Headers) (bodyInit : BodyInit)
| PlatformResponse (status : Z) (headers : Headers) (body : option ReadableStream).

Module PackedRequest.
Record t : Type := mk {
  method : string;
  url : string;
  headers : list (string * string);
  bodyId : option Z;
}.
End PackedRequest.

Module PackedResponse.
Record t : Type := mk {
  status : Z;
  headers : list (string * string);
  bodyId : option Z;
  bodyText : option string;
  bodyBytes : option ArrayBuffer;
}.
End PackedResponse.

(** The body argument of [new Response(body, init)] in [unpackResponse]. *)
Inductive UnpackedBody (S : Type) : Type :=
| TextBody (bodyText : string)
| BytesBody (bodyBytes : ArrayBuffer)
| StreamBody (stream : S).
Arguments TextBody {S} _.
Arguments BytesBody {S} _.
Arguments StreamBody {S} _.

(** [new Response(body, { status, headers })] *)
Module NewResponse.
Record t `{HeadersApi} (S : Type) : Type := mk {
  body : option (UnpackedBody S);
  status : Z;
  headers : Headers;
}.
Arguments mk {_ S} _ _ _.
Arguments body {_ S} _.
Arguments status {_ S} _.
Arguments headers {_ S} _.
End NewResponse.

(** The [Response] that the constructor returns, as far as the bridge can
    tell responses apart: its status, its headers and what its body was
    made from. *)
Module ResponseObject.
Record t `{HeadersApi} (S : Type) : Type := mk {
  status : Z;
  headers : Headers;
  body : option (UnpackedBody S);
}.
Arguments mk {_ S} _ _ _.
Arguments status {_ S} _.
Arguments headers {_ S} _.
Arguments body {_ S} _.
End ResponseObject.

Definition defined {A : Type} (v : option A) : bool :=
  match v with Some _ => true | None => false end.

(* ===================================================================== *)
(** ** The wire codec *)
(* ===================================================================== *)

Section Codec.
Context `{HeadersApi}.

(** [Constants.MAX_CONTENT_LENGTH_TO_PACK_OVER_RPC], the inlining threshold:
    the constant is defined in a module that is not among the sources, so
    the codec takes it as a parameter. *)
Variable MAX_CONTENT_LENGTH_TO_PACK_OVER_RPC : Z.

(** The platform's url parser as [new Request(url, ...)] uses it, with no
    base url: [parseUrl url] is the serialisation of what [url] parses to,
    which becomes the [url] of the request, or [None] when the constructor
    refuses the text (an address that is not absolute, or one that holds
    credentials).  The parser is the platform's, so the codec takes it as a
    parameter. *)
Variable parseUrl : string -> option string.

Definition responseStatus (response : Response) : Z :=
  match response with
  | DenoflareResponse status _ _ => status
  | PlatformResponse status _ _ => status
  end.

Definition responseHeaders (response : Response) : Headers :=
  match response with
  | DenoflareResponse _ headers _ => headers
  | PlatformResponse _ headers _ => headers
  end.

(** [parseInt(response.headers.get('content-length') || '-1')] *)
Definition contentLength (headers : Headers) : option Z :=
  parseInt
    match headersGet headers "content-length" with
    | None => "-1"
    | Some EmptyString => "-1"
    | Some text => text
    end.

Definition packResponse (response : Response) (bodies : Bodies)
  : Completion PackedResponse.t * Bodies :=
  let status := responseStatus response in
  let headers := headersEntries (responseHeaders response) in
  match response with
  | DenoflareResponse _ _ bodyInit =>
      match bodyInit with
      | BodyString bodyText =>
          (Return (PackedResponse.mk status headers None (Some bodyText) None), bodies)
      | BodyStream stream =>
          let '(bodyId, bodies') := computeBodyId (Some stream) bodies in
          (Return (PackedResponse.mk status headers bodyId None None), bodies')
      | BodyOther shown =>
          (Throw (Error ("packResponse: DenoflareResponse bodyInit=" +:+ shown)), bodies)
      end
  | PlatformResponse _ _ body =>
      let contentLength := contentLength (responseHeaders response) in
      if numGt contentLength (-1)
         && numLe contentLength MAX_CONTENT_LENGTH_TO_PACK_OVER_RPC
      then
        let bodyBytes := arrayBuffer body in
        (Return (PackedResponse.mk status headers None None (Some bodyBytes)), bodies)
      else
        let '(bodyId, bodies') := computeBodyId body bodies in
        (Return (PackedResponse.mk status headers bodyId None None), bodies')
  end.

(** [unpackResponse] up to its last line: the arguments it gives to
    [new _Response(body, { status, headers })].  The call of the
    constructor is [newResponse], below. *)
Definition unpackResponse {S : Type} (packed : PackedResponse.t)
    (bodyResolver : Z -> Completion S) : Completion (NewResponse.t S) :=
  let headers := newHeaders (PackedResponse.headers packed) in
  body ←
    match PackedResponse.bodyText packed with
    | Some bodyText => Return (Some (TextBody bodyText))
    | None =>
        match PackedResponse.bodyBytes packed with
        | Some bodyBytes => Return (Some (BytesBody bodyBytes))
        | None =>
            match PackedResponse.bodyId packed with
            | None => Return None
            | Some bodyId => stream ← bodyResolver bodyId; Return (Some (StreamBody stream))
            end
        end
    end;
  Return (NewResponse.mk body (PackedResponse.status packed) headers).

(** The branch of [packRequest] for a url string: the checks run in the
    order of the source, and the first one that fires throws. *)
Definition packUrlRequest (url : string) (init : option RequestInit.t)
  : Completion PackedRequest.t :=
  match init with
  | None => Return (PackedRequest.mk "GET" url [] None)
  | Some init =>
      let method := default "GET" (RequestInit.method init) in
      let headers :=
        match RequestInit.headers init with
        | Some headersInit => headersEntries (newHeaders headersInit)
        | None => []
        end in
      throwIf (defined (RequestInit.body init)) "packRequest: init.body";;
      throwIf (defined (RequestInit.cache init)) "packRequest: init.cache";;
      throwIf (defined (RequestInit.credentials init)) "packRequest: init.credentials";;
      throwIf (defined (RequestInit.integrity init)) "packRequest: init.integrity";;
      throwIf (defined (RequestInit.keepalive init)) "packRequest: init.keepalive";;
      throwIf (defined (RequestInit.mode init)) "packRequest: init.mode";;
      match RequestInit.redirect init with
      | Some redirect =>
          throwIf (negb (String.eqb redirect "follow"))
                  ("packRequest: init.redirect " +:+ redirect)
      | None => Return tt
      end;;
      throwIf (defined (RequestInit.referrer init)) "packRequest: init.referrer";;
      throwIf (defined (RequestInit.referrerPolicy init)) "packRequest: init.referrerPolicy";;
      throwIf (defined (RequestInit.signal init)) "packRequest: init.signal";;
      throwIf (defined (RequestInit.window init)) "packRequest: init.window";;
      Return (PackedRequest.mk method url headers None)
  end.

(** The message of the last [throw] of [packRequest], for the one case the
    types leave: a request object with an options bag. *)
Definition implementMessage : string :=
  "packRequest: implement info=[object Request] object init=[object Object]".

Definition packRequest (info : RequestInfo) (init : option RequestInit.t)
    (bodies : Bodies) : Completion PackedRequest.t * Bodies :=
  match info, init with
  | InfoRequest request, None =>
      let '(bodyId, bodies') := computeBodyId (Request.body request) bodies in
      (Return (PackedRequest.mk (Request.method request) (Request.url request)
                 (headersEntries (Request.headers request)) bodyId),
       bodies')
  | InfoUrl url, _ => (packUrlRequest url init, bodies)
  | InfoRequest _, Some _ => (Throw (Error implementMessage), bodies)
  end.

(** [new Request(url, { method, headers, body })], from the fetch
    standard: the url is parsed and serialised; a method that is not a
    token, or is forbidden, is refused, and a standard method is written in
    upper case; a body is refused for [GET] and [HEAD]; the headers are
    copied.  Every refusal is a [TypeError]. *)
Definition newRequest {S : Type} (url method : string) (headers : Headers)
    (body : option S) : Completion (Request.t S) :=
  match parseUrl url with
  | None => Throw TypeError
  | Some href =>
      if negb (isMethod method) || isForbiddenMethod method then Throw TypeError
      else
        let method := normalizeMethod method in
        if defined body && (String.eqb method "GET" || String.eqb method "HEAD")
        then Throw TypeError
        else Return (Request.mk method href headers body)
  end.

Definition unpackRequest {S : Type} (packedRequest : PackedRequest.t)
    (bodyResolver : Z -> Completion S) : Completion (Request.t S) :=
  let headers := newHeaders (PackedRequest.headers packedRequest) in
  body ←
    match PackedRequest.bodyId packedRequest with
    | None => Return None
    | Some bodyId => stream ← bodyResolver bodyId; Return (Some stream)
    end;
  newRequest (PackedRequest.url packedRequest) (PackedRequest.method packedRequest)
    headers body.

(** [new _Response(body, { status, headers })], from the fetch standard: a
    status outside 200..599 is a [RangeError]; a body together with a
    status that allows none (101, 103, 204, 205, 304) is a [TypeError]; the
    headers are copied, and a body that is a string adds the content type
    of text when the headers name none. *)
Definition isNullBodyStatus (status : Z) : bool :=
  existsb (Z.eqb status) [101; 103; 204; 205; 304].

Definition textContentType : string * string :=
  ("content-type", "text/plain;charset=UTF-8").

Definition newResponse {S : Type} (init : NewResponse.t S)
  : Completion (ResponseObject.t S) :=
  let status := NewResponse.status init in
  let headers := NewResponse.headers init in
  if (status <? 200) || (599 <? status) then Throw RangeError
  else if defined (NewResponse.body init) && isNullBodyStatus status then Throw TypeError
  else
    Return (ResponseObject.mk status
              match NewResponse.body init with
              | Some (TextBody _) =>
                  if defined (headersGet headers "content-type") then headers
                  else newHeaders (headersEntries headers ++ [textContentType])
              | _ => headers
              end
              (NewResponse.body init)).

End Codec.

(* ===================================================================== *)
(** ** The body resolver over the RPC channel *)
(* ===================================================================== *)

(** The [controller] of a [ReadableStream]: the chunks enqueued for the
    consumer, and whether [close()] was called.  Both operations throw a
    [TypeError] on a controller that was closed. *)
Record Controller : Type := { queue : list Chunk; closeRequested : bool }.

Definition newController : Controller := {| queue := []; closeRequested := false |}.

Definition enqueue (chunk : Chunk) (controller : Controller)
  : Completion unit * Controller :=
  if closeRequested controller then (Throw TypeError, controller)
  else (Return tt, {| queue := queue controller ++ [chunk]; closeRequested := false |}).

Definition close (controller : Controller) : Completion unit * Controller :=
  if closeRequested controller then (Throw TypeError, controller)
  else (Return tt, {| queue := queue controller; closeRequested := true |}).

Section Rpc.

(** The class [RpcChannel] is an external collaborator, imported from a
    module that is not among the sources, so the model takes its peer as a
    parameter: [deliver name bodyId] is what the peer answers to the request
    [name] with the payload [{ bodyId }], as a function of the peer's
    state. *)
Variable Peer : Type.
Variable deliver : string -> Z -> Peer -> Completion ReadResult.t * Peer.

(** An [RpcChannel]: the requests sent so far, oldest first, and the peer. *)
Record RpcChannel : Type := { sent : list (string * Z); peer : Peer }.

(** [channel.sendRequest(name, { bodyId }, responseData => responseData)] *)
Definition sendRequest (name : string) (bodyId : Z) (channel : RpcChannel)
  : Completion ReadResult.t * RpcChannel :=
  let '(reply, peer') := deliver name bodyId (peer channel) in
  (reply, {| sent := sent channel ++ [(name, bodyId)]; peer := peer' |}).

(** What the callbacks of one resolved stream act on. *)
Record StreamWorld : Type := {
  channel : RpcChannel;
  controller : Controller;
  console : list string;
}.

(** The underlying source given to [new ReadableStream(...)]. *)
Record UnderlyingSource : Type := {
  start : StreamWorld -> StreamWorld;
  pull : StreamWorld -> Completion unit * StreamWorld;
  cancel : string -> StreamWorld -> StreamWorld;
}.

Definition rpcPull (bodyId : Z) (world : StreamWorld) : Completion unit * StreamWorld :=
  let '(reply, channel') := sendRequest "read-body-chunk" bodyId (channel world) in
  let world1 :=
    {| channel := channel'; controller := controller world; console := console world |} in
  match reply with
  | Throw e => (Throw e, world1)
  | Return result =>
      let '(enqueued, controller1) :=
        match ReadResult.value result with
        | Some value => enqueue value (controller world1)
        | None => (Return tt, controller world1)
        end in
      let world2 :=
        {| channel := channel'; controller := controller1; console := console world |} in
      match enqueued with
      | Throw e => (Throw e, world2)
      | Return _ =>
          if ReadResult.done result
          then
            let '(closed, controller2) := close controller1 in
            (closed,
             {| channel := channel'; controller := controller2; console := console world |})
          else (Return tt, world2)
      end
  end.

Definition rpcCancel (bodyId : Z) (reason : string) (world : StreamWorld) : StreamWorld :=
  {| channel := channel world;
     controller := controller world;
     console := console world ++
       ["RpcBodyResolver(" +:+ pretty bodyId +:+ "): cancel reason=" +:+ reason] |}.

(** [makeBodyResolverOverRpc(channel)(bodyId)]; the channel is the one of
    the world the callbacks run in. *)
Definition makeBodyResolverOverRpc (bodyId : Z) : UnderlyingSource :=
  {| start := fun world => world;
     pull := rpcPull bodyId;
     cancel := rpcCancel bodyId |}.

(** The calls the stream makes on its source: [start] once when it is
    constructed, then a [pull] for each request for data, or [cancel]. *)
Inductive SourceCall : Type :=
| Start
| Pull
| Cancel (reason : string).

Definition sourceCall (source : UnderlyingSource) (c : SourceCall) (world : StreamWorld)
  : Completion unit * StreamWorld :=
  match c with
  | Start => (Return tt, start source world)
  | Pull => pull source world
  | Cancel reason => (Return tt, cancel source reason world)
  end.

(** The calls run in order; a throw errors the stream, which makes no
    further call.  The result counts the calls that ran. *)
Fixpoint drive (source : UnderlyingSource) (calls : list SourceCall) (world : StreamWorld)
  : list SourceCall * StreamWorld :=
  match calls with
  | [] => ([], world)
  | c :: rest =>
      match sourceCall source c world with
      | (Return _, world1) =>
          let '(ran, world2) := drive source rest world1 in (c :: ran, world2)
      | (Throw _, world1) => ([c], world1)
      end
  end.

Definition isPull (c : SourceCall) : bool :=
  match c with Pull => true | _ => false end.

Definition newWorld (channel : RpcChannel) : StreamWorld :=
  {| channel := channel; controller := newController; console := [] |}.

End Rpc.

Arguments sent {Peer} _.
Arguments peer {Peer} _.
Arguments channel {Peer} _.
Arguments controller {Peer} _.
Arguments console {Peer} _.
Arguments start {Peer} _ _.
Arguments pull {Peer} _ _.
Arguments cancel {Peer} _ _ _.
Arguments sourceCall {Peer} _ _ _.
Arguments drive {Peer} _ _ _.
Arguments newWorld {Peer} _.
Arguments sendRequest {Peer} _ _ _ _.
Arguments rpcPull {Peer} _ _ _.
Arguments rpcCancel {Peer} _ _ _.
Arguments makeBodyResolverOverRpc {Peer} _ _.

(** The pulls among the calls made on a source. *)
Definition pullCount (calls : list SourceCall) : nat :=
  length (List.filter isPull calls).

(** A channel on which nothing was sent yet. *)
Definition newChannel {Peer : Type} (peer : Peer) : RpcChannel Peer :=
  {| sent := []; peer := peer |}.

(** The handler that [addRequestHandlerForReadBodyChunk(channel, bodies)]
    registers for [read-body-chunk]. *)
Definition readBodyChunkHandler (bodyId : Z) (bodies : Bodies)
  : Completion ReadResult.t * Bodies :=
  let '(result, bodies') := readBodyChunk bodyId bodies in
  (r ← result; Return (ReadResult.mk (ReadResult.value r) (ReadResult.done r)), bodies').

(** A peer to run the model on: its state is a registry, and the handler
    above is the only one it has. *)
Definition registryPeer (name : string) (bodyId : Z) (bodies : Bodies)
  : Completion ReadResult.t * Bodies :=
  if String.eqb name "read-body-chunk" then readBodyChunkHandler bodyId bodies
  else (Throw (Error ("no handler for " +:+ name)), bodies).

(* ===================================================================== *)
(** ** The platform's stream around the source *)
(* ===================================================================== *)

(** [new ReadableStream(source)] is the platform's.  What follows is
    modelled from the streams standard, for a stream made with no queuing
    strategy, as [makeBodyResolverOverRpc] makes it: the high-water mark is
    1 and every chunk counts 1.  The stream calls [pull] whenever it is
    readable, no close was requested, and a read is waiting or the queue is
    below the high-water mark; it looks at this when [start] has returned,
    after every [enqueue], after every read and when a [pull] has returned.

    Two things are fixed.  The reply to a request arrives before the
    consumer's next step, so a [pull] runs to its end where it is called.
    And the consumer awaits each read before the next, so at most one read
    is waiting. *)

Inductive StreamState : Type :=
| StreamReadable
| StreamClosed
| StreamErrored (reason : JsError).

Definition highWaterMark : nat := 1.

Section PlatformStream.
Variable Peer : Type.
Variable underlying : UnderlyingSource Peer.

(** The stream: the world its source acts on, whose controller holds the
    queue and the close request; its state; and whether a read is
    waiting for a chunk. *)
Record Stream : Type := {
  streamWorld : StreamWorld Peer;
  streamState : StreamState;
  readWaiting : bool;
}.

Definition withController (world : StreamWorld Peer) (controller : Controller)
  : StreamWorld Peer :=
  {| channel := channel world; controller := controller; console := console world |}.

(** [ReadableStreamDefaultControllerShouldCallPull] *)
Definition shouldCallPull (s : Stream) : bool :=
  match streamState s with
  | StreamReadable =>
      negb (closeRequested (controller (streamWorld s)))
      && (readWaiting s
          || (length (queue (controller (streamWorld s))) <? highWaterMark)%nat)
  | _ => false
  end.

(** One call of [pull], and what the stream does with what the source did
    to the controller meanwhile.  A chunk enqueued while a read is waiting
    goes to that read and not to the queue; a close with an empty queue
    closes the stream, and ends a waiting read; a [pull] that throws errors
    the stream, which empties the queue and fails a waiting read.  The
    result is what the waiting read was settled with, if it was; whether
    the stream is to pull again, which it is when the source enqueued a
    chunk and a pull is still called for; and the stream afterwards. *)
Definition pullOnce (s : Stream) : option (Completion ReadResult.t) * bool * Stream :=
  let before := length (queue (controller (streamWorld s))) in
  let '(completion, world) := pull underlying (streamWorld s) in
  let enqueued := (before <? length (queue (controller world)))%nat in
  let '(settled, controller1, waiting1) :=
    match readWaiting s, queue (controller world) with
    | true, chunk :: rest =>
        (Some (chunkResult chunk),
         {| queue := rest; closeRequested := closeRequested (controller world) |},
         false)
    | waiting, _ => (None, controller world, waiting)
    end in
  match completion with
  | Throw e =>
      (if waiting1 then Some (Throw e) else settled,
       false,
       {| streamWorld :=
            withController world
              {| queue := []; closeRequested := closeRequested controller1 |};
          streamState := StreamErrored e;
          readWaiting := false |})
  | Return _ =>
      if closeRequested controller1 && bool_decide (queue controller1 = [])
      then
        (if waiting1 then Some doneResult else settled,
         false,
         {| streamWorld := withController world controller1;
            streamState := StreamClosed;
            readWaiting := false |})
      else
        let s1 :=
          {| streamWorld := withController world controller1;
             streamState := StreamReadable;
             readWaiting := waiting1 |} in
        (settled, enqueued && shouldCallPull s1, s1)
  end.

(** [ReadableStreamDefaultControllerCallPullIfNeeded], to its end: with one
    read waiting at most, a pull is repeated once at most, after it gave
    its chunk to the waiting read. *)
Definition callPullIfNeeded (s : Stream) : option (Completion ReadResult.t) * Stream :=
  if shouldCallPull s then
    let '(settled, again, s1) := pullOnce s in
    if again then
      let '(settled2, _, s2) := pullOnce s1 in
      (match settled with Some result => Some result | None => settled2 end, s2)
    else (settled, s1)
  else (None, s).

(** [new ReadableStream(source)]: [start] is called, and then [pull] if it
    is called for, which it is: nothing is in the queue. *)
Definition newReadableStream (world : StreamWorld Peer) : Stream :=
  snd (callPullIfNeeded
         {| streamWorld := start underlying world;
            streamState := StreamReadable;
            readWaiting := false |}).

(** [reader.read()]: what the read is settled with, [None] while it waits,
    and the stream afterwards.  A chunk in the queue is taken from it, and
    the stream then closes if a close was requested and the queue is empty,
    or else pulls if that is called for; with an empty queue the read
    waits, and the stream pulls. *)
Definition streamRead (s : Stream) : option (Completion ReadResult.t) * Stream :=
  match streamState s with
  | StreamErrored e => (Some (Throw e), s)
  | StreamClosed => (Some doneResult, s)
  | StreamReadable =>
      if readWaiting s then (None, s)
      else
        match queue (controller (streamWorld s)) with
        | chunk :: rest =>
            let controller1 :=
              {| queue := rest;
                 closeRequested := closeRequested (controller (streamWorld s)) |} in
            if closeRequested controller1 && bool_decide (rest = [])
            then
              (Some (chunkResult chunk),
               {| streamWorld := withController (streamWorld s) controller1;
                  streamState := StreamClosed;
                  readWaiting := false |})
            else
              (Some (chunkResult chunk),
               snd (callPullIfNeeded
                      {| streamWorld := withController (streamWorld s) controller1;
                         streamState := StreamReadable;
                         readWaiting := false |}))
        | [] =>
            callPullIfNeeded
              {| streamWorld := streamWorld s;
                 streamState := StreamReadable;
                 readWaiting := true |}
        end
  end.

(** [n] reads, one after the other. *)
Fixpoint streamReads (n : nat) (s : Stream)
  : list (option (Completion ReadResult.t)) * Stream :=
  match n with
  | O => ([], s)
  | S n' =>
      let '(result, s1) := streamRead s in
      let '(results, s2) := streamReads n' s1 in
      (result :: results, s2)
  end.

End PlatformStream.

Arguments streamWorld {Peer} _.
Arguments streamState {Peer} _.
Arguments readWaiting {Peer} _.
Arguments withController {Peer} _ _.
Arguments shouldCallPull {Peer} _.
Arguments pullOnce {Peer} _ _.
Arguments callPullIfNeeded {Peer} _ _.
Arguments newReadableStream {Peer} _ _.
Arguments streamRead {Peer} _ _.
Arguments streamReads {Peer} _ _ _.

(** The requests a stream has sent. *)
Definition streamSent {Peer : Type} (s : Stream Peer) : list (string * Z) :=
  sent (channel (streamWorld s)).

(* ===================================================================== *)
(** ** A header store to run the model on *)
(* ===================================================================== *)

Definition asciiLower (c : ascii) : ascii :=
  let n := N_of_ascii c in
  if ((65 <=? n) && (n <=? 90))%N then ascii_of_N (n + 32) else c.

Fixpoint lowerCase (s : string) : string :=
  match s with
  | String c rest => String (asciiLower c) (lowerCase rest)
  | EmptyString => EmptyString
  end.

(** Headers kept in the order they were given; names are compared and
    enumerated in lower case. *)
Definition ListHeaders : HeadersApi :=
  {| Headers := list (string * string);
     newHeaders := fun init => init;
     headersEntries := fun h => map (fun p => (lowerCase (fst p), snd p)) h;
     headersGet := fun h name =>
       snd <$> List.find (fun p => String.eqb (lowerCase (fst p)) (lowerCase name)) h |}.

(* ===================================================================== *)
(** ** The vocabulary of the design document *)
(* ===================================================================== *)

(** The options of [RequestInit] that the document lists as unsupported, in
    the order in which [packRequest] looks at them. *)
Inductive RequestOption : Type :=
| OptBody | OptCache | OptCredentials | OptIntegrity | OptKeepalive | OptMode
| OptRedirect | OptReferrer | OptReferrerPolicy | OptSignal | OptWindow.

Global Instance RequestOption_eq_dec : EqDecision RequestOption.
Proof. solve_decision. Defined.





(** The packed response fields that say where the body is. *)
Definition setBodyFields (packed : PackedResponse.t) : nat :=
  ((if defined (PackedResponse.bodyId packed) then 1 else 0)
   + (if defined (PackedResponse.bodyText packed) then 1 else 0)
   + (if defined (PackedResponse.bodyBytes packed) then 1 else 0))%nat.

Section Vocabulary.
Context `{HeadersApi}.

(** The declared content length: the [content-length] header read as an
    integer, if there is one and it reads as a number. *)
Definition declaredContentLength (headers : Headers) : option Z :=
  text ← headersGet headers "content-length"; parseInt text.





(** The last clause of the document's account of [packResponse], as it is
    written: a response of the platform whose content length is absent or
    above the threshold is packed with a body reference and no bytes. *)
Definition referenceWhenNotInlined (threshold : Z) (response : Response)
    (bodies : Bodies) : Prop :=
  forall status headers body,
    response = PlatformResponse status headers body ->
    (declaredContentLength headers = None \/
     exists n, declaredContentLength headers = Some n /\ threshold < n) ->
    exists packed bodies',
      packResponse threshold response bodies = (Return packed, bodies') /\
      is_Some (PackedResponse.bodyId packed) /\
      PackedResponse.bodyBytes packed = None.

(** The stream a response holds, if it holds one. *)
Definition responseStream (response : Response) : option ReadableStream :=
  match response with
  | DenoflareResponse _ _ (BodyStream stream) => Some stream
  | DenoflareResponse _ _ _ => None
  | PlatformResponse _ _ body => body
  end.

End Vocabulary.

(** A resolver that errors on any reference. *)
Definition failingResolver (bodyId : Z) : Completion ReadableStream :=
  Throw (Error ("unexpected body reference " +:+ pretty bodyId)).

(** The chunks a read result carries. *)
Definition resultChunks (result : ReadResult.t) : list Chunk :=
  match ReadResult.value result with Some value => [value] | None => [] end.



(** A text that is a number in decimal digits, with a sign or without. *)
Definition isDecimalDigit (c : ascii) : bool :=
  let n := N_of_ascii c in ((48 <=? n) && (n <=? 57))%N.

Definition isNumeric (text : string) : bool :=
  match text with
  | String c rest =>
      if Ascii.eqb c "-" || Ascii.eqb c "+"
      then nonEmpty rest && allChars isDecimalDigit rest
      else allChars isDecimalDigit text
  | EmptyString => false
  end.

(** The document's account of a response with no body, as it is written:
    with a content-length header that is absent or not numeric, nothing is
    set in the packed response. *)
Definition unsetForNullBody `{HeadersApi} (threshold : Z) (response : Response)
    (bodies : Bodies) : Prop :=
  forall status headers,
    response = PlatformResponse status headers None ->
    (headersGet headers "content-length" = None \/
     exists text, headersGet headers "content-length" = Some text /\ isNumeric text = false) ->
    packResponse threshold response bodies
    = (Return (PackedResponse.mk status (headersEntries headers) None None None), bodies).

(** A stream over a channel served by a registry, between two reads, when
    [chunks] are the chunks of the body that the consumer has not read: the
    first of them is in the queue of the stream and the others are with
    the registry; when there is none, the stream is closed. *)
Definition prefetched (bodyId : Z) (chunks : list Chunk) (s : Stream Bodies) : Prop :=
  readWaiting s = false /\
  match chunks with
  | chunk :: rest =>
      streamState s = StreamReadable /\
      controller (streamWorld s) = {| queue := [chunk]; closeRequested := false |} /\
      source (peer (channel (streamWorld s))) bodyId = Some rest
  | [] => streamState s = StreamClosed
  end.

(** The document's account of the stream over the channel, as it is
    written: one remote call for each local read, and none before the
    consumer asks for data. *)
Definition oneCallPerRead {Peer : Type}
    (deliver : string -> Z -> Peer -> Completion ReadResult.t * Peer)
    (bodyId : Z) (channel : RpcChannel Peer) : Prop :=
  forall reads : nat,
    streamSent
      (snd (streamReads (makeBodyResolverOverRpc deliver bodyId) reads
              (newReadableStream (makeBodyResolverOverRpc deliver bodyId)
                 (newWorld channel))))
    = sent channel ++ replicate reads ("read-body-chunk", bodyId).

(** Inputs to run the model on. *)
Definition abc : Chunk := [Byte.x61; Byte.x62; Byte.x63].
Definition de : Chunk := [Byte.x64; Byte.x65].
Definition threeChunks : ReadableStream := {| pending := [abc; de; abc] |}.
Definition fiveMegabytes : Z := 1024 * 1024 * 5.

(** A fresh registry with [threeChunks] registered, under identifier 1. *)
Definition oneBody : Bodies := snd (computeBodyId (Some threeChunks) newBodies).

(** A response of three bytes that declares its length. *)
Definition smallResponse : @Response ListHeaders :=
  @PlatformResponse ListHeaders 200 [("Content-Length", "3")] (Some {| pending := [abc] |}).

(** A response with no body and no content-length header. *)
Definition noContentResponse : @Response ListHeaders :=
  @PlatformResponse ListHeaders 204 [] None.

(** A response that leaves its length open and streams three chunks. *)
Definition streamedResponse : @Response ListHeaders :=
  @PlatformResponse ListHeaders 200 [("Content-Type", "text/plain")] (Some threeChunks).

(** What [streamedResponse] is packed to by a fresh registry. *)
Definition streamedPacked : PackedResponse.t :=
  PackedResponse.mk 200 [("content-type", "text/plain")] (Some 1) None None.

(** A bodiless request object. *)
Definition getRequest : @Request.t ListHeaders ReadableStream :=
  @Request.mk ListHeaders ReadableStream "GET" "https://example.test/x" [("Accept", "*/*")] None.

(** Options with a method and headers only, and with a body besides. *)
Definition initWithMethod : RequestInit.t :=
  RequestInit.mk (Some "POST") (Some [("X-Trace", "1")])
    None None None None None None None None None None None.
Definition initWithBody : RequestInit.t :=
  RequestInit.mk (Some "POST") None (Some (Some (BodyString "payload")))
    None None None None None None None None None None.


(** A url parser that knows one host: the address of the host gets its
    path, three addresses with a path are kept, anything else is refused. *)
Definition demoUrlParser (text : string) : option string :=
  if String.eqb text "https://example.test" then Some "https://example.test/"
  else if existsb (String.eqb text)
            ["https://example.test/"; "https://example.test/x"; "https://example.test/upload"]
  then Some text
  else None.

(** A response with no body whose content-length header starts with a
    number. *)
Definition oddLengthResponse : @Response ListHeaders :=
  @PlatformResponse ListHeaders 204 [("Content-Length", "12abc")] None.

(* ===================================================================== *)
(** ** The caller's side: [makeFetchOverRpc] *)
(* ===================================================================== *)

Section FetchOverRpc.
Context `{HeadersApi}.

(** The peer of the channel, as in section [Rpc]: [deliverFetch data] is
    what it answers to the request [fetch] with the packed request [data],
    and [deliver] what it answers to the requests of the body streams. *)
Variable Peer : Type.
Variable deliver : string -> Z -> Peer -> Completion ReadResult.t * Peer.
Variable deliverFetch : PackedRequest.t -> Peer -> Completion PackedResponse.t * Peer.

(** The channel as [makeFetchOverRpc] uses it: the [fetch] requests sent so
    far, oldest first, and the peer. *)
Record FetchChannel : Type := {
  fetchSent : list (string * PackedRequest.t);
  fetchPeer : Peer;
}.

(** [channel.sendRequest('fetch', data, responseData => ...)], before the
    decoder is applied. *)
Definition sendFetch (data : PackedRequest.t) (channel : FetchChannel)
  : Completion PackedResponse.t * FetchChannel :=
  let '(reply, peer') := deliverFetch data (fetchPeer channel) in
  (reply, {| fetchSent := fetchSent channel ++ [("fetch", data)]; fetchPeer := peer' |}).

(** The resolver that [makeFetchOverRpc] hands to [unpackResponse]: the
    stream made by [makeBodyResolverOverRpc(channel)], given by its
    underlying source.  The requests of such a stream, the first of which
    goes out when the stream is made, are those of [newReadableStream] and
    [streamRead]; [fetchSent] holds the [fetch] requests only. *)
Definition rpcBodyResolver (bodyId : Z) : Completion (UnderlyingSource Peer) :=
  Return (makeBodyResolverOverRpc deliver bodyId).

(** [makeFetchOverRpc(channel, bodies)(info, init)] *)
Definition makeFetchOverRpc (info : RequestInfo) (init : option RequestInit.t)
    (bodies : Bodies) (channel : FetchChannel)
  : Completion (ResponseObject.t (UnderlyingSource Peer)) * Bodies * FetchChannel :=
  match packRequest info init bodies with
  | (Throw e, bodies') => (Throw e, bodies', channel)
  | (Return data, bodies') =>
      let '(reply, channel') := sendFetch data channel in
      (responseData ← reply;
       responseInit ← unpackResponse responseData rpcBodyResolver;
       newResponse responseInit,
       bodies', channel')
  end.

End FetchOverRpc.

Arguments fetchSent {Peer} _.
Arguments fetchPeer {Peer} _.
Arguments sendFetch {Peer} _ _ _.
Arguments rpcBodyResolver {Peer} _ _.
Arguments makeFetchOverRpc {H Peer} _ _ _ _ _ _.

(* ===================================================================== *)
(** ** Tail keys *)
(* ===================================================================== *)

(** The strings of this part are JavaScript strings whose code units are
    below 256, one character of a [string] each; in that range the white
    space of [\s] is the white space that [parseInt] skips. *)

(** [[^\s-]] and [[^\s]] *)
Definition isAccountChar (c : ascii) : bool :=
  negb (isStrWhiteSpaceChar c || Ascii.eqb c "-").
Definition isScriptChar (c : ascii) : bool :=
  negb (isStrWhiteSpaceChar c).

(** [computeTailKey(accountId, scriptId)] *)
Definition computeTailKey (accountId scriptId : string) : string :=
  accountId +:+ "-" +:+ scriptId.

(** What the greedy group [([^\s-]+)] can take at the start of a string:
    the longest run of its characters, and what follows it. *)
Fixpoint takeAccount (s : string) : string * string :=
  match s with
  | String c rest =>
      if isAccountChar c
      then let '(run, after) := takeAccount rest in (String c run, after)
      else (EmptyString, s)
  | EmptyString => (EmptyString, EmptyString)
  end.

Module TailKeyParts.
Record t : Type := mk { accountId : string; scriptId : string }.
End TailKeyParts.

(** [unpackTailKey(tailKey)]: the match of [/^([^\s-]+)-([^\s]+)$/].  The
    first group cannot hold a hyphen, so it is the longest run that
    [takeAccount] finds and must be followed by the hyphen; the second
    group is all the rest. *)
Definition unpackTailKey (tailKey : string) : Completion TailKeyParts.t :=
  let '(accountId, after) := takeAccount tailKey in
  match after with
  | String c scriptId =>
      if nonEmpty accountId && Ascii.eqb c "-"
         && nonEmpty scriptId && allChars isScriptChar scriptId
      then Return (TailKeyParts.mk accountId scriptId)
      else Throw (Error ("Bad tailKey: " +:+ tailKey))
  | EmptyString => Throw (Error ("Bad tailKey: " +:+ tailKey))
  end.

(* ===================================================================== *)
(** ** The tail controller: class [TailController] *)
(* ===================================================================== *)

Inductive TailState : Type := starting | started | stopping.

Global Instance TailState_eq_dec : EqDecision TailState.
Proof. solve_decision. Defined.

(** A [TailConnection] made by [setTails], with what its callbacks have
    captured: the account, the script, the time of opening and the record
    (by its key; records are never removed from the map). *)
Record TailConnection : Type := {
  cnUrl : string;
  cnAccountId : string;
  cnScriptId : string;
  cnOpeningTime : Z;
  cnRecord : string;
}.

(** [interface Record] *)
Module TailRecord.
Record t : Type := mk {
  tailKey : string;
  state : TailState;
  connection : option TailConnection;
}.
End TailRecord.

(** The state and the connection that the map holds for a key. *)
Definition findRecord (tailKey : string) (records : list TailRecord.t)
  : option TailRecord.t :=
  List.find (fun r => String.eqb (TailRecord.tailKey r) tailKey) records.

Definition stateOf (tailKey : string) (records : list TailRecord.t) : option TailState :=
  TailRecord.state <$> findRecord tailKey records.

Definition connectionOf (tailKey : string) (records : list TailRecord.t)
  : option TailConnection :=
  findRecord tailKey records ≫= TailRecord.connection.

Section TailControllerModel.

(** The types and functions of the modules that the controller imports,
    which are not among the sources: tails (with their [url]), messages,
    error infos, and [createTail], whose [n]-th call answers
    [createTail n accountId scriptId apiToken]; [now n] is the [n]-th
    reading of [Date.now()]. *)
Variables Tail TailMessage ErrorInfo UnparsedMessage : Type.
Variable tailUrl : Tail -> string.
Variable createTail : nat -> string -> string -> string -> Completion Tail.
Variable now : nat -> Z.

(** The calls made on the [TailControllerCallbacks]. *)
Inductive Callback : Type :=
| OnTailCreating (accountId scriptId : string)
| OnTailCreated (accountId scriptId : string) (tookMillis : Z) (tail : Tail)
| OnTailConnectionOpen (accountId scriptId : string) (timeStamp tookMillis : Z)
| OnTailConnectionClose (accountId scriptId : string) (timeStamp code : Z)
    (reason : string) (wasClean : bool)
| OnTailConnectionError (accountId scriptId : string) (timeStamp : Z)
    (errorInfo : option ErrorInfo)
| OnTailConnectionMessage (accountId scriptId : string) (timeStamp : Z)
    (message : TailMessage)
| OnTailConnectionUnparsedMessage (accountId scriptId : string) (timeStamp : Z)
    (message : UnparsedMessage) (parseError : JsError)
| OnTailsChanged (tailKeys : list string).

(** The controller and what it acts on: the [records] map in insertion
    order (the keys of a map are distinct), the calls made on the
    callbacks, oldest first, the arguments of the calls of [createTail],
    and how often the clock was read.  A call of [setTails] is modelled as
    running to its end with nothing in between. *)
Record TailController : Type := {
  records : list TailRecord.t;
  called : list Callback;
  created : list (string * string * string);
  clockReads : nat;
}.

Definition newTailController : TailController :=
  {| records := []; called := []; created := []; clockReads := O |}.

(** [this.records.get(tailKey)] *)
Definition getRecord (tailKey : string) (records : list TailRecord.t)
  : option TailRecord.t :=
  List.find (fun r => String.eqb (TailRecord.tailKey r) tailKey) records.

(** An assignment to a field of the record that [get] finds. *)
Fixpoint updateRecord (tailKey : string) (f : TailRecord.t -> TailRecord.t)
    (records : list TailRecord.t) : list TailRecord.t :=
  match records with
  | r :: rest =>
      if String.eqb (TailRecord.tailKey r) tailKey then f r :: rest
      else r :: updateRecord tailKey f rest
  | [] => []
  end.

Definition setState (state : TailState) (r : TailRecord.t) : TailRecord.t :=
  TailRecord.mk (TailRecord.tailKey r) state (TailRecord.connection r).

Definition isStarted (r : TailRecord.t) : bool :=
  bool_decide (TailRecord.state r = started).

Definition emit (c : Callback) (self : TailController) : TailController :=
  {| records := records self; called := called self ++ [c];
     created := created self; clockReads := clockReads self |}.

Definition withRecords (records' : list TailRecord.t) (self : TailController)
  : TailController :=
  {| records := records'; called := called self;
     created := created self; clockReads := clockReads self |}.

(** [Date.now()] *)
Definition dateNow (self : TailController) : Z * TailController :=
  (now (clockReads self),
   {| records := records self; called := called self;
      created := created self; clockReads := S (clockReads self) |}).

(** [dispatchTailsChanged()] *)
Definition dispatchTailsChanged (self : TailController) : TailController :=
  emit (OnTailsChanged (map TailRecord.tailKey (List.filter isStarted (records self)))) self.

(** The body of the first loop of [setTails], for one script. *)
Definition startTail (accountId apiToken scriptId : string) (self : TailController)
  : Completion unit * TailController :=
  let tailKey := computeTailKey accountId scriptId in
  match getRecord tailKey (records self) with
  | Some existingRecord =>
      (Return tt,
       dispatchTailsChanged
         (withRecords (updateRecord tailKey (setState started) (records self)) self))
  | None =>
      let self1 :=
        withRecords (records self ++ [TailRecord.mk tailKey starting None]) self in
      let '(tailCreatingTime, self2) := dateNow self1 in
      let self3 := emit (OnTailCreating accountId scriptId) self2 in
      let self4 :=
        {| records := records self3; called := called self3;
           created := created self3 ++ [(accountId, scriptId, apiToken)];
           clockReads := clockReads self3 |} in
      match createTail (length (created self3)) accountId scriptId apiToken with
      | Throw e => (Throw e, self4)
      | Return tail =>
          let '(createdTime, self5) := dateNow self4 in
          let self6 :=
            emit (OnTailCreated accountId scriptId (createdTime - tailCreatingTime) tail)
              self5 in
          let '(openingTime, self7) := dateNow self6 in
          let connection :=
            {| cnUrl := tailUrl tail; cnAccountId := accountId; cnScriptId := scriptId;
               cnOpeningTime := openingTime; cnRecord := tailKey |} in
          (Return tt,
           dispatchTailsChanged
             (withRecords
                (updateRecord tailKey
                   (fun r => TailRecord.mk (TailRecord.tailKey r) started (Some connection))
                   (records self7))
                self7))
      end
  end.

(** The first loop: [stopKeys] loses the key of every script it meets. *)
Fixpoint startTails (accountId apiToken : string) (scriptIds : list string)
    (stopKeys : list string) (self : TailController)
  : Completion (list string) * TailController :=
  match scriptIds with
  | [] => (Return stopKeys, self)
  | scriptId :: rest =>
      let stopKeys' :=
        List.filter (fun k => negb (String.eqb k (computeTailKey accountId scriptId)))
          stopKeys in
      match startTail accountId apiToken scriptId self with
      | (Throw e, self') => (Throw e, self')
      | (Return _, self') => startTails accountId apiToken rest stopKeys' self'
      end
  end.

(** The second loop. *)
Fixpoint stopTails (stopKeys : list string) (self : TailController) : TailController :=
  match stopKeys with
  | [] => self
  | stopKey :: rest =>
      stopTails rest
        (dispatchTailsChanged
           (withRecords (updateRecord stopKey (setState stopping) (records self)) self))
  end.

(** [setTails(accountId, apiToken, scriptIds)]; the set of script
    identifiers is given in the order of its enumeration. *)
Definition setTails (accountId apiToken : string) (scriptIds : list string)
    (self : TailController) : Completion unit * TailController :=
  let stopKeys := map TailRecord.tailKey (records self) in
  match startTails accountId apiToken scriptIds stopKeys self with
  | (Throw e, self') => (Throw e, self')
  | (Return stopKeys', self') => (Return tt, stopTails stopKeys' self')
  end.

(** What a connection reports, and the callbacks that [setTails] gave it. *)
Inductive ConnectionEvent : Type :=
| Opened (timeStamp : Z)
| Closed (timeStamp code : Z) (reason : string) (wasClean : bool)
| Errored (timeStamp : Z) (errorInfo : option ErrorInfo)
| GotTailMessage (timeStamp : Z) (message : TailMessage)
| GotUnparsedMessage (timeStamp : Z) (message : UnparsedMessage) (parseError : JsError).

Definition connectionCallback (cn : TailConnection) (event : ConnectionEvent)
    (self : TailController) : TailController :=
  let accountId := cnAccountId cn in
  let scriptId := cnScriptId cn in
  match event with
  | Opened timeStamp =>
      let '(openedTime, self1) := dateNow self in
      emit (OnTailConnectionOpen accountId scriptId timeStamp
              (openedTime - cnOpeningTime cn)) self1
  | Closed timeStamp code reason wasClean =>
      emit (OnTailConnectionClose accountId scriptId timeStamp code reason wasClean) self
  | Errored timeStamp errorInfo =>
      emit (OnTailConnectionError accountId scriptId timeStamp errorInfo) self
  | GotTailMessage timeStamp message =>
      match getRecord (cnRecord cn) (records self) with
      | Some record =>
          if isStarted record
          then emit (OnTailConnectionMessage accountId scriptId timeStamp message) self
          else self
      | None => self
      end
  | GotUnparsedMessage timeStamp message parseError =>
      emit (OnTailConnectionUnparsedMessage accountId scriptId timeStamp message
              parseError) self
  end.

End TailControllerModel.

Arguments OnTailCreating {Tail TailMessage ErrorInfo UnparsedMessage} _ _.
Arguments OnTailCreated {Tail TailMessage ErrorInfo UnparsedMessage} _ _ _ _.
Arguments OnTailConnectionOpen {Tail TailMessage ErrorInfo UnparsedMessage} _ _ _ _.
Arguments OnTailConnectionClose {Tail TailMessage ErrorInfo UnparsedMessage} _ _ _ _ _ _.
Arguments OnTailConnectionError {Tail TailMessage ErrorInfo UnparsedMessage} _ _ _ _.
Arguments OnTailConnectionMessage {Tail TailMessage ErrorInfo UnparsedMessage} _ _ _ _.
Arguments OnTailConnectionUnparsedMessage
  {Tail TailMessage ErrorInfo UnparsedMessage} _ _ _ _ _.
Arguments OnTailsChanged {Tail TailMessage ErrorInfo UnparsedMessage} _.
Arguments Opened {TailMessage ErrorInfo UnparsedMessage} _.
Arguments Closed {TailMessage ErrorInfo UnparsedMessage} _ _ _ _.
Arguments Errored {TailMessage ErrorInfo UnparsedMessage} _ _.
Arguments GotTailMessage {TailMessage ErrorInfo UnparsedMessage} _ _.
Arguments GotUnparsedMessage {TailMessage ErrorInfo UnparsedMessage} _ _ _.
Arguments records {Tail TailMessage ErrorInfo UnparsedMessage} _.
Arguments called {Tail TailMessage ErrorInfo UnparsedMessage} _.
Arguments created {Tail TailMessage ErrorInfo UnparsedMessage} _.
Arguments clockReads {Tail TailMessage ErrorInfo UnparsedMessage} _.
Arguments newTailController {Tail TailMessage ErrorInfo UnparsedMessage}.
Arguments emit {Tail TailMessage ErrorInfo UnparsedMessage} _ _.
Arguments withRecords {Tail TailMessage ErrorInfo UnparsedMessage} _ _.
Arguments dateNow {Tail TailMessage ErrorInfo UnparsedMessage} _ _.
Arguments dispatchTailsChanged {Tail TailMessage ErrorInfo UnparsedMessage} _.
Arguments startTail {Tail TailMessage ErrorInfo UnparsedMessage} _ _ _ _ _ _ _.
Arguments startTails {Tail TailMessage ErrorInfo UnparsedMessage} _ _ _ _ _ _ _ _.
Arguments stopTails {Tail TailMessage ErrorInfo UnparsedMessage} _ _.
Arguments setTails {Tail TailMessage ErrorInfo UnparsedMessage} _ _ _ _ _ _ _.
Arguments connectionCallback {Tail TailMessage ErrorInfo UnparsedMessage} _ _ _ _.

(** The keys of the scripts of an account. *)
Definition tailKeys (accountId : string) (scriptIds : list string) : list string :=
  map (computeTailKey accountId) scriptIds.

(** The scripts, among [scriptIds] in their order, whose key is not among
    the [known] keys when their turn comes. *)
Fixpoint newScripts (accountId : string) (scriptIds : list string) (known : list string)
  : list string :=
  match scriptIds with
  | [] => []
  | scriptId :: rest =>
      if bool_decide (computeTailKey accountId scriptId ∈ known)
      then newScripts accountId rest known
      else scriptId :: newScripts accountId rest (known ++ [computeTailKey accountId scriptId])
  end.

(** The state of a record once its tail is stopped. *)
Definition stopped (state : option TailState) : option TailState :=
  match state with Some _ => Some stopping | None => None end.

(** What one successful turn of the first loop of [setTails] does, for the
    script with the key [key], [entry] being the arguments of the call of
    [createTail] that the turn makes when the key is new. *)
Record Turn {Tail TailMessage ErrorInfo UnparsedMessage : Type}
    (key : string) (entry : string * string * string)
    (self self' : TailController Tail TailMessage ErrorInfo UnparsedMessage) : Prop := {
  turn_state : forall k,
      stateOf k (records self')
      = if String.eqb k key then Some started else stateOf k (records self);
  turn_connection : forall k,
      is_Some (findRecord k (records self)) ->
      connectionOf k (records self') = connectionOf k (records self);
  turn_keys :
      map TailRecord.tailKey (records self')
      = map TailRecord.tailKey (records self)
        ++ match findRecord key (records self) with Some _ => [] | None => [key] end;
  turn_created :
      created self'
      = created self
        ++ match findRecord key (records self) with Some _ => [] | None => [entry] end;
  turn_dispatched :
      last (called self')
      = Some (OnTailsChanged
                (map TailRecord.tailKey (List.filter isStarted (records self'))));
}.

(* ===================================================================== *)
(** ** The checks of a site configuration: [checkSiteConfig] *)
(* ===================================================================== *)

(** A value of type [any], as the checks tell values apart: [undefined],
    [null], a string (of code units below 256, as for tail keys), a plain
    object with its own properties, or anything else (a number, a boolean,
    an array, ...), kept as the text a template literal shows for it and
    whether it is truthy. *)
Inductive JsValue : Type :=
| JsUndefined
| JsNull
| JsString (text : string)
| JsObject (properties : list (string * JsValue))
| JsOther (shown : string) (truthy : bool).

(** [`${value}`] *)
Definition show (value : JsValue) : string :=
  match value with
  | JsUndefined => "undefined"
  | JsNull => "null"
  | JsString text => text
  | JsObject _ => "[object Object]"
  | JsOther shown _ => shown
  end.

(** The value as a condition. *)
Definition truthy (value : JsValue) : bool :=
  match value with
  | JsUndefined | JsNull => false
  | JsString text => nonEmpty text
  | JsObject _ => true
  | JsOther _ t => t
  end.

(** [value.name], for a value that is not [undefined] or [null]. *)
Definition property (name : string) (value : JsValue) : JsValue :=
  match value with
  | JsObject properties =>
      match List.find (fun p => String.eqb (fst p) name) properties with
      | Some p => snd p
      | None => JsUndefined
      end
  | _ => JsUndefined
  end.

(** [const { ... } = value]: a [TypeError] for [undefined] and [null]. *)
Definition destructure (value : JsValue) : Completion unit :=
  match value with
  | JsUndefined | JsNull => Throw TypeError
  | _ => Return tt
  end.

Definition bad (name : string) (value : JsValue) : JsError :=
  Error ("Bad " +:+ name +:+ ": " +:+ show value).

(** [[\w]], [[a-fA-F0-9]] *)
Definition isWordChar (c : ascii) : bool :=
  let n := N_of_ascii c in
  ((48 <=? n) && (n <=? 57) || (65 <=? n) && (n <=? 90)
   || (97 <=? n) && (n <=? 122) || (n =? 95))%N.
Definition isHexDigit (c : ascii) : bool :=
  let n := N_of_ascii c in
  ((48 <=? n) && (n <=? 57) || (65 <=? n) && (n <=? 70) || (97 <=? n) && (n <=? 102))%N.

(** What a greedy [[\w]+] can take at the start of a string, and what
    follows it. *)
Fixpoint takeWord (s : string) : string * string :=
  match s with
  | String c rest =>
      if isWordChar c
      then let '(run, after) := takeWord rest in (String c run, after)
      else (EmptyString, s)
  | EmptyString => (EmptyString, EmptyString)
  end.

(** [/^#[a-fA-F0-9]{6}$/.test(s)] *)
Definition matchesThemeColor (s : string) : bool :=
  match s with
  | String c digits =>
      Ascii.eqb c "#" && Nat.eqb (String.length digits) 6 && allChars isHexDigit digits
  | EmptyString => false
  end.

(** [/^[\w]+\/[\w]+$/.test(s)]: the first group stops at the first
    character that is not of a word, which must be the slash. *)
Definition matchesRepo (s : string) : bool :=
  let '(owner, after) := takeWord s in
  match after with
  | String c name =>
      nonEmpty owner && Ascii.eqb c "/" && nonEmpty name && allChars isWordChar name
  | EmptyString => false
  end.

(** [/^@\w+/.test(s)] *)
Definition matchesTwitterUsername (s : string) : bool :=
  match s with
  | String c (String first _) => Ascii.eqb c "@" && isWordChar first
  | _ => false
  end.

Definition checkNotBlankString (name : string) (value : JsValue) : Completion bool :=
  match value with
  | JsString (String _ _) => Return true
  | _ => Throw (bad name value)
  end.

Definition checkThemeColor (name : string) (value : JsValue) : Completion bool :=
  match value with
  | JsUndefined => Return true
  | JsString text => if matchesThemeColor text then Return true else Throw (bad name value)
  | _ => Throw (bad name value)
  end.

Definition checkRepo (name : string) (value : JsValue) : Completion bool :=
  match value with
  | JsUndefined => Return true
  | JsString text => if matchesRepo text then Return true else Throw (bad name value)
  | _ => Throw (bad name value)
  end.

Definition checkTwitterUsername (name : string) (value : JsValue) : Completion bool :=
  match value with
  | JsUndefined => Return true
  | JsString text =>
      if matchesTwitterUsername text then Return true else Throw (bad name value)
  | _ => Throw (bad name value)
  end.

(** [if (value !== undefined) checkNotBlankString(name, value)] *)
Definition checkOptionalString (name : string) (value : JsValue) : Completion bool :=
  match value with
  | JsUndefined => Return true
  | _ => checkNotBlankString name value
  end.

(** [SiteMetadata] and [SiteConfig], as the checks return them. *)
Record SiteMetadata : Type := {
  title : JsValue;
  description : JsValue;
  twitterUsername : JsValue;
  image : JsValue;
  origin : JsValue;
}.

Record SiteConfig : Type := {
  organization : JsValue;
  organizationSuffix : JsValue;
  organizationSvg : JsValue;
  organizationUrl : JsValue;
  product : JsValue;
  productRepo : JsValue;
  productSvg : JsValue;
  contentRepo : JsValue;
  themeColor : JsValue;
  themeColorDark : JsValue;
  siteMetadata : JsValue;
}.

Section SiteConfig.

(** The platform's [URL] and the function [checkObject] of a module that is
    not among the sources: [parseUrl s] is [new URL(s)] as its [toString()]
    and its [origin], or [None] when the constructor throws. *)
Variable parseUrl : string -> option (string * string).
Variable checkObject : string -> JsValue -> Completion unit.

Definition checkOrigin (name : string) (value : JsValue) : Completion bool :=
  match value with
  | JsUndefined => Return true
  | JsString text =>
      match parseUrl text with
      | None => Throw TypeError
      | Some (href, origin) =>
          if String.eqb href (origin +:+ "/") then Return true else Throw (bad name value)
      end
  | _ => Throw (bad name value)
  end.

Definition checkSiteMetadata (siteMetadata : JsValue) : Completion SiteMetadata :=
  destructure siteMetadata;;
  let title := property "title" siteMetadata in
  let description := property "description" siteMetadata in
  let twitterUsername := property "twitterUsername" siteMetadata in
  let image := property "image" siteMetadata in
  let origin := property "origin" siteMetadata in
  checkNotBlankString "title" title;;
  checkNotBlankString "description" description;;
  checkTwitterUsername "twitterUsername" twitterUsername;;
  checkOptionalString "image" image;;
  checkOrigin "origin" origin;;
  Return {| title := title; description := description;
            twitterUsername := twitterUsername; image := image; origin := origin |}.

Definition checkSiteConfig (config : JsValue) : Completion SiteConfig :=
  checkObject "config" config;;
  destructure config;;
  let organization := property "organization" config in
  let organizationSuffix := property "organizationSuffix" config in
  let organizationSvg := property "organizationSvg" config in
  let organizationUrl := property "organizationUrl" config in
  let product := property "product" config in
  let productRepo := property "productRepo" config in
  let productSvg := property "productSvg" config in
  let contentRepo := property "contentRepo" config in
  let themeColor := property "themeColor" config in
  let themeColorDark := property "themeColorDark" config in
  let siteMetadata := property "siteMetadata" config in
  checkOptionalString "organization" organization;;
  checkOptionalString "organizationSuffix" organizationSuffix;;
  checkOptionalString "organizationSvg" organizationSvg;;
  checkOptionalString "organizationUrl" organizationUrl;;
  checkNotBlankString "product" product;;
  checkRepo "productRepo" productRepo;;
  checkOptionalString "productSvg" productSvg;;
  checkRepo "contentRepo" contentRepo;;
  checkThemeColor "themeColor" themeColor;;
  checkThemeColor "themeColorDark" themeColorDark;;
  throwIf (truthy themeColorDark && negb (truthy themeColor))
    "themeColor required when themeColorDark defined";;
  checkSiteMetadata siteMetadata;;
  Return {| organization := organization; organizationSuffix := organizationSuffix;
            organizationSvg := organizationSvg; organizationUrl := organizationUrl;
            product := product; productRepo := productRepo; productSvg := productSvg;
            contentRepo := contentRepo; themeColor := themeColor;
            themeColorDark := themeColorDark; siteMetadata := siteMetadata |}.

End SiteConfig.

(** What the checks let through, said of the values. *)
Definition notBlank (value : JsValue) : Prop :=
  exists text, value = JsString text /\ text <> EmptyString.

Definition isThemeColor (value : JsValue) : Prop :=
  exists digits, value = JsString ("#" +:+ digits) /\
    String.length digits = 6%nat /\ allChars isHexDigit digits = true.

Definition isRepo (value : JsValue) : Prop :=
  exists owner name, value = JsString (owner +:+ "/" +:+ name) /\
    nonEmpty owner = true /\ allChars isWordChar owner = true /\
    nonEmpty name = true /\ allChars isWordChar name = true.

Definition isTwitterUsername (value : JsValue) : Prop :=
  exists first rest, value = JsString ("@" +:+ String first rest) /\ isWordChar first = true.

Definition isOrigin (parseUrl : string -> option (string * string)) (value : JsValue) : Prop :=
  exists text origin, value = JsString text /\ parseUrl text = Some (origin +:+ "/", origin).

Definition optional (P : JsValue -> Prop) (value : JsValue) : Prop :=
  value = JsUndefined \/ P value.

Definition destructurable (value : JsValue) : Prop :=
  value <> JsUndefined /\ value <> JsNull.

Definition validSiteMetadata (parseUrl : string -> option (string * string))
    (siteMetadata : JsValue) : Prop :=
  destructurable siteMetadata /\
  notBlank (property "title" siteMetadata) /\
  notBlank (property "description" siteMetadata) /\
  optional isTwitterUsername (property "twitterUsername" siteMetadata) /\
  optional notBlank (property "image" siteMetadata) /\
  optional (isOrigin parseUrl) (property "origin" siteMetadata).

Definition validSiteConfig (parseUrl : string -> option (string * string))
    (config : JsValue) : Prop :=
  destructurable config /\
  optional notBlank (property "organization" config) /\
  optional notBlank (property "organizationSuffix" config) /\
  optional notBlank (property "organizationSvg" config) /\
  optional notBlank (property "organizationUrl" config) /\
  notBlank (property "product" config) /\
  optional isRepo (property "productRepo" config) /\
  optional notBlank (property "productSvg" config) /\
  optional isRepo (property "contentRepo" config) /\
  optional isThemeColor (property "themeColor" config) /\
  optional isThemeColor (property "themeColorDark" config) /\
  (property "themeColorDark" config <> JsUndefined ->
   property "themeColor" config <> JsUndefined) /\
  validSiteMetadata parseUrl (property "siteMetadata" config).

(** The object [checkSiteConfig] returns: the properties as they were read. *)
Definition siteConfigOf (config : JsValue) : SiteConfig :=
  {| organization := property "organization" config;
     organizationSuffix := property "organizationSuffix" config;
     organizationSvg := property "organizationSvg" config;
     organizationUrl := property "organizationUrl" config;
     product := property "product" config;
     productRepo := property "productRepo" config;
     productSvg := property "productSvg" config;
     contentRepo := property "contentRepo" config;
     themeColor := property "themeColor" config;
     themeColorDark := property "themeColorDark" config;
     siteMetadata := property "siteMetadata" config |}.

(** More inputs to run the model on. *)

(** A request object with a body of three chunks. *)
Definition uploadRequest : @Request.t ListHeaders ReadableStream :=
  @Request.mk ListHeaders ReadableStream "POST" "https://example.test/upload"
    [("Content-Type", "text/plain")] (Some threeChunks).

(** A peer that answers every [fetch] with status 200 and the url of the
    request as the text of the body. *)
Definition echoFetch (data : PackedRequest.t) (peer : Bodies)
  : Completion PackedResponse.t * Bodies :=
  (Return (PackedResponse.mk 200 [] None (Some (PackedRequest.url data)) None), peer).

(** A world for the tail controller: tails are their urls, [createTail]
    fails for the script [broken], and the clock advances by one at every
    reading. *)
Definition demoCreateTail (n : nat) (accountId scriptId apiToken : string)
  : Completion string :=
  if String.eqb scriptId "broken" then Throw (Error "createTail failed")
  else Return ("wss://tail.test/" +:+ accountId +:+ "/" +:+ scriptId).

Definition demoNow (n : nat) : Z := 1000 + Z.of_nat n.

Definition demoController : TailController string string unit string :=
  newTailController.

Definition demoSetTails (scriptIds : list string)
    (self : TailController string string unit string)
  : Completion unit * TailController string string unit string :=
  setTails (fun url : string => url) demoCreateTail demoNow "acct" "token" scriptIds self.

(** The controller after it was given the scripts [a] and [b], and then
    the script [b] alone. *)
Definition afterAB : TailController string string unit string :=
  snd (demoSetTails ["a"; "b"] demoController).
Definition afterB : TailController string string unit string :=
  snd (demoSetTails ["b"] afterAB).

(** A [URL] constructor that knows two addresses, a [checkObject] that
    lets objects through, and configurations to check with them. *)
Definition demoParseUrl (text : string) : option (string * string) :=
  if String.eqb text "https://denoflare.dev"
  then Some ("https://denoflare.dev/", "https://denoflare.dev")
  else if String.eqb text "https://denoflare.dev/docs"
  then Some ("https://denoflare.dev/docs", "https://denoflare.dev")
  else None.

Definition demoCheckObject (name : string) (value : JsValue) : Completion unit :=
  match value with
  | JsObject _ => Return tt
  | _ => Throw (bad name value)
  end.

Definition demoMetadata : JsValue :=
  JsObject [("title", JsString "Denoflare");
            ("description", JsString "Develop, test, and deploy Workers");
            ("twitterUsername", JsString "@denoflare on twitter");
            ("origin", JsString "https://denoflare.dev")].

Definition demoConfig : JsValue :=
  JsObject [("product", JsString "Denoflare");
            ("productRepo", JsString "skymethod/denoflare");
            ("themeColor", JsString "#1a2B3c");
            ("themeColorDark", JsString "#000000");
            ("siteMetadata", demoMetadata)].

Definition darkOnlyConfig : JsValue :=
  JsObject [("product", JsString "Denoflare");
            ("themeColorDark", JsString "#000000")].

(* ===================================================================== *)
(** * Properties *)
(* ===================================================================== *)

(** ** The registry *)

Lemma computeBodyId_null (self : Bodies) : computeBodyId None self = (None, self).
Proof. reflexivity. Qed.

Lemma computeBodyId_present (stream : ReadableStream) (self : Bodies) :
  computeBodyId (Some stream) self =
  (Some (nextBodyId self),
   {| bodies := <[nextBodyId self := stream]> (bodies self);
      readers := readers self;
      nextBodyId := nextBodyId self + 1 |}).
Proof. reflexivity. Qed.

Lemma readBodyChunk_unknown (self : Bodies) (bodyId : Z) :
  source self bodyId = None ->
  readBodyChunk bodyId self = (Throw (badBodyId bodyId), self).
Proof.
  unfold source, readBodyChunk, openReader, badBodyId.
  destruct (readers self !! bodyId) as [reader|]; [discriminate|].
  destruct (bodies self !! bodyId) as [body|]; [discriminate|].
  reflexivity.
Qed.

(** Whichever way the reader is found, it is a reader over what is left of
    the source. *)
Lemma openReader_source (self : Bodies) (bodyId : Z) (chunks : list Chunk) :
  source self bodyId = Some chunks ->
  exists self1,
    openReader bodyId self = (Return {| remaining := chunks |}, self1) /\
    bodies self1 = bodies self /\
    nextBodyId self1 = nextBodyId self /\
    <[bodyId := {| remaining := chunks |}]> (readers self1)
      = <[bodyId := {| remaining := chunks |}]> (readers self).
Proof.
  unfold source, openReader. intros Hsrc.
  destruct (readers self !! bodyId) as [[cs]|] eqn:Hreader.
  - injection Hsrc as ->. exists self. auto.
  - destruct (bodies self !! bodyId) as [[cs]|] eqn:Hbody; [|discriminate].
    injection Hsrc as ->. eexists. split; [reflexivity|]. simpl.
    repeat split. apply insert_insert_eq.
Qed.

Lemma readBodyChunk_chunk (self : Bodies) (bodyId : Z) (chunk : Chunk) (rest : list Chunk) :
  source self bodyId = Some (chunk :: rest) ->
  readBodyChunk bodyId self =
  (chunkResult chunk,
   {| bodies := bodies self;
      readers := <[bodyId := {| remaining := rest |}]> (readers self);
      nextBodyId := nextBodyId self |}).
Proof.
  intros Hsrc. destruct (openReader_source _ _ _ Hsrc) as (self1 & Hopen & Hb & Hn & Hr).
  unfold readBodyChunk. rewrite Hopen. cbn. unfold chunkResult.
  rewrite Hb, Hn. do 2 f_equal.
  rewrite <- (insert_insert_eq (readers self1) bodyId _ {| remaining := chunk :: rest |}).
  rewrite Hr. apply insert_insert_eq.
Qed.

Lemma readBodyChunk_done (self : Bodies) (bodyId : Z) :
  source self bodyId = Some [] ->
  readBodyChunk bodyId self = (doneResult, released bodyId self).
Proof.
  intros Hsrc. destruct (openReader_source _ _ _ Hsrc) as (self1 & Hopen & Hb & Hn & Hr).
  unfold readBodyChunk. rewrite Hopen. cbn. unfold doneResult, released.
  rewrite Hb, Hn. do 2 f_equal.
  rewrite delete_insert_eq.
  rewrite <- (delete_insert_eq (readers self1) bodyId {| remaining := [] |}), Hr.
  apply delete_insert_eq.
Qed.

Lemma released_source (self : Bodies) (bodyId : Z) :
  source (released bodyId self) bodyId = None.
Proof.
  unfold source, released. cbn. rewrite !lookup_delete_eq. reflexivity.
Qed.

Lemma pulls_drain (chunks : list Chunk) :
  forall (self : Bodies) (bodyId : Z),
    source self bodyId = Some chunks ->
    pulls (S (length chunks)) bodyId self
    = (map chunkResult chunks ++ [doneResult], released bodyId self).
Proof.
  induction chunks as [|chunk rest IH]; intros self bodyId Hsrc.
  - cbn. rewrite (readBodyChunk_done _ _ Hsrc). reflexivity.
  - change (pulls (S (length (chunk :: rest))) bodyId self)
      with (let '(r, self1) := readBodyChunk bodyId self in
            let '(rs, self2) := pulls (S (length rest)) bodyId self1 in
            (r :: rs, self2)).
    rewrite (readBodyChunk_chunk _ _ _ _ Hsrc).
    rewrite IH.
    + cbn. unfold released. cbn. rewrite delete_insert_eq. reflexivity.
    + unfold source. cbn. rewrite lookup_insert_eq. reflexivity.
Qed.

Lemma pulls_unknown (n : nat) (self : Bodies) (bodyId : Z) :
  source self bodyId = None ->
  pulls n bodyId self = (replicate n (Throw (badBodyId bodyId)), self).
Proof.
  intros Hsrc. induction n as [|n IH]; [reflexivity|].
  cbn. rewrite (readBodyChunk_unknown _ _ Hsrc), IH. reflexivity.
Qed.

Lemma readBodyChunk_nextBodyId (bodyId : Z) (self : Bodies) :
  nextBodyId (snd (readBodyChunk bodyId self)) = nextBodyId self.
Proof.
  destruct (source self bodyId) as [[|chunk rest]|] eqn:Hsrc.
  - rewrite (readBodyChunk_done _ _ Hsrc). reflexivity.
  - rewrite (readBodyChunk_chunk _ _ _ _ Hsrc). reflexivity.
  - rewrite (readBodyChunk_unknown _ _ Hsrc). reflexivity.
Qed.

(** A pull never brings a source into being. *)
Lemma readBodyChunk_source_bound (pulled bodyId : Z) (self : Bodies) :
  is_Some (source (snd (readBodyChunk pulled self)) bodyId) ->
  is_Some (source self bodyId).
Proof.
  destruct (source self pulled) as [[|chunk rest]|] eqn:Hsrc.
  - rewrite (readBodyChunk_done _ _ Hsrc). unfold source, released. cbn.
    destruct (decide (pulled = bodyId)) as [->|Hne].
    + rewrite !lookup_delete_eq. cbn. intros []; discriminate.
    + rewrite !lookup_delete_ne by done. done.
  - rewrite (readBodyChunk_chunk _ _ _ _ Hsrc). cbn.
    destruct (decide (pulled = bodyId)) as [->|Hne].
    + intros _. rewrite Hsrc. eauto.
    + unfold source. cbn. rewrite lookup_insert_ne by done. done.
  - rewrite (readBodyChunk_unknown _ _ Hsrc). done.
Qed.

(** A pull leaves the other bodies as they are. *)
Lemma readBodyChunk_frame (pulled bodyId : Z) (self : Bodies) :
  pulled <> bodyId ->
  source (snd (readBodyChunk pulled self)) bodyId = source self bodyId.
Proof.
  intros Hne. destruct (source self pulled) as [[|chunk rest]|] eqn:Hsrc.
  - rewrite (readBodyChunk_done _ _ Hsrc). unfold source, released. cbn.
    rewrite !lookup_delete_ne by done. done.
  - rewrite (readBodyChunk_chunk _ _ _ _ Hsrc). unfold source. cbn.
    rewrite lookup_insert_ne by done. done.
  - rewrite (readBodyChunk_unknown _ _ Hsrc). done.
Qed.

Lemma run_cons (c : BodiesCall) (rest : list BodiesCall) (self : Bodies) :
  run (c :: rest) self =
  (fst (call c self) :: fst (run rest (snd (call c self))),
   snd (run rest (snd (call c self)))).
Proof.
  cbn. destruct (call c self) as [r self1]. cbn.
  destruct (run rest self1) as [rs self2]. reflexivity.
Qed.

Lemma call_readBodyChunk (bodyId : Z) (self : Bodies) :
  call (CallReadBodyChunk bodyId) self
  = (ReadChunk (fst (readBodyChunk bodyId self)), snd (readBodyChunk bodyId self)).
Proof. cbn. destruct (readBodyChunk bodyId self). reflexivity. Qed.

(** The identifiers of a run are the next ones of the counter, in order,
    whatever pulls are made in between. *)
Lemma run_issuedIds (calls : list BodiesCall) :
  forall self : Bodies,
    issuedIds (fst (run calls self))
      = seqZ (nextBodyId self) (Z.of_nat (presentBodies calls)) /\
    nextBodyId (snd (run calls self))
      = nextBodyId self + Z.of_nat (presentBodies calls).
Proof.
  induction calls as [|c rest IH]; intros self.
  - cbn. split; [reflexivity | lia].
  - rewrite run_cons.
    destruct c as [[stream|]|pulled].
    + change (call (CallComputeBodyId (Some stream)) self)
        with (ComputedBodyId (fst (computeBodyId (Some stream) self)),
              snd (computeBodyId (Some stream) self)).
      rewrite computeBodyId_present. cbn [fst snd issuedIds presentBodies].
      destruct (IH {| bodies := <[nextBodyId self := stream]> (bodies self);
                      readers := readers self;
                      nextBodyId := nextBodyId self + 1 |}) as [IHids IHnext].
      cbn [nextBodyId] in IHids, IHnext.
      rewrite IHids, IHnext. split; [|lia].
      rewrite (seqZ_cons (nextBodyId self)) by lia.
      f_equal. f_equal; lia.
    + change (call (CallComputeBodyId None) self) with (ComputedBodyId None, self).
      cbn [fst snd issuedIds presentBodies]. apply IH.
    + rewrite call_readBodyChunk. cbn [fst snd issuedIds presentBodies].
      destruct (IH (snd (readBodyChunk pulled self))) as [IHids IHnext].
      rewrite readBodyChunk_nextBodyId in IHids, IHnext. done.
Qed.

(** A body known to the registry after a run was known before it, or its
    identifier was handed out during the run. *)
Lemma run_source_bound (calls : list BodiesCall) (bodyId : Z) :
  forall self : Bodies,
    is_Some (source (snd (run calls self)) bodyId) ->
    is_Some (source self bodyId) \/ bodyId ∈ issuedIds (fst (run calls self)).
Proof.
  induction calls as [|c rest IH]; intros self.
  - cbn. auto.
  - rewrite run_cons. cbn [fst snd]. intros Hsome.
    destruct c as [[stream|]|pulled].
    + change (call (CallComputeBodyId (Some stream)) self)
        with (ComputedBodyId (fst (computeBodyId (Some stream) self)),
              snd (computeBodyId (Some stream) self)) in *.
      rewrite computeBodyId_present in *. cbn [fst snd issuedIds] in *.
      destruct (decide (bodyId = nextBodyId self)) as [->|Hne]; [right; left|].
      destruct (IH _ Hsome) as [Hbefore|Hissued]; [left|right; right; exact Hissued].
      revert Hbefore. unfold source. cbn.
      rewrite lookup_insert_ne by done. done.
    + change (call (CallComputeBodyId None) self) with (ComputedBodyId None, self) in *.
      cbn [fst snd issuedIds] in *. apply IH, Hsome.
    + rewrite call_readBodyChunk in *. cbn [fst snd issuedIds] in *.
      destruct (IH _ Hsome) as [Hbefore|Hissued]; [left|right; exact Hissued].
      apply (readBodyChunk_source_bound pulled), Hbefore.
Qed.

(** In any run, the pulls of a body that was registered before the run
    return what the life of a body reference prescribes, however the pulls
    and registrations of other bodies are interleaved with them. *)
Lemma run_readResults (bodyId : Z) (calls : list BodiesCall) :
  forall self : Bodies,
    bodyId < nextBodyId self ->
    readResults bodyId calls (fst (run calls self))
    = expectedPulls bodyId (source self bodyId) (readCount bodyId calls).
Proof.
  induction calls as [|c rest IH]; intros self Hbelow; [reflexivity|].
  rewrite run_cons. cbn [fst].
  destruct c as [[stream|]|pulled].
  - change (call (CallComputeBodyId (Some stream)) self)
      with (ComputedBodyId (fst (computeBodyId (Some stream) self)),
            snd (computeBodyId (Some stream) self)).
    rewrite computeBodyId_present. cbn [fst snd readResults readCount].
    rewrite IH by (cbn; lia). f_equal.
    unfold source. cbn. rewrite lookup_insert_ne by lia. reflexivity.
  - change (call (CallComputeBodyId None) self) with (ComputedBodyId None, self).
    cbn [fst snd readResults readCount]. apply IH, Hbelow.
  - rewrite call_readBodyChunk. cbn [fst snd readResults readCount].
    case_bool_decide as Hpulled.
    + subst pulled.
      rewrite IH by (rewrite readBodyChunk_nextBodyId; exact Hbelow).
      destruct (source self bodyId) as [[|chunk left]|] eqn:Hsrc; cbn [expectedPulls].
      * rewrite (readBodyChunk_done _ _ Hsrc). cbn [fst snd].
        rewrite released_source. reflexivity.
      * rewrite (readBodyChunk_chunk _ _ _ _ Hsrc). cbn [fst snd].
        f_equal. f_equal. unfold source. cbn. rewrite lookup_insert_eq. reflexivity.
      * rewrite (readBodyChunk_unknown _ _ Hsrc). cbn [fst snd].
        rewrite Hsrc. reflexivity.
    + rewrite IH by (rewrite readBodyChunk_nextBodyId; exact Hbelow).
      rewrite readBodyChunk_frame by exact Hpulled. reflexivity.
Qed.

Lemma expectedPulls_released (bodyId : Z) (n : nat) :
  expectedPulls bodyId None n = replicate n (Throw (badBodyId bodyId)).
Proof. induction n as [|n IH]; [reflexivity|]. cbn. rewrite IH. reflexivity. Qed.

(** Pulled often enough, a body gives all its chunks, then the end, then
    errors. *)
Lemma expectedPulls_drain (bodyId : Z) (chunks : list Chunk) (n : nat) :
  expectedPulls bodyId (Some chunks) (S (length chunks) + n)
  = map chunkResult chunks ++ doneResult :: replicate n (Throw (badBodyId bodyId)).
Proof.
  induction chunks as [|chunk rest IH].
  - cbn. rewrite expectedPulls_released. reflexivity.
  - change (expectedPulls bodyId (Some (chunk :: rest)) (S (length (chunk :: rest)) + n))
      with (chunkResult chunk :: expectedPulls bodyId (Some rest) (S (length rest) + n)).
    rewrite IH. reflexivity.
Qed.

Lemma issuedIds_below (calls : list BodiesCall) (bodyId : Z) :
  bodyId ∈ issuedIds (fst (run calls newBodies)) ->
  bodyId < nextBodyId (snd (run calls newBodies)).
Proof.
  destruct (run_issuedIds calls newBodies) as [-> ->].
  rewrite elem_of_seqZ. cbn [nextBodyId newBodies]. lia.
Qed.

Lemma newBodies_source (bodyId : Z) : source newBodies bodyId = None.
Proof. reflexivity. Qed.

(** C3: [computeBodyId] returns no identifier for a [null] body and leaves
    the registry as it is; for a present body it returns the counter and
    advances it by one, so that the identifiers of any run of a fresh
    registry are 1, 2, 3, ... in the order of the calls, with no
    identifier twice, also when bodies are pulled to their end (and so
    released) in between. *)
Theorem computeBodyId_sequence :
  (forall self : Bodies, computeBodyId None self = (None, self)) /\
  (forall (stream : ReadableStream) (self : Bodies),
      fst (computeBodyId (Some stream) self) = Some (nextBodyId self) /\
      nextBodyId (snd (computeBodyId (Some stream) self)) = nextBodyId self + 1 /\
      bodies (snd (computeBodyId (Some stream) self)) !! nextBodyId self = Some stream) /\
  (forall calls : list BodiesCall,
      issuedIds (fst (run calls newBodies))
        = seqZ 1 (Z.of_nat (presentBodies calls)) /\
      NoDup (issuedIds (fst (run calls newBodies)))).
Proof.
  split; [|split].
  - intros self. reflexivity.
  - intros stream self. cbn. rewrite lookup_insert_eq. done.
  - intros calls. destruct (run_issuedIds calls newBodies) as [Hids _].
    cbn [nextBodyId newBodies] in Hids. rewrite Hids. split; [done|].
    apply NoDup_seqZ.
Qed.

(** C2: pulling the body behind an identifier, cached reader or not, gives
    the chunks the source has left in their order, then a result with
    [done], each pull being one [read] of the reader; the pull with [done]
    removes the reader and the body, every later pull throws [Bad bodyId],
    and so does a pull of an identifier that no call handed out.  The same
    holds in any run that interleaves the pulls of a registered body with
    registrations and with pulls of other bodies. *)
Theorem readBodyChunk_drains_in_order :
  (forall (self : Bodies) (bodyId : Z) (chunks : list Chunk),
      source self bodyId = Some chunks ->
      pulls (S (length chunks)) bodyId self
        = (map chunkResult chunks ++ [doneResult], released bodyId self) /\
      readers (released bodyId self) !! bodyId = None /\
      bodies (released bodyId self) !! bodyId = None /\
      forall n : nat,
        pulls n bodyId (released bodyId self)
          = (replicate n (Throw (badBodyId bodyId)), released bodyId self)) /\
  (forall (self : Bodies) (bodyId : Z) (chunks : list Chunk),
      source self bodyId = Some chunks ->
      fst (readBodyChunk bodyId self) = Return (fst (read {| remaining := chunks |})) /\
      source (snd (readBodyChunk bodyId self)) bodyId
        = if ReadResult.done (fst (read {| remaining := chunks |})) then None
          else Some (remaining (snd (read {| remaining := chunks |})))) /\
  (forall (before after : list BodiesCall) (bodyId : Z),
      bodyId ∈ issuedIds (fst (run before newBodies)) ->
      readResults bodyId after (fst (run after (snd (run before newBodies))))
        = expectedPulls bodyId (source (snd (run before newBodies)) bodyId)
            (readCount bodyId after)) /\
  (forall (calls : list BodiesCall) (bodyId : Z),
      bodyId ∉ issuedIds (fst (run calls newBodies)) ->
      readBodyChunk bodyId (snd (run calls newBodies))
        = (Throw (badBodyId bodyId), snd (run calls newBodies))).
Proof.
  split; [|split; [|split]].
  - intros self bodyId chunks Hsrc. split; [exact (pulls_drain _ _ _ Hsrc)|].
    split; [apply lookup_delete_eq|]. split; [apply lookup_delete_eq|].
    intros n. apply pulls_unknown, released_source.
  - intros self bodyId [|chunk rest] Hsrc.
    + rewrite (readBodyChunk_done _ _ Hsrc). cbn. split; [done|].
      apply released_source.
    + rewrite (readBodyChunk_chunk _ _ _ _ Hsrc). cbn. split; [done|].
      unfold source. cbn. rewrite lookup_insert_eq. done.
  - intros before after bodyId Hissued.
    apply run_readResults, issuedIds_below, Hissued.
  - intros calls bodyId Hfresh. apply readBodyChunk_unknown.
    destruct (source (snd (run calls newBodies)) bodyId) as [chunks|] eqn:Hsrc; [|done].
    destruct (run_source_bound calls bodyId newBodies) as [[? Hnew]|Hin].
    + rewrite Hsrc. eauto.
    + rewrite newBodies_source in Hnew. discriminate.
    + contradiction.
Qed.

(** ** The wire codec *)

Lemma parseInt_minus_one : parseInt "-1" = Some (-1).
Proof. reflexivity. Qed.

Lemma parseInt_empty : parseInt "" = None.
Proof. reflexivity. Qed.

Section CodecProperties.
Context `{HeadersApi}.
Variable threshold : Z.

Local Arguments parseInt : simpl never.

(** The test of [packResponse] holds exactly for a declared content length
    between 0 and the threshold. *)
Lemma inline_test_spec (headers : Headers) :
  numGt (contentLength headers) (-1) && numLe (contentLength headers) threshold = true
  <-> exists n, declaredContentLength headers = Some n /\ 0 <= n <= threshold.
Proof.
  unfold contentLength, declaredContentLength.
  destruct (headersGet headers "content-length") as [[|c text]|]; cbn.
  - rewrite parseInt_minus_one, parseInt_empty. cbn. split; [discriminate|].
    intros (n & Hn & _). discriminate.
  - destruct (parseInt (String c text)) as [v|]; cbn.
    + rewrite andb_true_iff, Z.ltb_lt, Z.leb_le. split.
      * intros [? ?]. exists v. split; [done|lia].
      * intros (n & [= <-] & ?). lia.
    + split; [discriminate|]. intros (n & Hn & _). discriminate.
  - rewrite parseInt_minus_one. cbn. split; [discriminate|].
    intros (n & Hn & _). discriminate.
Qed.

Lemma packResponse_inline (status : Z) (headers : Headers)
    (body : option ReadableStream) (bodies : Bodies) :
  numGt (contentLength headers) (-1) && numLe (contentLength headers) threshold = true ->
  packResponse threshold (PlatformResponse status headers body) bodies
  = (Return (PackedResponse.mk status (headersEntries headers) None None
               (Some (arrayBuffer body))), bodies).
Proof. intros Htest. cbn. rewrite Htest. reflexivity. Qed.

Lemma packResponse_reference (status : Z) (headers : Headers)
    (body : option ReadableStream) (bodies : Bodies) :
  numGt (contentLength headers) (-1) && numLe (contentLength headers) threshold = false ->
  packResponse threshold (PlatformResponse status headers body) bodies
  = (Return (PackedResponse.mk status (headersEntries headers)
               (fst (computeBodyId body bodies)) None None),
     snd (computeBodyId body bodies)).
Proof.
  intros Htest. cbn. rewrite Htest.
  destruct (computeBodyId body bodies). reflexivity.
Qed.

Lemma not_inline_test (headers : Headers) :
  (declaredContentLength headers = None \/
   exists n, declaredContentLength headers = Some n /\ (n < 0 \/ threshold < n)) ->
  numGt (contentLength headers) (-1) && numLe (contentLength headers) threshold = false.
Proof.
  intros Hdecl. apply not_true_is_false. rewrite inline_test_spec.
  intros (n & Hn & Hrange). destruct Hdecl as [Hnone|(m & Hm & Hout)]; [congruence|].
  assert (m = n) by congruence. lia.
Qed.

(** C1, amended: a [DenoflareResponse] made from a string is packed with
    that string as [bodyText], whatever its length, and the registry is not
    touched; one made from a stream is packed with the next body
    identifier, under which the stream is registered; a response of the
    platform whose declared content length is between 0 and the threshold
    is packed with its whole body as [bodyBytes] and no reference; and one
    whose content length is absent, not a number, negative or above the
    threshold is packed with no [bodyBytes] and with what [computeBodyId]
    answers for its body: the next identifier when the body is a stream, no
    identifier when the body is [null]. *)
Theorem packResponse_body_placement :
  (forall status headers text bodies,
      packResponse threshold (DenoflareResponse status headers (BodyString text)) bodies
      = (Return (PackedResponse.mk status (headersEntries headers) None (Some text) None),
         bodies)) /\
  (forall status headers stream bodies,
      packResponse threshold (DenoflareResponse status headers (BodyStream stream)) bodies
      = (Return (PackedResponse.mk status (headersEntries headers)
                   (Some (nextBodyId bodies)) None None),
         snd (computeBodyId (Some stream) bodies))) /\
  (forall status headers body bodies n,
      declaredContentLength headers = Some n -> 0 <= n <= threshold ->
      packResponse threshold (PlatformResponse status headers body) bodies
      = (Return (PackedResponse.mk status (headersEntries headers) None None
                   (Some (arrayBuffer body))),
         bodies)) /\
  (forall status headers body bodies,
      (declaredContentLength headers = None \/
       exists n, declaredContentLength headers = Some n /\ (n < 0 \/ threshold < n)) ->
      exists packed bodies',
        packResponse threshold (PlatformResponse status headers body) bodies
        = (Return packed, bodies') /\
        PackedResponse.bodyBytes packed = None /\
        PackedResponse.bodyText packed = None /\
        PackedResponse.bodyId packed = (if defined body then Some (nextBodyId bodies) else None) /\
        (computeBodyId body bodies = (PackedResponse.bodyId packed, bodies'))).
Proof.
  repeat split.
  - intros status headers body bodies n Hdecl Hrange.
    apply packResponse_inline, inline_test_spec. eauto.
  - intros status headers body bodies Hdecl.
    rewrite (packResponse_reference _ _ _ _ (not_inline_test _ Hdecl)).
    do 2 eexists. split; [reflexivity|]. cbn.
    repeat split; destruct body; reflexivity.
Qed.

(** C4: in every packed response that [packResponse] produces, at most one
    of [bodyId], [bodyText] and [bodyBytes] is set, and when none is set the
    response is one of the platform whose body is [null]. *)
Theorem packResponse_at_most_one_body_field
    (response : Response) (bodies bodies' : Bodies) (packed : PackedResponse.t) :
  packResponse threshold response bodies = (Return packed, bodies') ->
  (setBodyFields packed <= 1)%nat /\
  (setBodyFields packed = 0%nat ->
   exists status headers, response = PlatformResponse status headers None).
Proof.
  destruct response as [status headers [text|stream|shown]|status headers body].
  - intros [= <- <-]. cbn. split; [lia|discriminate].
  - intros [= <- <-]. cbn. split; [lia|discriminate].
  - discriminate.
  - destruct (numGt (contentLength headers) (-1)
              && numLe (contentLength headers) threshold) eqn:Htest.
    + rewrite (packResponse_inline _ _ _ _ Htest). intros [= <- <-]. cbn.
      split; [lia|discriminate].
    + rewrite (packResponse_reference _ _ _ _ Htest). intros [= <- <-].
      destruct body as [stream|]; cbn.
      * split; [lia|discriminate].
      * split; [lia|]. eauto.
Qed.

(** C10, amended: a response of the platform whose body is [null] is
    packed without an error and the registry is left as it was.  When the
    content-length header is absent or empty, or [parseInt] reads no number
    from it, or reads one that is negative or above the threshold, the
    packed response has [bodyId], [bodyText] and [bodyBytes] all unset.
    When [parseInt] reads a number between 0 and the threshold from it,
    which it also does from a text that only starts with digits, the
    response is packed inline: [bodyBytes] is set, to the empty buffer. *)
Theorem packResponse_null_body_all_unset
    (status : Z) (headers : Headers) (bodies : Bodies) :
  ((headersGet headers "content-length" = None \/
    exists text,
      headersGet headers "content-length" = Some text /\
      (text = EmptyString \/ parseInt text = None \/
       exists n, parseInt text = Some n /\ (n < 0 \/ threshold < n))) ->
   packResponse threshold (PlatformResponse status headers None) bodies
   = (Return (PackedResponse.mk status (headersEntries headers) None None None), bodies)) /\
  (forall text n,
      headersGet headers "content-length" = Some text ->
      parseInt text = Some n -> 0 <= n <= threshold ->
      packResponse threshold (PlatformResponse status headers None) bodies
      = (Return (PackedResponse.mk status (headersEntries headers) None None (Some [])),
         bodies)).
Proof.
  split.
  - intros Hlength. rewrite packResponse_reference; [reflexivity|].
    apply not_inline_test. unfold declaredContentLength.
    destruct Hlength as [->|(text & -> & [->|[Hnan|(n & Hn & Hout)]])]; cbn.
    + left. reflexivity.
    + left. exact parseInt_empty.
    + left. exact Hnan.
    + right. exists n. split; [exact Hn|exact Hout].
  - intros text n Hget Hn Hrange. rewrite packResponse_inline; [reflexivity|].
    apply inline_test_spec. exists n. split; [|exact Hrange].
    unfold declaredContentLength. rewrite Hget. exact Hn.
Qed.

End CodecProperties.

Section RequestProperties.
Context `{HeadersApi}.




(** C9: a request object passed with an options bag is not packed: the
    call throws the error of the unsupported shape and leaves the registry
    alone; so a call on a request object that returns a packed request was
    made with no options bag. *)
Theorem packRequest_request_with_init
    (request : Request.t ReadableStream) (bodies : Bodies) :
  (forall init : RequestInit.t,
      packRequest (InfoRequest request) (Some init) bodies
      = (Throw (Error implementMessage), bodies)) /\
  (forall (init : option RequestInit.t) (packed : PackedRequest.t) (bodies' : Bodies),
      packRequest (InfoRequest request) init bodies = (Return packed, bodies') ->
      init = None).
Proof.
  split.
  - intros init. reflexivity.
  - intros [init|] packed bodies' Hpack; [discriminate|reflexivity].
Qed.

(** C8: [unpackResponse] rebuilds the headers from the packed pairs, keeps
    the status, and takes the body from [bodyText] if it is set, else from
    [bodyBytes] if it is set, else from the resolver applied to [bodyId] if
    it is set, else there is no body; the resolver is consulted in the third
    case only. *)
Theorem unpackResponse_body_precedence {S : Type}
    (packed : PackedResponse.t) (bodyResolver : Z -> Completion S) :
  let rebuilt body :=
    NewResponse.mk body (PackedResponse.status packed)
      (newHeaders (PackedResponse.headers packed)) in
  (forall text,
      PackedResponse.bodyText packed = Some text ->
      unpackResponse packed bodyResolver = Return (rebuilt (Some (TextBody text)))) /\
  (forall bytes,
      PackedResponse.bodyText packed = None ->
      PackedResponse.bodyBytes packed = Some bytes ->
      unpackResponse packed bodyResolver = Return (rebuilt (Some (BytesBody bytes)))) /\
  (forall bodyId,
      PackedResponse.bodyText packed = None ->
      PackedResponse.bodyBytes packed = None ->
      PackedResponse.bodyId packed = Some bodyId ->
      unpackResponse packed bodyResolver
      = (stream ← bodyResolver bodyId; Return (rebuilt (Some (StreamBody stream))))) /\
  (PackedResponse.bodyText packed = None ->
   PackedResponse.bodyBytes packed = None ->
   PackedResponse.bodyId packed = None ->
   unpackResponse packed bodyResolver = Return (rebuilt None)).
Proof.
  intros rebuilt. unfold unpackResponse, rebuilt.
  repeat split.
  - intros text ->. reflexivity.
  - intros bytes -> ->. reflexivity.
  - intros bodyId -> -> ->. cbn. destruct (bodyResolver bodyId); reflexivity.
  - intros -> -> ->. reflexivity.
Qed.

Section Roundtrip.

Variable parseUrl : string -> option string.

(** Enumerating a [Headers] object and building one from the pairs gives
    an object with the same enumeration. *)
Hypothesis entries_newHeaders :
  forall headers : Headers,
    headersEntries (newHeaders (headersEntries headers)) = headersEntries headers.




End Roundtrip.

End RequestProperties.

(** ** The body resolver over the RPC channel *)

Section RpcProperties.
Variable Peer : Type.
Variable deliver : string -> Z -> Peer -> Completion ReadResult.t * Peer.
Variable bodyId : Z.

Lemma rpcPull_sent (world : StreamWorld Peer) :
  sent (channel (snd (rpcPull deliver bodyId world)))
  = sent (channel world) ++ [("read-body-chunk", bodyId)].
Proof.
  unfold rpcPull, sendRequest.
  destruct (deliver "read-body-chunk" bodyId (peer (channel world)))
    as [[[[value|] done]|e] peer']; cbn; [| |reflexivity];
    unfold enqueue, close; cbn;
    destruct (closeRequested (controller world)), done; reflexivity.
Qed.

Lemma rpcPull_open (world : StreamWorld Peer) (result : ReadResult.t) (peer' : Peer) :
  closeRequested (controller world) = false ->
  deliver "read-body-chunk" bodyId (peer (channel world)) = (Return result, peer') ->
  rpcPull deliver bodyId world
  = (Return tt,
     {| channel := {| sent := sent (channel world) ++ [("read-body-chunk", bodyId)];
                      peer := peer' |};
        controller := {| queue := queue (controller world) ++ resultChunks result;
                         closeRequested := ReadResult.done result |};
        console := console world |}).
Proof.
  intros Hopen Hreply. unfold rpcPull, sendRequest. rewrite Hreply.
  destruct result as [[value|] done]; unfold enqueue, close, resultChunks; cbn;
    rewrite Hopen; destruct done; cbn; rewrite ?app_nil_r; try reflexivity.
  all: destruct (controller world); cbn in *; subst; reflexivity.
Qed.

Lemma drive_sent (calls : list SourceCall) :
  forall world : StreamWorld Peer,
    sent (channel (snd (drive (makeBodyResolverOverRpc deliver bodyId) calls world)))
    = sent (channel world)
      ++ replicate
           (pullCount (fst (drive (makeBodyResolverOverRpc deliver bodyId) calls world)))
           ("read-body-chunk", bodyId).
Proof.
  induction calls as [|c rest IH]; intros world.
  - cbn. rewrite app_nil_r. reflexivity.
  - cbn [drive]. destruct c as [| |reason]; cbn [sourceCall makeBodyResolverOverRpc start pull cancel].
    + specialize (IH world).
      destruct (drive (makeBodyResolverOverRpc deliver bodyId) rest world) as [ran world2].
      exact IH.
    + pose proof (rpcPull_sent world) as Hsent.
      destruct (rpcPull deliver bodyId world) as [[[]|e] world1]; cbn [snd] in Hsent.
      * specialize (IH world1).
        destruct (drive (makeBodyResolverOverRpc deliver bodyId) rest world1) as [ran world2].
        cbn [fst snd] in *. rewrite IH, Hsent.
        unfold pullCount. cbn. rewrite <- app_assoc. reflexivity.
      * cbn. exact Hsent.
    + specialize (IH (rpcCancel bodyId reason world)).
      destruct (drive (makeBodyResolverOverRpc deliver bodyId) rest
                  (rpcCancel bodyId reason world)) as [ran world2].
      exact IH.
Qed.

End RpcProperties.

(** What the handler of the registry answers. *)
Lemma readBodyChunkHandler_chunk (self : Bodies) (bodyId : Z)
    (chunk : Chunk) (rest : list Chunk) :
  source self bodyId = Some (chunk :: rest) ->
  registryPeer "read-body-chunk" bodyId self
  = (chunkResult chunk,
     {| bodies := bodies self;
        readers := <[bodyId := {| remaining := rest |}]> (readers self);
        nextBodyId := nextBodyId self |}).
Proof.
  intros Hsrc. unfold registryPeer, readBodyChunkHandler. cbn [String.eqb Ascii.eqb].
  change (String.eqb "read-body-chunk" "read-body-chunk") with true. cbn match.
  rewrite (readBodyChunk_chunk _ _ _ _ Hsrc). reflexivity.
Qed.

Lemma readBodyChunkHandler_done (self : Bodies) (bodyId : Z) :
  source self bodyId = Some [] ->
  registryPeer "read-body-chunk" bodyId self = (doneResult, released bodyId self).
Proof.
  intros Hsrc. unfold registryPeer, readBodyChunkHandler.
  change (String.eqb "read-body-chunk" "read-body-chunk") with true. cbn match.
  rewrite (readBodyChunk_done _ _ Hsrc). reflexivity.
Qed.

Lemma readBodyChunkHandler_unknown (self : Bodies) (bodyId : Z) :
  source self bodyId = None ->
  registryPeer "read-body-chunk" bodyId self = (Throw (badBodyId bodyId), self).
Proof.
  intros Hsrc. unfold registryPeer, readBodyChunkHandler.
  change (String.eqb "read-body-chunk" "read-body-chunk") with true. cbn match.
  rewrite (readBodyChunk_unknown _ _ Hsrc). reflexivity.
Qed.

(** The stream of the platform around the source.  Whatever the source
    does, a pull is repeated once at most: the stream pulls again only
    after a pull that gave its chunk to the waiting read and left the queue
    empty, and the pull that follows does not ask for another. *)
Lemma pullOnce_again {Peer : Type} (underlying : UnderlyingSource Peer)
    (s s1 : Stream Peer) (settled : option (Completion ReadResult.t)) :
  pullOnce underlying s = (settled, true, s1) ->
  readWaiting s = true /\
  readWaiting s1 = false /\
  queue (controller (streamWorld s1)) = [] /\
  snd (fst (pullOnce underlying s1)) = false.
Proof.
  unfold pullOnce at 1.
  destruct (pull underlying (streamWorld s)) as [completion world].
  destruct (readWaiting s) eqn:Hwaiting;
    destruct (queue (controller world)) as [|chunk rest] eqn:Hqueue;
    destruct completion as [[]|e]; try discriminate;
    cbn [closeRequested queue];
    destruct (closeRequested (controller world)) eqn:Hclose; cbn [andb];
    repeat case_bool_decide; try discriminate;
    intros [= <- Hagain <-];
    unfold shouldCallPull in Hagain;
    cbn [streamState streamWorld readWaiting withController controller queue
         closeRequested length] in Hagain;
    rewrite ?Hqueue, ?Hclose in Hagain; cbn in Hagain;
    try (rewrite andb_false_r in Hagain); try discriminate Hagain.
  destruct rest as [|chunk' rest]; [|rewrite andb_false_r in Hagain; discriminate].
  split; [reflexivity|]. split; [reflexivity|]. split; [reflexivity|].
  unfold pullOnce.
  cbn [streamWorld readWaiting withController controller queue length].
  destruct (pull underlying _) as [completion2 world2].
  destruct completion2 as [[]|e]; [|reflexivity].
  destruct (closeRequested (controller world2)) eqn:Hclose2; cbn [andb].
  - case_bool_decide as Hempty; [reflexivity|].
    unfold shouldCallPull. cbn. rewrite Hclose2. apply andb_false_r.
  - unfold shouldCallPull. cbn. rewrite Hclose2. cbn.
    destruct (queue (controller world2)); reflexivity.
Qed.

(** Making the stream pulls once, whatever the peer answers. *)
Lemma newReadableStream_sent {Peer : Type}
    (deliver : string -> Z -> Peer -> Completion ReadResult.t * Peer) (bodyId : Z)
    (channel0 : RpcChannel Peer) :
  streamSent (newReadableStream (makeBodyResolverOverRpc deliver bodyId) (newWorld channel0))
  = sent channel0 ++ [("read-body-chunk", bodyId)].
Proof.
  unfold streamSent, newReadableStream, callPullIfNeeded, pullOnce.
  cbn [shouldCallPull streamState streamWorld readWaiting start pull
       makeBodyResolverOverRpc newWorld controller newController closeRequested queue
       negb andb orb length Nat.ltb Nat.leb highWaterMark].
  unfold rpcPull, sendRequest. cbn [channel newWorld controller console].
  destruct (deliver "read-body-chunk" bodyId (peer channel0))
    as [[[[value|] []]|e] peer']; reflexivity.
Qed.

(** With a registry as the peer, a stream that has nothing in its queue and
    is not closing fetches the next chunk of the body, or closes when the
    body has none left. *)
Lemma callPullIfNeeded_registry (bodyId : Z) (chunks : list Chunk)
    (world : StreamWorld Bodies) :
  controller world = {| queue := []; closeRequested := false |} ->
  source (peer (channel world)) bodyId = Some chunks ->
  exists s',
    callPullIfNeeded (makeBodyResolverOverRpc registryPeer bodyId)
      {| streamWorld := world; streamState := StreamReadable; readWaiting := false |}
    = (None, s') /\
    prefetched bodyId chunks s' /\
    streamSent s' = sent (channel world) ++ [("read-body-chunk", bodyId)].
Proof.
  intros Hcontroller Hsrc.
  assert (closeRequested (controller world) = false) as Hopen
    by (rewrite Hcontroller; reflexivity).
  unfold callPullIfNeeded, pullOnce.
  cbn [shouldCallPull streamState streamWorld readWaiting pull makeBodyResolverOverRpc].
  rewrite Hcontroller.
  cbn [closeRequested queue negb andb orb length Nat.ltb Nat.leb highWaterMark].
  destruct chunks as [|chunk rest].
  - rewrite (rpcPull_open _ _ _ _ _ _ Hopen (readBodyChunkHandler_done _ _ Hsrc)).
    rewrite Hcontroller. eexists. split; [reflexivity|].
    split; [split; reflexivity|reflexivity].
  - rewrite (rpcPull_open _ _ _ _ _ _ Hopen (readBodyChunkHandler_chunk _ _ _ _ Hsrc)).
    rewrite Hcontroller. eexists. split; [reflexivity|].
    split; [|reflexivity].
    split; [reflexivity|]. split; [reflexivity|]. split; [reflexivity|].
    cbn. unfold source. cbn. rewrite lookup_insert_eq. reflexivity.
Qed.

Lemma streamRead_registry (bodyId : Z) (chunk : Chunk) (rest : list Chunk)
    (s : Stream Bodies) :
  prefetched bodyId (chunk :: rest) s ->
  exists s',
    streamRead (makeBodyResolverOverRpc registryPeer bodyId) s
    = (Some (chunkResult chunk), s') /\
    prefetched bodyId rest s' /\
    streamSent s' = streamSent s ++ [("read-body-chunk", bodyId)].
Proof.
  destruct s as [world state waiting]. unfold prefetched. cbn.
  intros (-> & -> & Hcontroller & Hsrc).
  unfold streamRead. cbn [streamState readWaiting streamWorld].
  rewrite Hcontroller. cbn [queue closeRequested andb].
  destruct (callPullIfNeeded_registry bodyId rest
              (withController world {| queue := []; closeRequested := false |})
              eq_refl Hsrc) as (s' & Hpull & Hheld & Hsent).
  rewrite Hpull. exists s'. split; [reflexivity|]. split; [exact Hheld|exact Hsent].
Qed.

Lemma streamReads_registry (bodyId : Z) (reads : nat) :
  forall (chunks : list Chunk) (s : Stream Bodies),
    prefetched bodyId chunks s ->
    fst (streamReads (makeBodyResolverOverRpc registryPeer bodyId) reads s)
    = map (fun chunk => Some (chunkResult chunk)) (take reads chunks)
      ++ replicate (reads - length chunks) (Some doneResult) /\
    streamSent (snd (streamReads (makeBodyResolverOverRpc registryPeer bodyId) reads s))
    = streamSent s ++ replicate (min reads (length chunks)) ("read-body-chunk", bodyId).
Proof.
  induction reads as [|reads IH]; intros chunks s Hheld.
  - cbn. rewrite take_0, !app_nil_r. split; reflexivity.
  - destruct chunks as [|chunk rest].
    + destruct s as [world state waiting]. destruct Hheld as [Hwaiting Hstate].
      cbn in Hwaiting, Hstate. subst.
      destruct (IH [] {| streamWorld := world; streamState := StreamClosed;
                         readWaiting := false |}) as [Hresults Hsent];
        [split; reflexivity|].
      cbn [streamReads streamRead streamState].
      destruct (streamReads (makeBodyResolverOverRpc registryPeer bodyId) reads
                  {| streamWorld := world; streamState := StreamClosed;
                     readWaiting := false |}) as [results s2].
      cbn [fst snd] in *. rewrite Hresults, Hsent.
      cbn [length]. rewrite take_nil, Nat.sub_0_r, Nat.min_0_r.
      split; reflexivity.
    + destruct (streamRead_registry _ _ _ _ Hheld) as (s1 & Hread & Hheld1 & Hsent1).
      destruct (IH rest s1 Hheld1) as [Hresults Hsent].
      cbn [streamReads]. rewrite Hread.
      destruct (streamReads (makeBodyResolverOverRpc registryPeer bodyId) reads s1)
        as [results s2].
      cbn [fst snd] in *. rewrite Hresults, Hsent, Hsent1.
      cbn. rewrite <- app_assoc. split; reflexivity.
Qed.

(** C7, amended: for the stream that [makeBodyResolverOverRpc] builds for a
    body identifier, [start] and [cancel] send nothing on the channel and
    every [pull] sends exactly one [read-body-chunk] request for that
    identifier; on a reply the pull enqueues the value if there is one and
    then closes the controller exactly when the reply has [done].  The
    platform calls [pull] once when the stream is made, before any read:
    one remote call goes out then, whatever the peer.  With a registry as
    the peer, every read then returns the next chunk of the body, and the
    end once the chunks are read; and while chunks are left to read, each
    read is followed by one more remote call, so that after [reads] reads
    the calls are one more than the reads, up to one more than the chunks
    of the body. *)
Theorem rpc_stream_one_request_per_pull {Peer : Type}
    (deliver : string -> Z -> Peer -> Completion ReadResult.t * Peer) (bodyId : Z) :
  let underlying := makeBodyResolverOverRpc deliver bodyId in
  (forall world, start underlying world = world) /\
  (forall reason world,
      channel (cancel underlying reason world) = channel world /\
      controller (cancel underlying reason world) = controller world) /\
  (forall world,
      sent (channel (snd (pull underlying world)))
      = sent (channel world) ++ [("read-body-chunk", bodyId)]) /\
  (forall calls world,
      sent (channel (snd (drive underlying calls world)))
      = sent (channel world)
        ++ replicate (pullCount (fst (drive underlying calls world)))
             ("read-body-chunk", bodyId)) /\
  (forall world result peer',
      closeRequested (controller world) = false ->
      deliver "read-body-chunk" bodyId (peer (channel world)) = (Return result, peer') ->
      fst (pull underlying world) = Return tt /\
      queue (controller (snd (pull underlying world)))
        = queue (controller world) ++ resultChunks result /\
      closeRequested (controller (snd (pull underlying world))) = ReadResult.done result) /\
  (forall channel0,
      streamSent (newReadableStream underlying (newWorld channel0))
      = sent channel0 ++ [("read-body-chunk", bodyId)]) /\
  (forall (chunks : list Chunk) (channel0 : RpcChannel Bodies) (reads : nat),
      source (peer channel0) bodyId = Some chunks ->
      let served := makeBodyResolverOverRpc registryPeer bodyId in
      fst (streamReads served reads (newReadableStream served (newWorld channel0)))
      = map (fun chunk => Some (chunkResult chunk)) (take reads chunks)
        ++ replicate (reads - length chunks) (Some doneResult) /\
      streamSent (snd (streamReads served reads (newReadableStream served (newWorld channel0))))
      = sent channel0
        ++ replicate (S (min reads (length chunks))) ("read-body-chunk", bodyId)).
Proof.
  intros underlying. unfold underlying.
  split; [reflexivity|]. split; [intros; split; reflexivity|].
  split; [apply rpcPull_sent|]. split; [intros; apply drive_sent|].
  split; [|split].
  - intros world result peer' Hopen Hreply.
    cbn [pull makeBodyResolverOverRpc]. rewrite (rpcPull_open _ _ _ _ _ _ Hopen Hreply).
    repeat split.
  - apply newReadableStream_sent.
  - intros chunks channel0 reads Hsrc.
    destruct (callPullIfNeeded_registry bodyId chunks (newWorld channel0) eq_refl Hsrc)
      as (s0 & Hmade & Hheld & Hsent0).
    assert (newReadableStream (makeBodyResolverOverRpc registryPeer bodyId)
              (newWorld channel0) = s0) as ->
      by (unfold newReadableStream; cbn [start makeBodyResolverOverRpc];
          rewrite Hmade; reflexivity).
    destruct (streamReads_registry bodyId reads chunks s0 Hheld) as [Hresults Hsent].
    split; [exact Hresults|].
    rewrite Hsent, Hsent0. cbn [channel newWorld].
    rewrite <- app_assoc. reflexivity.
Qed.

(** ** The model on concrete inputs *)

Lemma asciiLower_idem (c : ascii) : asciiLower (asciiLower c) = asciiLower c.
Proof. destruct c as [[] [] [] [] [] [] [] []]; reflexivity. Qed.

Lemma lowerCase_idem (s : string) : lowerCase (lowerCase s) = lowerCase s.
Proof.
  induction s as [|c rest IH]; [reflexivity|].
  cbn. rewrite asciiLower_idem, IH. reflexivity.
Qed.

Lemma ListHeaders_entries_newHeaders (headers : @Headers ListHeaders) :
  @headersEntries ListHeaders (@newHeaders ListHeaders (@headersEntries ListHeaders headers))
  = @headersEntries ListHeaders headers.
Proof.
  cbn. induction headers as [|[name value] rest IH]; [reflexivity|].
  cbn. rewrite lowerCase_idem. f_equal. exact IH.
Qed.

Lemma packResponse_body_placement_witness :
  declaredContentLength (H := ListHeaders) [("Content-Length", "3")] = Some 3 /\
  0 <= 3 <= fiveMegabytes /\
  packResponse fiveMegabytes smallResponse newBodies
  = (Return (PackedResponse.mk 200 [("content-length", "3")] None None (Some abc)),
     newBodies).
Proof.
  split; [reflexivity|]. split; [unfold fiveMegabytes; lia|].
  apply (proj1 (proj2 (proj2 (@packResponse_body_placement ListHeaders fiveMegabytes)))
           200 [("Content-Length", "3")] (Some {| pending := [abc] |}) newBodies 3).
  - reflexivity.
  - unfold fiveMegabytes; lia.
Defined.

(** C1, as the document states it, fails: a response with no content-length
    header and a [null] body is packed with no body reference. *)
Lemma packResponse_no_reference_for_null_body :
  ~ referenceWhenNotInlined fiveMegabytes noContentResponse newBodies.
Proof.
  intros Hclaim.
  destruct (Hclaim 204 [] None eq_refl (or_introl eq_refl))
    as (packed & bodies' & Hpack & [bodyId HbodyId] & _).
  vm_compute in Hpack. injection Hpack as <- <-. discriminate.
Qed.

Lemma readBodyChunk_drains_witness :
  source oneBody 1 = Some [abc; de; abc] /\
  pulls 4 1 oneBody
  = ([chunkResult abc; chunkResult de; chunkResult abc; doneResult], released 1 oneBody).
Proof.
  split; [reflexivity|].
  exact (proj1 (proj1 readBodyChunk_drains_in_order oneBody 1 [abc; de; abc] eq_refl)).
Defined.

Lemma packResponse_at_most_one_witness :
  packResponse fiveMegabytes streamedResponse newBodies = (Return streamedPacked, oneBody) /\
  (setBodyFields streamedPacked <= 1)%nat.
Proof.
  split; [reflexivity|].
  exact (proj1 (@packResponse_at_most_one_body_field ListHeaders fiveMegabytes
                  streamedResponse newBodies oneBody _ eq_refl)).
Defined.

Lemma packResponse_null_body_witness :
  packResponse fiveMegabytes noContentResponse newBodies
  = (Return (PackedResponse.mk 204 [] None None None), newBodies) /\
  packResponse fiveMegabytes oddLengthResponse newBodies
  = (Return (PackedResponse.mk 204 [("content-length", "12abc")] None None (Some [])),
     newBodies).
Proof.
  split.
  - exact (proj1 (@packResponse_null_body_all_unset ListHeaders fiveMegabytes 204 []
                    newBodies) (or_introl eq_refl)).
  - apply (proj2 (@packResponse_null_body_all_unset ListHeaders fiveMegabytes 204
                    [("Content-Length", "12abc")] newBodies) "12abc" 12).
    + reflexivity.
    + reflexivity.
    + unfold fiveMegabytes. lia.
Defined.

(** C10, as the document states it, fails: a content-length header that
    is not numeric but starts with digits makes [packResponse] pack a
    response with no body inline, with an empty [bodyBytes]. *)
Lemma packResponse_inline_for_null_body :
  ~ unsetForNullBody fiveMegabytes oddLengthResponse newBodies.
Proof.
  intros Hclaim.
  pose proof (Hclaim 204 [("Content-Length", "12abc")] eq_refl
                (or_intror (ex_intro _ "12abc" (conj eq_refl eq_refl)))) as Hpack.
  vm_compute in Hpack. discriminate Hpack.
Qed.




Lemma unpackResponse_body_precedence_witness :
  PackedResponse.bodyText (PackedResponse.mk 200 [] (Some 7) (Some "hi") None) = Some "hi" /\
  unpackResponse (H := ListHeaders) (PackedResponse.mk 200 [] (Some 7) (Some "hi") None)
    failingResolver
  = Return (@NewResponse.mk ListHeaders ReadableStream (Some (TextBody "hi")) 200 []).
Proof.
  split; [reflexivity|].
  exact (proj1 (@unpackResponse_body_precedence ListHeaders ReadableStream
                  (PackedResponse.mk 200 [] (Some 7) (Some "hi") None) failingResolver)
           "hi" eq_refl).
Defined.

Lemma rpc_stream_pull_witness :
  source (peer (newChannel oneBody)) 1 = Some [abc; de; abc] /\
  fst (streamReads (makeBodyResolverOverRpc registryPeer 1) 2
         (newReadableStream (makeBodyResolverOverRpc registryPeer 1)
            (newWorld (newChannel oneBody))))
  = [Some (chunkResult abc); Some (chunkResult de)] /\
  streamSent
    (snd (streamReads (makeBodyResolverOverRpc registryPeer 1) 2
            (newReadableStream (makeBodyResolverOverRpc registryPeer 1)
               (newWorld (newChannel oneBody)))))
  = [("read-body-chunk", 1); ("read-body-chunk", 1); ("read-body-chunk", 1)].
Proof.
  split; [reflexivity|].
  exact (proj2 (proj2 (proj2 (proj2 (proj2 (proj2
           (rpc_stream_one_request_per_pull registryPeer 1))))))
           [abc; de; abc] (newChannel oneBody) 2%nat eq_refl).
Defined.

(** C7, as the document states it, fails: the stream has sent a request
    before the consumer has read anything. *)
Lemma rpc_stream_pulls_before_read :
  ~ oneCallPerRead registryPeer 1 (newChannel oneBody).
Proof.
  intros Hclaim. specialize (Hclaim 0%nat). vm_compute in Hclaim. discriminate Hclaim.
Qed.

(** *** Examples *)

Example parseInt_plain : parseInt "1024" = Some 1024.
Proof. reflexivity. Qed.
Example parseInt_leading_digits : parseInt "12abc" = Some 12.
Proof. reflexivity. Qed.
Example parseInt_hexadecimal : parseInt "0x1F" = Some 31.
Proof. reflexivity. Qed.
Example parseInt_negative : parseInt "-7" = Some (-7).
Proof. reflexivity. Qed.
Example parseInt_not_a_number : parseInt "abc" = None.
Proof. reflexivity. Qed.

Example throwIf_first_wins :
  (throwIf false "a";; throwIf true "b";; throwIf true "c";; mret 1) = Throw (Error "b").
Proof. reflexivity. Qed.

(** Pulling past the end of a body: three chunks, the end, then errors. *)
Example pulls_past_the_end :
  fst (pulls 6 1 oneBody)
  = [chunkResult abc; chunkResult de; chunkResult abc; doneResult;
     Throw (Error "Bad bodyId: 1"); Throw (Error "Bad bodyId: 1")].
Proof. vm_compute. reflexivity. Qed.

(** Two registrations around a full drain: the second identifier is 2. *)
Example ids_not_reused :
  issuedIds (fst (run [CallComputeBodyId (Some threeChunks);
                       CallReadBodyChunk 1; CallReadBodyChunk 1;
                       CallReadBodyChunk 1; CallReadBodyChunk 1;
                       CallComputeBodyId None;
                       CallComputeBodyId (Some threeChunks)] newBodies))
  = [1; 2].
Proof. vm_compute. reflexivity. Qed.

(** A redirect policy of [follow] is accepted, another one is named. *)
Example redirect_follow_accepted :
  packUrlRequest (H := ListHeaders) "https://example.test/x"
    (Some (RequestInit.mk None None None None None None None None (Some "follow")
             None None None None))
  = Return (PackedRequest.mk "GET" "https://example.test/x" [] None).
Proof. reflexivity. Qed.
Example redirect_manual_rejected :
  packUrlRequest (H := ListHeaders) "https://example.test/x"
    (Some (RequestInit.mk None None None None None None None None (Some "manual")
             None None None None))
  = Throw (Error "packRequest: init.redirect manual").
Proof. reflexivity. Qed.

Example post_options_copied :
  packRequest (H := ListHeaders) (InfoUrl "https://example.test/x") (Some initWithMethod) newBodies
  = (Return (PackedRequest.mk "POST" "https://example.test/x" [("x-trace", "1")] None),
     newBodies).
Proof. reflexivity. Qed.

(** The stream over the channel, with the registry as the peer: four pulls
    send four requests, enqueue the three chunks and close the stream; the
    registry has released the body. *)
Example rpc_stream_end_to_end :
  let '(ran, world) :=
    drive (makeBodyResolverOverRpc registryPeer 1) [Start; Pull; Pull; Pull; Pull]
      (newWorld (newChannel oneBody)) in
  pullCount ran = 4%nat /\
  length (sent (channel world)) = 4%nat /\
  queue (controller world) = [abc; de; abc] /\
  closeRequested (controller world) = true /\
  source (peer (channel world)) 1 = None.
Proof. vm_compute. repeat split. Qed.

(** Two bodies pulled in turn: each gives its own chunks in order, and the
    second registration in between does not disturb the first body. *)
Example interleaved_pulls :
  let calls :=
    [CallReadBodyChunk 1; CallComputeBodyId (Some {| pending := [de] |});
     CallReadBodyChunk 2; CallReadBodyChunk 1; CallReadBodyChunk 2;
     CallReadBodyChunk 1; CallReadBodyChunk 1; CallReadBodyChunk 1] in
  readResults 1 calls (fst (run calls oneBody))
  = [chunkResult abc; chunkResult de; chunkResult abc; doneResult;
     Throw (Error "Bad bodyId: 1")] /\
  readResults 2 calls (fst (run calls oneBody)) = [chunkResult de; doneResult].
Proof. vm_compute. split; reflexivity. Qed.

(** What [new Request] does to what [unpackRequest] gives it: the address
    of a host gets its path and a standard method is written in upper case;
    an address that is not absolute and a forbidden method are refused. *)
Example unpackRequest_normalises :
  unpackRequest (H := ListHeaders) demoUrlParser
    (PackedRequest.mk "post" "https://example.test" [] None) failingResolver
  = Return (@Request.mk ListHeaders ReadableStream "POST" "https://example.test/" [] None) /\
  unpackRequest (H := ListHeaders) demoUrlParser
    (PackedRequest.mk "GET" "/x" [] None) failingResolver
  = Throw TypeError /\
  unpackRequest (H := ListHeaders) demoUrlParser
    (PackedRequest.mk "TRACE" "https://example.test/x" [] None) failingResolver
  = Throw TypeError /\
  unpackRequest (H := ListHeaders) demoUrlParser
    (PackedRequest.mk "PATCH" "https://example.test/x" [] None) failingResolver
  = Return (@Request.mk ListHeaders ReadableStream "PATCH" "https://example.test/x" [] None).
Proof. vm_compute. repeat split. Qed.

(** What [new Response] does to what [unpackResponse] gives it: a reply
    with no content, packed inline with an empty body, is refused; a body
    that is a string gets the content type of text. *)
Example newResponse_examples :
  packResponse fiveMegabytes
    (@PlatformResponse ListHeaders 204 [("Content-Length", "0")] None) newBodies
  = (Return (PackedResponse.mk 204 [("content-length", "0")] None None (Some [])),
     newBodies) /\
  (responseInit ← unpackResponse (H := ListHeaders)
                    (PackedResponse.mk 204 [("content-length", "0")] None None (Some []))
                    failingResolver;
   newResponse responseInit) = Throw TypeError /\
  (responseInit ← unpackResponse (H := ListHeaders)
                    (PackedResponse.mk 200 [] None (Some "hi") None) failingResolver;
   newResponse responseInit)
  = Return (@ResponseObject.mk ListHeaders ReadableStream 200
              [("content-type", "text/plain;charset=UTF-8")] (Some (TextBody "hi"))) /\
  (responseInit ← unpackResponse (H := ListHeaders)
                    (PackedResponse.mk 600 [] None None None) failingResolver;
   newResponse responseInit) = Throw RangeError.
Proof. vm_compute. repeat split. Qed.

(** The stream of the platform over the channel, with the registry as the
    peer: one request has gone out before the first read; five reads give
    the three chunks and the end twice, and four requests in all. *)
Example stream_reads_end_to_end :
  streamSent (newReadableStream (makeBodyResolverOverRpc registryPeer 1)
                (newWorld (newChannel oneBody)))
  = [("read-body-chunk", 1)] /\
  fst (streamReads (makeBodyResolverOverRpc registryPeer 1) 5
         (newReadableStream (makeBodyResolverOverRpc registryPeer 1)
            (newWorld (newChannel oneBody))))
  = [Some (chunkResult abc); Some (chunkResult de); Some (chunkResult abc);
     Some doneResult; Some doneResult] /\
  length (streamSent
            (snd (streamReads (makeBodyResolverOverRpc registryPeer 1) 5
                    (newReadableStream (makeBodyResolverOverRpc registryPeer 1)
                       (newWorld (newChannel oneBody))))))
  = 4%nat.
Proof. vm_compute. repeat split. Qed.

(** A stream over a body that is not registered: the pull made when the
    stream is constructed fails, the stream is errored, and a read is
    refused with the error of the registry. *)
Example stream_of_unknown_body :
  fst (streamRead (makeBodyResolverOverRpc registryPeer 7)
         (newReadableStream (makeBodyResolverOverRpc registryPeer 7)
            (newWorld (newChannel newBodies))))
  = Some (Throw (Error "Bad bodyId: 7")).
Proof. vm_compute. reflexivity. Qed.

Lemma packRequest_request_with_init_witness :
  packRequest (InfoRequest getRequest) None newBodies
  = (Return (PackedRequest.mk "GET" "https://example.test/x" [("accept", "*/*")] None),
     newBodies) /\
  @None RequestInit.t = None.
Proof.
  split; [reflexivity|].
  exact (proj2 (@packRequest_request_with_init ListHeaders getRequest newBodies)
           None _ newBodies eq_refl).
Defined.

(* ===================================================================== *)
(** * Further properties of the bridge *)
(* ===================================================================== *)

(** ** The stream over the channel, served by a registry *)

Lemma drive_pull_cons {Peer : Type}
    (deliver : string -> Z -> Peer -> Completion ReadResult.t * Peer) (bodyId : Z)
    (calls : list SourceCall) (world world1 : StreamWorld Peer) :
  rpcPull deliver bodyId world = (Return tt, world1) ->
  drive (makeBodyResolverOverRpc deliver bodyId) (Pull :: calls) world
  = (Pull :: fst (drive (makeBodyResolverOverRpc deliver bodyId) calls world1),
     snd (drive (makeBodyResolverOverRpc deliver bodyId) calls world1)).
Proof.
  intros Hpull. cbn [drive sourceCall makeBodyResolverOverRpc pull]. rewrite Hpull.
  destruct (drive (makeBodyResolverOverRpc deliver bodyId) calls world1). reflexivity.
Qed.

(** X1: the stream of [makeBodyResolverOverRpc], on a channel whose peer
    answers [read-body-chunk] from a registry as the handler of
    [addRequestHandlerForReadBodyChunk] does: pulling once more than the
    body has chunks left runs every pull, enqueues exactly those chunks in
    their order, closes the controller, sends one request per pull, and
    leaves the peer's registry with the body released. *)
Theorem rpc_stream_drains_registry (bodyId : Z) (chunks : list Chunk) :
  forall world : StreamWorld Bodies,
    source (peer (channel world)) bodyId = Some chunks ->
    closeRequested (controller world) = false ->
    drive (makeBodyResolverOverRpc registryPeer bodyId)
      (replicate (S (length chunks)) Pull) world
    = (replicate (S (length chunks)) Pull,
       {| channel :=
            {| sent := sent (channel world)
                       ++ replicate (S (length chunks)) ("read-body-chunk", bodyId);
               peer := released bodyId (peer (channel world)) |};
          controller :=
            {| queue := queue (controller world) ++ chunks; closeRequested := true |};
          console := console world |}).
Proof.
  induction chunks as [|chunk rest IH]; intros world Hsrc Hopen.
  - cbn [length replicate].
    rewrite (drive_pull_cons _ _ _ _ _
               (rpcPull_open _ _ _ _ _ _ Hopen (readBodyChunkHandler_done _ _ Hsrc))).
    cbn. rewrite app_nil_r. reflexivity.
  - change (replicate (S (length (chunk :: rest))) Pull)
      with (Pull :: replicate (S (length rest)) Pull).
    rewrite (drive_pull_cons _ _ _ _ _
               (rpcPull_open _ _ _ _ _ _ Hopen (readBodyChunkHandler_chunk _ _ _ _ Hsrc))).
    rewrite IH.
    + cbn [fst snd sent peer channel controller queue console resultChunks
           ReadResult.value]. f_equal. f_equal.
      * f_equal.
        -- rewrite <- app_assoc. reflexivity.
        -- unfold released. cbn. rewrite delete_insert_eq. reflexivity.
      * f_equal. rewrite <- app_assoc. reflexivity.
    + cbn. unfold source. cbn. rewrite lookup_insert_eq. reflexivity.
    + reflexivity.
Qed.

Lemma rpc_stream_drains_registry_witness :
  source (peer (channel (newWorld (newChannel oneBody)))) 1 = Some [abc; de; abc] /\
  closeRequested (controller (newWorld (newChannel oneBody))) = false /\
  queue (controller
           (snd (drive (makeBodyResolverOverRpc registryPeer 1) (replicate 4 Pull)
                   (newWorld (newChannel oneBody)))))
  = [abc; de; abc].
Proof.
  split; [reflexivity|]. split; [reflexivity|].
  exact (f_equal (fun r => queue (controller (snd r)))
           (rpc_stream_drains_registry 1 [abc; de; abc]
              (newWorld (newChannel oneBody)) eq_refl eq_refl)).
Defined.

(** X2: when the peer answers a pull with an error, the pull throws that
    error after its one request, and the controller is left as it was:
    nothing is enqueued and the stream is not closed.  With a registry as
    the peer this is what a pull of a body that was never registered, or
    was already pulled to its end, does: it throws [Bad bodyId]. *)
Theorem rpc_pull_error_reply {Peer : Type}
    (deliver : string -> Z -> Peer -> Completion ReadResult.t * Peer) (bodyId : Z) :
  (forall (world : StreamWorld Peer) (e : JsError) (peer' : Peer),
      deliver "read-body-chunk" bodyId (peer (channel world)) = (Throw e, peer') ->
      rpcPull deliver bodyId world
      = (Throw e,
         {| channel := {| sent := sent (channel world) ++ [("read-body-chunk", bodyId)];
                          peer := peer' |};
            controller := controller world;
            console := console world |})) /\
  (forall world : StreamWorld Bodies,
      source (peer (channel world)) bodyId = None ->
      fst (rpcPull registryPeer bodyId world) = Throw (badBodyId bodyId) /\
      controller (snd (rpcPull registryPeer bodyId world)) = controller world /\
      peer (channel (snd (rpcPull registryPeer bodyId world))) = peer (channel world)).
Proof.
  split.
  - intros world e peer' Hreply. unfold rpcPull, sendRequest. rewrite Hreply. reflexivity.
  - intros world Hsrc. unfold rpcPull, sendRequest.
    rewrite (readBodyChunkHandler_unknown _ _ Hsrc). cbn. auto.
Qed.

Lemma rpc_pull_error_reply_witness :
  source (peer (channel (newWorld (newChannel newBodies)))) 7 = None /\
  fst (rpcPull registryPeer 7 (newWorld (newChannel newBodies)))
  = Throw (Error "Bad bodyId: 7").
Proof.
  split; [reflexivity|].
  exact (proj1 (proj2 (rpc_pull_error_reply registryPeer 7)
                  (newWorld (newChannel newBodies)) eq_refl)).
Defined.

(** ** Packing and the registry *)

Section PackingProperties.
Context `{HeadersApi}.
Variable threshold : Z.
Variable parseUrl : string -> option string.

Lemma computeBodyId_frame (body : option ReadableStream) (self : Bodies) (bodyId : Z) :
  bodyId <> nextBodyId self ->
  source (snd (computeBodyId body self)) bodyId = source self bodyId.
Proof.
  intros Hne. destruct body as [stream|]; [|reflexivity].
  unfold source. cbn. rewrite lookup_insert_ne by done. reflexivity.
Qed.

Lemma computeBodyId_next (body : option ReadableStream) (self : Bodies) :
  nextBodyId (snd (computeBodyId body self))
  = if defined body then nextBodyId self + 1 else nextBodyId self.
Proof. destruct body; reflexivity. Qed.

(** Whatever a pack function does to the registry, it is what
    [computeBodyId] does for some body, present or not. *)
Lemma packRequest_registry (info : RequestInfo) (init : option RequestInit.t)
    (bodies : Bodies) :
  exists body, snd (packRequest info init bodies) = snd (computeBodyId body bodies).
Proof.
  destruct info as [request|url]; [|exists None; reflexivity].
  destruct init as [init|]; [exists None; reflexivity|].
  exists (Request.body request). cbn.
  destruct (computeBodyId (Request.body request) bodies). reflexivity.
Qed.

Lemma packResponse_registry (response : Response) (bodies : Bodies) :
  exists body, snd (packResponse threshold response bodies) = snd (computeBodyId body bodies).
Proof.
  destruct response as [status headers [text|stream|shown]|status headers body].
  - exists None. reflexivity.
  - exists (Some stream). reflexivity.
  - exists None. reflexivity.
  - destruct (numGt (contentLength headers) (-1)
              && numLe (contentLength headers) threshold) eqn:Htest.
    + exists None. rewrite (packResponse_inline _ _ _ _ _ Htest). reflexivity.
    + exists body. rewrite (packResponse_reference _ _ _ _ _ Htest). reflexivity.
Qed.

Lemma packRequest_throw_registry (info : RequestInfo) (init : option RequestInit.t)
    (bodies : Bodies) (e : JsError) (bodies' : Bodies) :
  packRequest info init bodies = (Throw e, bodies') -> bodies' = bodies.
Proof.
  destruct info as [request|url]; cbn.
  - destruct init as [init|].
    + intros [= _ <-]. reflexivity.
    + destruct (computeBodyId (Request.body request) bodies). discriminate.
  - intros [= _ <-]. reflexivity.
Qed.

(** X3: packing never disturbs what the registry already holds: after
    [packResponse] or [packRequest], every identifier other than the next
    one to hand out has the source it had before, the counter has advanced
    by at most one, and a call that throws leaves the registry exactly as
    it was. *)
Theorem packing_keeps_registered_bodies (bodies : Bodies) :
  (forall (response : Response) (bodyId : Z),
      bodyId <> nextBodyId bodies ->
      source (snd (packResponse threshold response bodies)) bodyId = source bodies bodyId) /\
  (forall (info : RequestInfo) (init : option RequestInit.t) (bodyId : Z),
      bodyId <> nextBodyId bodies ->
      source (snd (packRequest info init bodies)) bodyId = source bodies bodyId) /\
  (forall response : Response,
      nextBodyId bodies <= nextBodyId (snd (packResponse threshold response bodies))
        <= nextBodyId bodies + 1) /\
  (forall (info : RequestInfo) (init : option RequestInit.t),
      nextBodyId bodies <= nextBodyId (snd (packRequest info init bodies))
        <= nextBodyId bodies + 1) /\
  (forall (response : Response) (e : JsError) (bodies' : Bodies),
      packResponse threshold response bodies = (Throw e, bodies') -> bodies' = bodies) /\
  (forall (info : RequestInfo) (init : option RequestInit.t) (e : JsError) (bodies' : Bodies),
      packRequest info init bodies = (Throw e, bodies') -> bodies' = bodies).
Proof.
  split; [|split; [|split; [|split; [|split]]]].
  - intros response bodyId Hne.
    destruct (packResponse_registry response bodies) as [body ->].
    apply computeBodyId_frame, Hne.
  - intros info init bodyId Hne.
    destruct (packRequest_registry info init bodies) as [body ->].
    apply computeBodyId_frame, Hne.
  - intros response.
    destruct (packResponse_registry response bodies) as [body ->].
    rewrite computeBodyId_next. destruct (defined body); lia.
  - intros info init.
    destruct (packRequest_registry info init bodies) as [body ->].
    rewrite computeBodyId_next. destruct (defined body); lia.
  - intros response e bodies'.
    destruct response as [status headers [text|stream|shown]|status headers body].
    + discriminate.
    + discriminate.
    + intros [= _ <-]. reflexivity.
    + destruct (numGt (contentLength headers) (-1)
                && numLe (contentLength headers) threshold) eqn:Htest.
      * rewrite (packResponse_inline _ _ _ _ _ Htest). discriminate.
      * rewrite (packResponse_reference _ _ _ _ _ Htest). discriminate.
  - intros info init e bodies'. apply packRequest_throw_registry.
Qed.

(** The next identifier of a registry that was only used through its two
    methods names no body yet. *)
Lemma run_next_fresh (calls : list BodiesCall) :
  source (snd (run calls newBodies)) (nextBodyId (snd (run calls newBodies))) = None.
Proof.
  destruct (source (snd (run calls newBodies)) (nextBodyId (snd (run calls newBodies))))
    as [chunks|] eqn:Hsrc; [|reflexivity].
  destruct (run_source_bound calls (nextBodyId (snd (run calls newBodies))) newBodies)
    as [[? Hnew]|Hin].
  - rewrite Hsrc. eauto.
  - rewrite newBodies_source in Hnew. discriminate.
  - apply issuedIds_below in Hin. lia.
Qed.

Lemma computeBodyId_source (stream : ReadableStream) (self : Bodies) :
  source self (nextBodyId self) = None ->
  source (snd (computeBodyId (Some stream) self)) (nextBodyId self) = Some (pending stream).
Proof.
  unfold source. cbn. destruct (readers self !! nextBodyId self); [discriminate|].
  intros _. rewrite lookup_insert_eq. reflexivity.
Qed.

(** X4: a request object with a body, packed on a registry that was only
    used through its methods, gets the registry's next identifier as its
    [bodyId]; pulling that identifier gives the chunks of the request's
    body in order and then the end; and [unpackRequest] asks the resolver
    for exactly that identifier, failing as the resolver fails, and gives
    the stream it gets to [new Request] as the body, with the method, the
    url and the header pairs of the request. *)
Theorem packRequest_body_by_reference
    (calls : list BodiesCall) (request : Request.t ReadableStream)
    (stream : ReadableStream) :
  Request.body request = Some stream ->
  exists bodies',
    packRequest (InfoRequest request) None (snd (run calls newBodies))
    = (Return (PackedRequest.mk (Request.method request) (Request.url request)
                 (headersEntries (Request.headers request))
                 (Some (nextBodyId (snd (run calls newBodies))))),
       bodies') /\
    pulls (S (length (pending stream))) (nextBodyId (snd (run calls newBodies))) bodies'
    = (map chunkResult (pending stream) ++ [doneResult],
       released (nextBodyId (snd (run calls newBodies))) bodies') /\
    forall (S : Type) (bodyResolver : Z -> Completion S),
      unpackRequest parseUrl
        (PackedRequest.mk (Request.method request) (Request.url request)
           (headersEntries (Request.headers request))
           (Some (nextBodyId (snd (run calls newBodies)))))
        bodyResolver
      = (body ← bodyResolver (nextBodyId (snd (run calls newBodies)));
         newRequest parseUrl (Request.url request) (Request.method request)
           (newHeaders (headersEntries (Request.headers request)))
           (Some body)).
Proof.
  intros Hbody. eexists. split; [|split].
  - cbn. rewrite Hbody. reflexivity.
  - apply pulls_drain, computeBodyId_source, run_next_fresh.
  - intros S bodyResolver. unfold unpackRequest. cbn.
    destruct (bodyResolver (nextBodyId (snd (run calls newBodies)))); reflexivity.
Qed.

(** What [unpackResponse] gives to the constructor, and what the
    constructor makes of it. *)
Lemma packResponse_fields (response : Response) (registry registry' : Bodies)
    (packed : PackedResponse.t) :
  packResponse threshold response registry = (Return packed, registry') ->
  PackedResponse.status packed = responseStatus response /\
  PackedResponse.headers packed = headersEntries (responseHeaders response).
Proof.
  destruct response as [status headers [text|stream|shown]|status headers body]; cbn.
  - intros [= <- _]. split; reflexivity.
  - intros [= <- _]. split; reflexivity.
  - discriminate.
  - destruct (numGt (contentLength headers) (-1) && numLe (contentLength headers) threshold).
    + intros [= <- _]. split; reflexivity.
    + destruct (computeBodyId body registry). intros [= <- _]. split; reflexivity.
Qed.

Lemma unpackResponse_fields {S : Type} (packed : PackedResponse.t)
    (bodyResolver : Z -> Completion S) (responseInit : NewResponse.t S) :
  unpackResponse packed bodyResolver = Return responseInit ->
  NewResponse.status responseInit = PackedResponse.status packed /\
  NewResponse.headers responseInit = newHeaders (PackedResponse.headers packed) /\
  defined (NewResponse.body responseInit) = negb (Nat.eqb (setBodyFields packed) 0).
Proof.
  unfold unpackResponse, setBodyFields.
  destruct (PackedResponse.bodyText packed) as [text|]; cbn.
  { intros [= <-]. cbn.
    destruct (PackedResponse.bodyId packed), (PackedResponse.bodyBytes packed);
      repeat split. }
  destruct (PackedResponse.bodyBytes packed) as [bytes|]; cbn.
  { intros [= <-]. cbn. destruct (PackedResponse.bodyId packed); repeat split. }
  destruct (PackedResponse.bodyId packed) as [bodyId|]; cbn.
  - destruct (bodyResolver bodyId); cbn; [|discriminate].
    intros [= <-]. repeat split.
  - intros [= <-]. repeat split.
Qed.

Lemma newResponse_outcome {S : Type} (responseInit : NewResponse.t S) :
  (NewResponse.status responseInit < 200 \/ 599 < NewResponse.status responseInit ->
   newResponse responseInit = Throw RangeError) /\
  (200 <= NewResponse.status responseInit <= 599 ->
   isNullBodyStatus (NewResponse.status responseInit) = true ->
   defined (NewResponse.body responseInit) = true ->
   newResponse responseInit = Throw TypeError) /\
  (200 <= NewResponse.status responseInit <= 599 ->
   isNullBodyStatus (NewResponse.status responseInit) = false \/
   defined (NewResponse.body responseInit) = false ->
   newResponse responseInit
   = Return (ResponseObject.mk (NewResponse.status responseInit)
               match NewResponse.body responseInit with
               | Some (TextBody _) =>
                   if defined (headersGet (NewResponse.headers responseInit) "content-type")
                   then NewResponse.headers responseInit
                   else newHeaders (headersEntries (NewResponse.headers responseInit)
                                      ++ [textContentType])
               | _ => NewResponse.headers responseInit
               end
               (NewResponse.body responseInit))).
Proof.
  unfold newResponse. split; [|split].
  - intros Hout.
    assert ((NewResponse.status responseInit <? 200)
            || (599 <? NewResponse.status responseInit) = true) as ->; [|reflexivity].
    apply orb_true_iff. rewrite !Z.ltb_lt. exact Hout.
  - intros Hin Hnull Hbody.
    assert ((NewResponse.status responseInit <? 200)
            || (599 <? NewResponse.status responseInit) = false) as ->.
    { apply orb_false_iff. rewrite !Z.ltb_ge. lia. }
    rewrite Hnull, Hbody. reflexivity.
  - intros Hin Hfree.
    assert ((NewResponse.status responseInit <? 200)
            || (599 <? NewResponse.status responseInit) = false) as ->.
    { apply orb_false_iff. rewrite !Z.ltb_ge. lia. }
    assert (defined (NewResponse.body responseInit)
            && isNullBodyStatus (NewResponse.status responseInit) = false) as ->;
      [|reflexivity].
    apply andb_false_iff. destruct Hfree; auto.
Qed.

Section ResponseRoundtrip.

(** Enumerating a [Headers] object and building one from the pairs gives
    an object with the same enumeration, and with the same value for every
    name. *)
Hypothesis entries_newHeaders :
  forall headers : Headers,
    headersEntries (newHeaders (headersEntries headers)) = headersEntries headers.
Hypothesis get_newHeaders :
  forall (headers : Headers) (name : string),
    headersGet (newHeaders (headersEntries headers)) name = headersGet headers name.

(** Where the body that [unpackResponse] gives to the constructor comes
    from. *)
Lemma unpackResponse_body {S : Type}
    (response : Response) (registry registry' : Bodies) (packed : PackedResponse.t)
    (bodyResolver : Z -> Completion S) (responseInit : NewResponse.t S) :
  packResponse threshold response registry = (Return packed, registry') ->
  unpackResponse packed bodyResolver = Return responseInit ->
  match NewResponse.body responseInit with
  | Some (TextBody text) =>
      exists status headers, response = DenoflareResponse status headers (BodyString text)
  | Some (BytesBody bytes) =>
      exists status headers body,
        response = PlatformResponse status headers body /\ bytes = arrayBuffer body
  | Some (StreamBody resolved) =>
      exists stream,
        responseStream response = Some stream /\
        bodyResolver (nextBodyId registry) = Return resolved /\
        bodies registry' !! nextBodyId registry = Some stream
  | None => exists status headers, response = PlatformResponse status headers None
  end.
Proof.
  intros Hpack Hunpack.
  destruct response as [status headers [text|stream|shown]|status headers body].
  - injection Hpack as <- <-. cbn in Hunpack. injection Hunpack as <-. cbn. eauto.
  - injection Hpack as <- <-. unfold unpackResponse in Hunpack. cbn in Hunpack.
    destruct (bodyResolver (nextBodyId registry)) as [resolved|] eqn:Hresolved;
      [|discriminate].
    injection Hunpack as <-. cbn. exists stream.
    rewrite lookup_insert_eq. auto.
  - discriminate.
  - destruct (numGt (contentLength headers) (-1)
              && numLe (contentLength headers) threshold) eqn:Htest.
    + rewrite (packResponse_inline _ _ _ _ _ Htest) in Hpack.
      injection Hpack as <- <-. cbn in Hunpack. injection Hunpack as <-. cbn. eauto.
    + rewrite (packResponse_reference _ _ _ _ _ Htest) in Hpack.
      injection Hpack as <- <-. destruct body as [stream|].
      * unfold unpackResponse in Hunpack. cbn in Hunpack.
        destruct (bodyResolver (nextBodyId registry)) as [resolved|] eqn:Hresolved;
          [|discriminate].
        injection Hunpack as <-. cbn. exists stream.
        rewrite lookup_insert_eq. auto.
      * cbn in Hunpack. injection Hunpack as <-. cbn. eauto.
Qed.

(** X5: a response that [packResponse] packs and [unpackResponse] unpacks
    comes back, when [new Response] returns, with its status and with its
    body as what it was: the string of a [DenoflareResponse] made from a
    string, the whole buffered body of a response packed inline, the
    resolver's stream for the identifier under which the registry now holds
    the response's stream, or no body for a response whose body is [null].
    Its header pairs are those of the response, except that a body that is
    a string adds the content type of text when the response names none.
    And [new Response] refuses some of what [packResponse] packs: a status
    outside 200..599 with a [RangeError], and a body, be it an empty one
    packed inline, with a status 204, 205 or 304 with a [TypeError]; it
    returns in every other case. *)
Theorem pack_unpack_response {S : Type}
    (response : Response) (registry registry' : Bodies) (packed : PackedResponse.t)
    (bodyResolver : Z -> Completion S) (responseInit : NewResponse.t S) :
  packResponse threshold response registry = (Return packed, registry') ->
  unpackResponse packed bodyResolver = Return responseInit ->
  (forall unpacked : ResponseObject.t S,
      newResponse responseInit = Return unpacked ->
      ResponseObject.status unpacked = responseStatus response /\
      match ResponseObject.body unpacked with
      | Some (TextBody text) =>
          (exists status headers,
              response = DenoflareResponse status headers (BodyString text)) /\
          if defined (headersGet (responseHeaders response) "content-type")
          then headersEntries (ResponseObject.headers unpacked)
               = headersEntries (responseHeaders response)
          else ResponseObject.headers unpacked
               = newHeaders (headersEntries (responseHeaders response) ++ [textContentType])
      | Some (BytesBody bytes) =>
          (exists status headers body,
              response = PlatformResponse status headers body /\ bytes = arrayBuffer body) /\
          headersEntries (ResponseObject.headers unpacked)
          = headersEntries (responseHeaders response)
      | Some (StreamBody resolved) =>
          (exists stream,
              responseStream response = Some stream /\
              bodyResolver (nextBodyId registry) = Return resolved /\
              bodies registry' !! nextBodyId registry = Some stream) /\
          headersEntries (ResponseObject.headers unpacked)
          = headersEntries (responseHeaders response)
      | None =>
          (exists status headers, response = PlatformResponse status headers None) /\
          headersEntries (ResponseObject.headers unpacked)
          = headersEntries (responseHeaders response)
      end) /\
  (newResponse responseInit = Throw RangeError <->
   responseStatus response < 200 \/ 599 < responseStatus response) /\
  (newResponse responseInit = Throw TypeError <->
   200 <= responseStatus response <= 599 /\
   isNullBodyStatus (responseStatus response) = true /\
   (0 < setBodyFields packed)%nat) /\
  ((exists unpacked, newResponse responseInit = Return unpacked) <->
   200 <= responseStatus response <= 599 /\
   (isNullBodyStatus (responseStatus response) = false \/ setBodyFields packed = 0%nat)).
Proof.
  intros Hpack Hunpack.
  pose proof (unpackResponse_body _ _ _ _ _ _ Hpack Hunpack) as Hbody.
  destruct (packResponse_fields _ _ _ _ Hpack) as [Hstatus Hheaders].
  destruct (unpackResponse_fields _ _ _ Hunpack) as (Hstatus' & Hheaders' & Hdefined).
  rewrite Hstatus in Hstatus'. rewrite Hheaders in Hheaders'.
  destruct (newResponse_outcome responseInit) as (Hrange & Htype & Hreturn).
  rewrite Hstatus' in Hrange, Htype, Hreturn.
  assert (defined (NewResponse.body responseInit) = true <-> (0 < setBodyFields packed)%nat)
    as Hset.
  { rewrite Hdefined, negb_true_iff, Nat.eqb_neq. lia. }
  assert (defined (NewResponse.body responseInit) = false <-> setBodyFields packed = 0%nat)
    as Hunset.
  { rewrite Hdefined, negb_false_iff, Nat.eqb_eq. reflexivity. }
  destruct (Z_lt_dec (responseStatus response) 200) as [Hlow|Hlow];
    [|destruct (Z_lt_dec 599 (responseStatus response)) as [Hhigh|Hhigh]].
  1, 2: rewrite Hrange by auto; split; [intros unpacked [=]|]; split; [|split];
    (split; [try discriminate; auto|intros Hin; try (exfalso; lia); auto]).
  1, 2: intros [unpacked [=]].
  assert (200 <= responseStatus response <= 599) as Hin by lia.
  destruct (isNullBodyStatus (responseStatus response)) eqn:Hnull;
    [destruct (defined (NewResponse.body responseInit)) eqn:Hdef|].
  - rewrite (Htype Hin eq_refl eq_refl).
    split; [intros unpacked [=]|]. split; [|split].
    + split; [discriminate|intros [Hout|Hout]; lia].
    + split; [intros _|reflexivity]. split; [exact Hin|]. split; [reflexivity|].
      apply Hset. reflexivity.
    + split; [intros [unpacked [=]]|]. intros (_ & [Hfree|Hfree]); [discriminate|].
      apply Hunset in Hfree. discriminate.
  - rewrite (Hreturn Hin (or_intror eq_refl)).
    split; [|split; [|split]].
    + intros unpacked [= <-]. cbn. split; [reflexivity|].
      destruct (NewResponse.body responseInit) as [[text|bytes|resolved]|];
        try discriminate Hdef.
      split; [exact Hbody|]. rewrite Hheaders'. apply entries_newHeaders.
    + split; [discriminate|intros [Hout|Hout]; lia].
    + split; [discriminate|]. intros (_ & _ & Hpos). apply Hset in Hpos. discriminate.
    + split; [intros _|eauto]. split; [exact Hin|]. right. apply Hunset. reflexivity.
  - rewrite (Hreturn Hin (or_introl eq_refl)).
    split; [|split; [|split]].
    + intros unpacked [= <-]. cbn. split; [reflexivity|].
      rewrite Hheaders'.
      destruct (NewResponse.body responseInit) as [[text|bytes|resolved]|];
        (split; [exact Hbody|]); try apply entries_newHeaders.
      rewrite get_newHeaders.
      destruct (defined (headersGet (responseHeaders response) "content-type")).
      * apply entries_newHeaders.
      * rewrite entries_newHeaders. reflexivity.
    + split; [discriminate|intros [Hout|Hout]; lia].
    + split; [discriminate|]. intros (_ & Hnull' & _). discriminate.
    + split; [intros _|eauto]. split; [exact Hin|]. left. reflexivity.
Qed.

End ResponseRoundtrip.

End PackingProperties.

(** ** The caller's side *)

Section FetchProperties.
Context `{HeadersApi}.
Variable Peer : Type.
Variable deliver : string -> Z -> Peer -> Completion ReadResult.t * Peer.
Variable deliverFetch : PackedRequest.t -> Peer -> Completion PackedResponse.t * Peer.

Lemma unpackResponse_rpc_returns (responseData : PackedResponse.t) :
  exists responseInit,
    unpackResponse responseData (rpcBodyResolver deliver) = Return responseInit.
Proof.
  unfold unpackResponse, rpcBodyResolver.
  destruct (PackedResponse.bodyText responseData); [eexists; reflexivity|].
  destruct (PackedResponse.bodyBytes responseData); [eexists; reflexivity|].
  destruct (PackedResponse.bodyId responseData); eexists; reflexivity.
Qed.

(** X6: the function made by [makeFetchOverRpc] throws what [packRequest]
    throws without sending anything, the registry and the channel being
    left as they were; otherwise it sends exactly one [fetch] request, with
    the packed request, and throws the error of an error reply unchanged.
    For any other reply, unpacking with the resolver over the channel does
    not throw before the constructor is called, and the call ends as
    [new Response] does: with a [RangeError] for a status outside 200..599,
    with a [TypeError] for a reply that has a body field set and a status
    204, 205 or 304, and otherwise with a response that has the status of
    the reply and the body that was unpacked. *)
Theorem makeFetchOverRpc_one_fetch
    (info : RequestInfo) (init : option RequestInit.t)
    (registry : Bodies) (channel : FetchChannel Peer) :
  (forall e registry',
      packRequest info init registry = (Throw e, registry') ->
      makeFetchOverRpc deliver deliverFetch info init registry channel
      = (Throw e, registry, channel)) /\
  (forall data registry',
      packRequest info init registry = (Return data, registry') ->
      snd (fst (makeFetchOverRpc deliver deliverFetch info init registry channel))
        = registry' /\
      fetchSent (snd (makeFetchOverRpc deliver deliverFetch info init registry channel))
        = fetchSent channel ++ [("fetch", data)] /\
      (forall e peer',
          deliverFetch data (fetchPeer channel) = (Throw e, peer') ->
          fst (fst (makeFetchOverRpc deliver deliverFetch info init registry channel))
          = Throw e) /\
      (forall responseData peer',
          deliverFetch data (fetchPeer channel) = (Return responseData, peer') ->
          exists responseInit,
            unpackResponse responseData (rpcBodyResolver deliver) = Return responseInit /\
            fst (fst (makeFetchOverRpc deliver deliverFetch info init registry channel))
            = newResponse responseInit /\
            (PackedResponse.status responseData < 200 \/
             599 < PackedResponse.status responseData ->
             newResponse responseInit = Throw RangeError) /\
            (200 <= PackedResponse.status responseData <= 599 ->
             isNullBodyStatus (PackedResponse.status responseData) = true ->
             (0 < setBodyFields responseData)%nat ->
             newResponse responseInit = Throw TypeError) /\
            (200 <= PackedResponse.status responseData <= 599 ->
             isNullBodyStatus (PackedResponse.status responseData) = false \/
             setBodyFields responseData = 0%nat ->
             exists response,
               newResponse responseInit = Return response /\
               ResponseObject.status response = PackedResponse.status responseData /\
               ResponseObject.body response = NewResponse.body responseInit))).
Proof.
  split.
  - intros e registry' Hpack. unfold makeFetchOverRpc. rewrite Hpack.
    rewrite (packRequest_throw_registry _ _ _ _ _ Hpack). reflexivity.
  - intros data registry' Hpack. unfold makeFetchOverRpc, sendFetch. rewrite Hpack.
    destruct (deliverFetch data (fetchPeer channel)) as [[responseData|e] peer'] eqn:Hreply;
      cbn [fst snd fetchSent]; (split; [reflexivity|]); (split; [reflexivity|]); split.
    + intros e peer'' [=].
    + intros responseData' peer'' [= <- <-].
      destruct (unpackResponse_rpc_returns responseData) as [responseInit Hunpack].
      exists responseInit. split; [exact Hunpack|].
      split; [cbn; rewrite Hunpack; reflexivity|].
      destruct (unpackResponse_fields _ _ _ Hunpack) as (Hstatus & _ & Hdefined).
      destruct (newResponse_outcome responseInit) as (Hrange & Htype & Hreturn).
      rewrite Hstatus in Hrange, Htype, Hreturn.
      split; [exact Hrange|]. split.
      * intros Hin Hnull Hset. apply Htype; [exact Hin|exact Hnull|].
        rewrite Hdefined. apply negb_true_iff, Nat.eqb_neq. lia.
      * intros Hin Hfree. eexists. split; [apply Hreturn; [exact Hin|]|].
        -- destruct Hfree as [Hnull|Hunset]; [left; exact Hnull|right].
           rewrite Hdefined, Hunset. reflexivity.
        -- cbn. split; reflexivity.
    + intros e' peer'' [= <- <-]. reflexivity.
    + intros responseData peer'' [=].
Qed.

End FetchProperties.

(** ** Tail keys *)

Lemma hyphen_not_account_char : isAccountChar "-" = false.
Proof. reflexivity. Qed.

Arguments isAccountChar : simpl never.
Arguments isScriptChar : simpl never.

Lemma append_associative (a b c : string) : (a +:+ b) +:+ c = a +:+ (b +:+ c).
Proof.
  induction a as [|x a IH]; [reflexivity|].
  change (String x ((a +:+ b) +:+ c) = String x (a +:+ (b +:+ c))).
  rewrite IH. reflexivity.
Qed.

Lemma takeAccount_run (account after : string) :
  allChars isAccountChar account = true ->
  (forall c rest, after = String c rest -> isAccountChar c = false) ->
  takeAccount (account +:+ after) = (account, after).
Proof.
  intros Hall Hstop. induction account as [|c account IH].
  - change (EmptyString +:+ after) with after.
    destruct after as [|c rest]; [reflexivity|].
    cbn [takeAccount]. rewrite (Hstop c rest eq_refl). reflexivity.
  - apply andb_true_iff in Hall as [Hc Hall].
    change (String c account +:+ after) with (String c (account +:+ after)).
    cbn [takeAccount]. rewrite Hc, (IH Hall). reflexivity.
Qed.

Lemma takeAccount_spec (s account after : string) :
  takeAccount s = (account, after) ->
  s = account +:+ after /\
  allChars isAccountChar account = true /\
  (forall c rest, after = String c rest -> isAccountChar c = false).
Proof.
  revert account after. induction s as [|c s IH]; intros account after; cbn.
  - intros [= <- <-]. repeat split. intros c rest [=].
  - destruct (isAccountChar c) eqn:Hc.
    + destruct (takeAccount s) as [run after'] eqn:Htake. intros [= <- <-].
      destruct (IH _ _ eq_refl) as (-> & Hall & Hstop).
      cbn. rewrite Hc, Hall. auto.
    + intros [= <- <-]. repeat split. intros c' rest [= <- <-]. exact Hc.
Qed.

(** X7: [unpackTailKey] returns the two parts of a key exactly when the key
    is an account part, a hyphen and a script part, the account part being
    non-empty with no white space and no hyphen, the script part non-empty
    with no white space; so a key made by [computeTailKey] from such parts
    unpacks to them. *)
Theorem unpackTailKey_computeTailKey (accountId scriptId : string) :
  nonEmpty accountId = true ->
  allChars isAccountChar accountId = true ->
  nonEmpty scriptId = true ->
  allChars isScriptChar scriptId = true ->
  unpackTailKey (computeTailKey accountId scriptId)
  = Return (TailKeyParts.mk accountId scriptId).
Proof.
  intros Ha HaChars Hs HsChars. unfold unpackTailKey, computeTailKey.
  rewrite (takeAccount_run accountId ("-" +:+ scriptId) HaChars).
  - change ("-" +:+ scriptId) with (String "-" scriptId). cbv beta iota.
    rewrite Ha, Hs, HsChars. reflexivity.
  - intros c rest [= <- _]. reflexivity.
Qed.

(** X8: whatever string it is given, [unpackTailKey] either throws the
    error [Bad tailKey] with that string, or returns parts from which
    [computeTailKey] rebuilds the string; the account part it returns is
    non-empty and has no hyphen and no white space, the script part is
    non-empty and has no white space. *)
Theorem unpackTailKey_total (tailKey : string) :
  unpackTailKey tailKey = Throw (Error ("Bad tailKey: " +:+ tailKey)) \/
  exists accountId scriptId,
    unpackTailKey tailKey = Return (TailKeyParts.mk accountId scriptId) /\
    computeTailKey accountId scriptId = tailKey /\
    nonEmpty accountId = true /\ allChars isAccountChar accountId = true /\
    nonEmpty scriptId = true /\ allChars isScriptChar scriptId = true.
Proof.
  unfold unpackTailKey.
  destruct (takeAccount tailKey) as [accountId after] eqn:Htake.
  destruct (takeAccount_spec _ _ _ Htake) as (Hkey & Hall & _).
  destruct after as [|c scriptId]; [left; reflexivity|].
  destruct (nonEmpty accountId && Ascii.eqb c "-"
            && nonEmpty scriptId && allChars isScriptChar scriptId) eqn:Htest;
    [|left; reflexivity].
  right. exists accountId, scriptId.
  repeat (apply andb_true_iff in Htest as [Htest ?]).
  apply Ascii.eqb_eq in H1. subst c. split; [reflexivity|].
  unfold computeTailKey. rewrite Hkey. auto.
Qed.

(** X9: the first hyphen of a key is the separator: a key made from an
    account identifier that itself holds a hyphen does not unpack to the
    parts it was made from, but to the text before that hyphen as the
    account and all the rest as the script. *)
Theorem unpackTailKey_first_hyphen (before after scriptId : string) :
  nonEmpty before = true ->
  allChars isAccountChar before = true ->
  allChars isScriptChar after = true ->
  allChars isScriptChar scriptId = true ->
  unpackTailKey (computeTailKey (before +:+ "-" +:+ after) scriptId)
  = Return (TailKeyParts.mk before (after +:+ "-" +:+ scriptId)).
Proof.
  intros Hb HbChars HaChars HsChars. unfold unpackTailKey, computeTailKey.
  replace ((before +:+ "-" +:+ after) +:+ "-" +:+ scriptId)
    with (before +:+ "-" +:+ (after +:+ "-" +:+ scriptId)).
  - rewrite (takeAccount_run before ("-" +:+ after +:+ "-" +:+ scriptId) HbChars).
    + change ("-" +:+ after +:+ "-" +:+ scriptId)
        with (String "-" (after +:+ "-" +:+ scriptId)).
      cbv beta iota. rewrite Hb.
      assert (allChars isScriptChar (after +:+ "-" +:+ scriptId) = true) as Hall.
      { clear -HaChars HsChars. induction after as [|c after IH].
        - exact HsChars.
        - apply andb_true_iff in HaChars as [Hc Hrest].
          change (isScriptChar c && allChars isScriptChar (after +:+ "-" +:+ scriptId)
                  = true).
          rewrite Hc, (IH Hrest). reflexivity. }
      rewrite Hall.
      assert (nonEmpty (after +:+ "-" +:+ scriptId) = true) as Hne
        by (destruct after; reflexivity).
      rewrite Hne. reflexivity.
    + intros c rest [= <- _]. reflexivity.
  - rewrite <- !append_associative. reflexivity.
Qed.

(** ** The tail controller *)

Lemma findRecord_getRecord (tailKey : string) (rs : list TailRecord.t) :
  getRecord tailKey rs = findRecord tailKey rs.
Proof. reflexivity. Qed.

Lemma findRecord_cons (k : string) (r : TailRecord.t) (rs : list TailRecord.t) :
  findRecord k (r :: rs)
  = if String.eqb (TailRecord.tailKey r) k then Some r else findRecord k rs.
Proof. reflexivity. Qed.

Lemma findRecord_update (k k' : string) (f : TailRecord.t -> TailRecord.t)
    (rs : list TailRecord.t) :
  (forall r, TailRecord.tailKey (f r) = TailRecord.tailKey r) ->
  findRecord k' (updateRecord k f rs)
  = if String.eqb k' k then f <$> findRecord k rs else findRecord k' rs.
Proof.
  intros Hf. induction rs as [|r rs IH]; [destruct (String.eqb k' k); reflexivity|].
  cbn [updateRecord]. rewrite !findRecord_cons.
  destruct (String.eqb_spec (TailRecord.tailKey r) k) as [Hrk|Hrk].
  - rewrite findRecord_cons, Hf, Hrk.
    destruct (String.eqb_spec k' k) as [->|Hne].
    + rewrite String.eqb_refl. reflexivity.
    + destruct (String.eqb_spec k k') as [Heq|_]; [congruence|reflexivity].
  - rewrite findRecord_cons.
    destruct (String.eqb_spec (TailRecord.tailKey r) k') as [Hrk'|Hrk'].
    + destruct (String.eqb_spec k' k) as [Heq|_]; [congruence|reflexivity].
    + exact IH.
Qed.

Lemma findRecord_app (k : string) (rs : list TailRecord.t) (r : TailRecord.t) :
  findRecord k (rs ++ [r])
  = match findRecord k rs with
    | Some found => Some found
    | None => if String.eqb (TailRecord.tailKey r) k then Some r else None
    end.
Proof.
  induction rs as [|x rs IH]; [reflexivity|].
  cbn [app]. rewrite !findRecord_cons.
  destruct (String.eqb (TailRecord.tailKey x) k); [reflexivity|exact IH].
Qed.

Lemma updateRecord_app_fresh (k : string) (f : TailRecord.t -> TailRecord.t)
    (rs : list TailRecord.t) (r : TailRecord.t) :
  findRecord k rs = None -> TailRecord.tailKey r = k ->
  updateRecord k f (rs ++ [r]) = rs ++ [f r].
Proof.
  intros Hnone Hkey. induction rs as [|x rs IH]; cbn [app updateRecord].
  - rewrite Hkey, String.eqb_refl. reflexivity.
  - rewrite findRecord_cons in Hnone.
    destruct (String.eqb (TailRecord.tailKey x) k); [discriminate|].
    rewrite (IH Hnone). reflexivity.
Qed.

Lemma updateRecord_keys (k : string) (f : TailRecord.t -> TailRecord.t)
    (rs : list TailRecord.t) :
  (forall r, TailRecord.tailKey (f r) = TailRecord.tailKey r) ->
  map TailRecord.tailKey (updateRecord k f rs) = map TailRecord.tailKey rs.
Proof.
  intros Hf. induction rs as [|r rs IH]; [reflexivity|].
  cbn [updateRecord]. destruct (String.eqb (TailRecord.tailKey r) k); cbn.
  - rewrite Hf. reflexivity.
  - rewrite IH. reflexivity.
Qed.

Lemma findRecord_key (k : string) (rs : list TailRecord.t) (r : TailRecord.t) :
  findRecord k rs = Some r -> TailRecord.tailKey r = k.
Proof.
  intros Hfind. apply find_some in Hfind as [_ Heq].
  apply String.eqb_eq, Heq.
Qed.

Lemma findRecord_known (k : string) (rs : list TailRecord.t) :
  is_Some (findRecord k rs) <-> k ∈ map TailRecord.tailKey rs.
Proof.
  induction rs as [|r rs IH]; cbn [map].
  - split; [intros [? [=]]|intros Hin; inversion Hin].
  - rewrite findRecord_cons, elem_of_cons.
    destruct (String.eqb_spec (TailRecord.tailKey r) k) as [->|Hne].
    + split; eauto.
    + rewrite IH. split; [auto|]. intros [Heq|Hin]; [congruence|exact Hin].
Qed.

Lemma stateOf_setState (k k' : string) (state : TailState) (rs : list TailRecord.t) :
  stateOf k' (updateRecord k (setState state) rs)
  = if String.eqb k' k
    then match stateOf k rs with Some _ => Some state | None => None end
    else stateOf k' rs.
Proof.
  unfold stateOf.
  rewrite (findRecord_update k k' (setState state) rs (fun r => eq_refl)).
  destruct (String.eqb k' k); [|reflexivity].
  destruct (findRecord k rs); reflexivity.
Qed.

Lemma connectionOf_setState (k k' : string) (state : TailState) (rs : list TailRecord.t) :
  connectionOf k' (updateRecord k (setState state) rs) = connectionOf k' rs.
Proof.
  unfold connectionOf.
  rewrite (findRecord_update k k' (setState state) rs (fun r => eq_refl)).
  destruct (String.eqb_spec k' k) as [->|_]; [|reflexivity].
  destruct (findRecord k rs); reflexivity.
Qed.

Lemma stopped_idem (state : option TailState) : stopped (stopped state) = stopped state.
Proof. destruct state; reflexivity. Qed.

Lemma started_keys (rs : list TailRecord.t) (k : string) :
  NoDup (map TailRecord.tailKey rs) ->
  k ∈ map TailRecord.tailKey (List.filter isStarted rs) <-> stateOf k rs = Some started.
Proof.
  induction rs as [|r rs IH]; intros Hnodup.
  - cbn. split; [intros Hin; inversion Hin|discriminate].
  - cbn [map] in Hnodup. apply NoDup_cons in Hnodup as [Hfresh Hnodup].
    unfold stateOf. rewrite findRecord_cons. cbn [List.filter].
    assert (forall x, x ∈ map TailRecord.tailKey (List.filter isStarted rs) ->
                      x ∈ map TailRecord.tailKey rs) as Hsub.
    { intros x. rewrite !list_elem_of_fmap. intros (y & -> & Hy).
      exists y. split; [reflexivity|].
      apply list_elem_of_In. apply list_elem_of_In, filter_In in Hy as [Hy _]. exact Hy. }
    destruct (String.eqb_spec (TailRecord.tailKey r) k) as [<-|Hne].
    + unfold isStarted at 1. cbn [fmap option_fmap option_map].
      destruct (decide (TailRecord.state r = started)) as [Hst|Hst].
      * rewrite bool_decide_eq_true_2 by exact Hst. cbn [map]. rewrite Hst.
        split; [reflexivity|]. intros _. left.
      * rewrite bool_decide_eq_false_2 by exact Hst.
        split; [intros Hin; exfalso; apply Hfresh, Hsub, Hin|].
        intros [= Heq]. contradiction.
    + fold (stateOf k rs). rewrite <- (IH Hnodup).
      destruct (isStarted r); [|reflexivity].
      cbn [map]. rewrite elem_of_cons. split; [intros [?|?]; [congruence|assumption]|auto].
Qed.

Section TailControllerProperties.
Variables Tail TailMessage ErrorInfo UnparsedMessage : Type.
Variable tailUrl : Tail -> string.
Variable createTail : nat -> string -> string -> string -> Completion Tail.
Variable now : nat -> Z.

Local Abbreviation Controller := (TailController Tail TailMessage ErrorInfo UnparsedMessage).

(** What one turn of the first loop does to the records, in each of its
    three cases. *)
Lemma startTail_existing (accountId apiToken scriptId : string) (self : Controller)
    (existing : TailRecord.t) :
  findRecord (computeTailKey accountId scriptId) (records self) = Some existing ->
  startTail tailUrl createTail now accountId apiToken scriptId self
  = (Return tt,
     dispatchTailsChanged
       (withRecords
          (updateRecord (computeTailKey accountId scriptId) (setState started)
             (records self)) self)).
Proof.
  intros Hfind. unfold startTail. rewrite findRecord_getRecord, Hfind. reflexivity.
Qed.

Lemma startTail_failed (accountId apiToken scriptId : string) (self : Controller)
    (e : JsError) :
  findRecord (computeTailKey accountId scriptId) (records self) = None ->
  createTail (length (created self)) accountId scriptId apiToken = Throw e ->
  startTail tailUrl createTail now accountId apiToken scriptId self
  = (Throw e,
     {| records := records self
          ++ [TailRecord.mk (computeTailKey accountId scriptId) starting None];
        called := called self ++ [OnTailCreating accountId scriptId];
        created := created self ++ [(accountId, scriptId, apiToken)];
        clockReads := S (clockReads self) |}).
Proof.
  intros Hfind Hcreate. unfold startTail. rewrite findRecord_getRecord, Hfind.
  cbn. rewrite Hcreate. reflexivity.
Qed.

Lemma startTail_created (accountId apiToken scriptId : string) (self : Controller)
    (tail : Tail) :
  findRecord (computeTailKey accountId scriptId) (records self) = None ->
  createTail (length (created self)) accountId scriptId apiToken = Return tail ->
  exists connection,
    cnRecord connection = computeTailKey accountId scriptId /\
    cnUrl connection = tailUrl tail /\
    startTail tailUrl createTail now accountId apiToken scriptId self
    = (Return tt,
       dispatchTailsChanged
         {| records := records self
              ++ [TailRecord.mk (computeTailKey accountId scriptId) started
                    (Some connection)];
            called := called self
              ++ [OnTailCreating accountId scriptId;
                  OnTailCreated accountId scriptId
                    (now (S (clockReads self)) - now (clockReads self)) tail];
            created := created self ++ [(accountId, scriptId, apiToken)];
            clockReads := S (S (S (clockReads self))) |}).
Proof.
  intros Hfind Hcreate. unfold startTail. rewrite findRecord_getRecord, Hfind.
  cbn. rewrite Hcreate. cbn.
  exists {| cnUrl := tailUrl tail; cnAccountId := accountId; cnScriptId := scriptId;
            cnOpeningTime := now (S (S (clockReads self)));
            cnRecord := computeTailKey accountId scriptId |}.
  split; [reflexivity|]. split; [reflexivity|]. f_equal. f_equal.
  unfold withRecords. cbn. f_equal.
  - rewrite updateRecord_app_fresh; [reflexivity|exact Hfind|reflexivity].
  - rewrite <- app_assoc. reflexivity.
Qed.

Lemma setState_key (state : TailState) (r : TailRecord.t) :
  TailRecord.tailKey (setState state r) = TailRecord.tailKey r.
Proof. reflexivity. Qed.

Lemma dispatchTailsChanged_last (self : Controller) :
  last (called (dispatchTailsChanged self))
  = Some (OnTailsChanged
            (map TailRecord.tailKey
               (List.filter isStarted (records (dispatchTailsChanged self))))).
Proof. cbn. apply last_snoc. Qed.

Lemma startTail_turn (accountId apiToken scriptId : string) (self self' : Controller) :
  startTail tailUrl createTail now accountId apiToken scriptId self = (Return tt, self') ->
  Turn (computeTailKey accountId scriptId) (accountId, scriptId, apiToken) self self'.
Proof.
  intros Hstart.
  destruct (findRecord (computeTailKey accountId scriptId) (records self))
    as [existing|] eqn:Hfind.
  - rewrite (startTail_existing _ _ _ _ _ Hfind) in Hstart.
    injection Hstart as <-. split.
    + intros k. unfold stateOf. cbn [records dispatchTailsChanged emit withRecords].
      rewrite (findRecord_update _ _ _ _ (setState_key started)), Hfind.
      destruct (String.eqb k (computeTailKey accountId scriptId)); reflexivity.
    + intros k Hknown. unfold connectionOf. cbn [records dispatchTailsChanged emit withRecords].
      rewrite (findRecord_update _ _ _ _ (setState_key started)), Hfind.
      destruct (String.eqb_spec k (computeTailKey accountId scriptId)) as [->|_];
        [rewrite Hfind|]; reflexivity.
    + cbn [records dispatchTailsChanged emit withRecords].
      rewrite Hfind, (updateRecord_keys _ _ _ (setState_key started)), app_nil_r.
      reflexivity.
    + cbn [created dispatchTailsChanged emit withRecords].
      rewrite Hfind, app_nil_r. reflexivity.
    + apply dispatchTailsChanged_last.
  - destruct (createTail (length (created self)) accountId scriptId apiToken)
      as [tail|e] eqn:Hcreate.
    + destruct (startTail_created _ _ _ _ _ Hfind Hcreate) as (cn & _ & _ & Heq).
      rewrite Heq in Hstart. injection Hstart as <-. split.
      * intros k. unfold stateOf. cbn [records dispatchTailsChanged emit withRecords].
        rewrite findRecord_app. cbn [TailRecord.tailKey].
        destruct (String.eqb_spec k (computeTailKey accountId scriptId)) as [->|Hne].
        -- rewrite Hfind, String.eqb_refl. reflexivity.
        -- destruct (findRecord k (records self)); [reflexivity|].
           destruct (String.eqb_spec (computeTailKey accountId scriptId) k);
             [congruence|reflexivity].
      * intros k [found Hfound]. unfold connectionOf. cbn [records dispatchTailsChanged emit withRecords].
        rewrite findRecord_app, Hfound. reflexivity.
      * cbn [records dispatchTailsChanged emit withRecords].
        rewrite Hfind, map_app. reflexivity.
      * cbn [created dispatchTailsChanged emit withRecords]. rewrite Hfind. reflexivity.
      * apply dispatchTailsChanged_last.
    + rewrite (startTail_failed _ _ _ _ _ Hfind Hcreate) in Hstart. discriminate.
Qed.

Lemma startTails_nil (accountId apiToken : string) (stopKeys : list string)
    (self : Controller) :
  startTails tailUrl createTail now accountId apiToken [] stopKeys self
  = (Return stopKeys, self).
Proof. reflexivity. Qed.

Lemma startTails_cons (accountId apiToken scriptId : string) (rest stopKeys : list string)
    (self : Controller) :
  startTails tailUrl createTail now accountId apiToken (scriptId :: rest) stopKeys self
  = match startTail tailUrl createTail now accountId apiToken scriptId self with
    | (Throw e, self') => (Throw e, self')
    | (Return _, self') =>
        startTails tailUrl createTail now accountId apiToken rest
          (List.filter (fun k => negb (String.eqb k (computeTailKey accountId scriptId)))
             stopKeys) self'
    end.
Proof. reflexivity. Qed.

(** The first loop, when it runs to its end. *)
Lemma startTails_run (accountId apiToken : string) (scriptIds : list string) :
  forall (stopKeys stopKeys' : list string) (self self' : Controller),
    startTails tailUrl createTail now accountId apiToken scriptIds stopKeys self
    = (Return stopKeys', self') ->
    (forall k,
        stateOf k (records self')
        = if bool_decide (k ∈ tailKeys accountId scriptIds) then Some started
          else stateOf k (records self)) /\
    (forall k,
        is_Some (findRecord k (records self)) ->
        connectionOf k (records self') = connectionOf k (records self)) /\
    (forall k, k ∈ stopKeys' <-> k ∈ stopKeys /\ k ∉ tailKeys accountId scriptIds) /\
    created self'
    = created self
      ++ map (fun scriptId => (accountId, scriptId, apiToken))
           (newScripts accountId scriptIds (map TailRecord.tailKey (records self))) /\
    (scriptIds <> [] ->
     last (called self')
     = Some (OnTailsChanged
               (map TailRecord.tailKey (List.filter isStarted (records self'))))) /\
    (scriptIds = [] -> self' = self).
Proof.
  induction scriptIds as [|scriptId rest IH]; intros stopKeys stopKeys' self self'.
  - rewrite startTails_nil. intros [= <- <-].
    split; [|split; [|split; [|split; [|split]]]].
    + intros k. rewrite bool_decide_eq_false_2 by apply not_elem_of_nil. reflexivity.
    + reflexivity.
    + intros k. split; [intros Hin; split; [exact Hin|apply not_elem_of_nil]|].
      intros [Hin _]. exact Hin.
    + cbn. rewrite app_nil_r. reflexivity.
    + intros Hne. contradiction.
    + reflexivity.
  - rewrite startTails_cons.
    destruct (startTail tailUrl createTail now accountId apiToken scriptId self)
      as [[[]|e] self1] eqn:Hstart; [|discriminate].
    intros Hrest. apply startTail_turn in Hstart as [Hstate Hconn Hkeys Hcreated Hlast].
    destruct (IH _ _ _ _ Hrest) as (IHstate & IHconn & IHstop & IHcreated & IHlast & IHnil).
    split; [|split; [|split; [|split; [|split]]]].
    + intros k. rewrite IHstate, Hstate. unfold tailKeys. cbn [map].
      destruct (String.eqb_spec k (computeTailKey accountId scriptId)) as [->|Hne].
      * rewrite (bool_decide_eq_true_2 (_ ∈ _ :: _)) by (left).
        destruct (bool_decide _); reflexivity.
      * destruct (bool_decide (k ∈ map (computeTailKey accountId) rest)) eqn:Hin.
        -- apply bool_decide_eq_true_1 in Hin.
           rewrite bool_decide_eq_true_2 by (right; exact Hin). reflexivity.
        -- apply bool_decide_eq_false_1 in Hin.
           rewrite bool_decide_eq_false_2; [reflexivity|].
           rewrite elem_of_cons. intros [?|?]; contradiction.
    + intros k Hknown. rewrite IHconn, Hconn; [reflexivity|exact Hknown|].
      apply findRecord_known. rewrite Hkeys. apply elem_of_app. left.
      apply findRecord_known, Hknown.
    + intros k. rewrite IHstop. unfold tailKeys. cbn [map].
      rewrite list_elem_of_In, filter_In, <- list_elem_of_In, elem_of_cons.
      rewrite negb_true_iff.
      destruct (String.eqb_spec k (computeTailKey accountId scriptId)) as [->|Hne].
      * split; [intros [[_ [=]] _]|intros [_ Hno]; exfalso; apply Hno; left; reflexivity].
      * split; [intros [[Hin _] Hno]|intros [Hin Hno]].
        -- split; [exact Hin|]. intros [?|?]; contradiction.
        -- split; [split; [exact Hin|reflexivity]|]. intros ?. apply Hno. right. assumption.
    + rewrite IHcreated, Hcreated, Hkeys. cbn [newScripts].
      destruct (findRecord (computeTailKey accountId scriptId) (records self))
        as [found|] eqn:Hfind.
      * rewrite bool_decide_eq_true_2
          by (apply findRecord_known; rewrite Hfind; eauto).
        rewrite !app_nil_r. reflexivity.
      * rewrite bool_decide_eq_false_2.
        -- cbn [map]. rewrite <- app_assoc. reflexivity.
        -- intros Hin. apply findRecord_known in Hin as [? Hsome]. congruence.
    + intros _. destruct rest as [|next rest'].
      * rewrite (IHnil eq_refl). exact Hlast.
      * apply IHlast. discriminate.
    + discriminate.
Qed.

Lemma stopTails_run (stopKeys : list string) :
  forall self : Controller,
    (forall k,
        stateOf k (records (stopTails stopKeys self))
        = if bool_decide (k ∈ stopKeys) then stopped (stateOf k (records self))
          else stateOf k (records self)) /\
    (forall k,
        connectionOf k (records (stopTails stopKeys self)) = connectionOf k (records self)) /\
    created (stopTails stopKeys self) = created self /\
    (stopKeys <> [] ->
     last (called (stopTails stopKeys self))
     = Some (OnTailsChanged
               (map TailRecord.tailKey
                  (List.filter isStarted (records (stopTails stopKeys self)))))) /\
    (stopKeys = [] -> stopTails stopKeys self = self).
Proof.
  induction stopKeys as [|stopKey rest IH]; intros self.
  - split; [|split; [|split; [|split]]].
    + intros k. rewrite bool_decide_eq_false_2 by apply not_elem_of_nil. reflexivity.
    + reflexivity.
    + reflexivity.
    + intros Hne. contradiction.
    + reflexivity.
  - cbn [stopTails].
    destruct (IH (dispatchTailsChanged
                    (withRecords (updateRecord stopKey (setState stopping) (records self))
                       self)))
      as (IHstate & IHconn & IHcreated & IHlast & IHnil).
    split; [|split; [|split; [|split]]].
    + intros k. rewrite IHstate.
      cbn [records dispatchTailsChanged emit withRecords].
      rewrite stateOf_setState.
      destruct (String.eqb_spec k stopKey) as [->|Hne].
      * rewrite (bool_decide_eq_true_2 (_ ∈ _ :: _)) by (left).
        fold (stopped (stateOf stopKey (records self))).
        rewrite stopped_idem. destruct (bool_decide _); reflexivity.
      * destruct (bool_decide (k ∈ rest)) eqn:Hin.
        -- apply bool_decide_eq_true_1 in Hin.
           rewrite bool_decide_eq_true_2 by (right; exact Hin). reflexivity.
        -- apply bool_decide_eq_false_1 in Hin.
           rewrite bool_decide_eq_false_2; [reflexivity|].
           rewrite elem_of_cons. intros [?|?]; contradiction.
    + intros k. rewrite IHconn.
      cbn [records dispatchTailsChanged emit withRecords].
      apply connectionOf_setState.
    + rewrite IHcreated. reflexivity.
    + intros _. destruct rest as [|next rest'].
      * rewrite (IHnil eq_refl). apply dispatchTailsChanged_last.
      * apply IHlast. discriminate.
    + discriminate.
Qed.

Lemma startTails_app (accountId apiToken : string) (done rest : list string) :
  forall (stopKeys : list string) (self : Controller),
    startTails tailUrl createTail now accountId apiToken (done ++ rest) stopKeys self
    = match startTails tailUrl createTail now accountId apiToken done stopKeys self with
      | (Throw e, self1) => (Throw e, self1)
      | (Return stopKeys1, self1) =>
          startTails tailUrl createTail now accountId apiToken rest stopKeys1 self1
      end.
Proof.
  induction done as [|scriptId done IH]; intros stopKeys self; [reflexivity|].
  cbn [app]. rewrite !startTails_cons.
  destruct (startTail tailUrl createTail now accountId apiToken scriptId self)
    as [[[]|e] self1]; [apply IH|reflexivity].
Qed.

Lemma startTails_NoDup (accountId apiToken : string) (scriptIds : list string) :
  forall (stopKeys stopKeys' : list string) (self self' : Controller),
    startTails tailUrl createTail now accountId apiToken scriptIds stopKeys self
    = (Return stopKeys', self') ->
    NoDup (map TailRecord.tailKey (records self)) ->
    NoDup (map TailRecord.tailKey (records self')).
Proof.
  induction scriptIds as [|scriptId rest IH]; intros stopKeys stopKeys' self self'.
  - rewrite startTails_nil. intros [= <- <-]. auto.
  - rewrite startTails_cons.
    destruct (startTail tailUrl createTail now accountId apiToken scriptId self)
      as [[[]|e] self1] eqn:Hstart; [|discriminate].
    intros Hrest Hnodup. apply (IH _ _ _ _ Hrest).
    apply startTail_turn in Hstart as [_ _ Hkeys _ _]. rewrite Hkeys.
    destruct (findRecord (computeTailKey accountId scriptId) (records self)) eqn:Hfind.
    + rewrite app_nil_r. exact Hnodup.
    + apply NoDup_app. split; [exact Hnodup|]. split; [|apply NoDup_singleton].
      intros k Hin Hnew. apply list_elem_of_singleton in Hnew. subst k.
      apply findRecord_known in Hin as [? Hsome]. congruence.
Qed.

Lemma stopTails_keys (stopKeys : list string) :
  forall self : Controller,
    map TailRecord.tailKey (records (stopTails stopKeys self))
    = map TailRecord.tailKey (records self).
Proof.
  induction stopKeys as [|stopKey rest IH]; intros self; [reflexivity|].
  cbn [stopTails]. rewrite IH. cbn [records dispatchTailsChanged emit withRecords].
  apply updateRecord_keys. reflexivity.
Qed.

(** The states after a call of [setTails] that returns. *)
Lemma setTails_stateOf (accountId apiToken : string) (scriptIds : list string)
    (self self' : Controller) :
  setTails tailUrl createTail now accountId apiToken scriptIds self = (Return tt, self') ->
  forall k,
    stateOf k (records self')
    = if bool_decide (k ∈ tailKeys accountId scriptIds) then Some started
      else stopped (stateOf k (records self)).
Proof.
  unfold setTails.
  destruct (startTails tailUrl createTail now accountId apiToken scriptIds
              (map TailRecord.tailKey (records self)) self)
    as [[stopKeys'|e] self1] eqn:Hstart; [|discriminate].
  intros [= <-] k.
  destruct (startTails_run _ _ _ _ _ _ _ Hstart) as (Hstate & _ & Hstop & _).
  destruct (stopTails_run stopKeys' self1) as (Hstopped & _).
  rewrite Hstopped, Hstate.
  destruct (bool_decide (k ∈ tailKeys accountId scriptIds)) eqn:Htarget.
  - apply bool_decide_eq_true_1 in Htarget.
    rewrite bool_decide_eq_false_2; [reflexivity|].
    rewrite Hstop. intros [_ Hno]. contradiction.
  - apply bool_decide_eq_false_1 in Htarget.
    destruct (decide (k ∈ map TailRecord.tailKey (records self))) as [Hknown|Hnew].
    + rewrite bool_decide_eq_true_2 by (apply Hstop; auto). reflexivity.
    + rewrite bool_decide_eq_false_2 by (rewrite Hstop; intros [? _]; contradiction).
      unfold stateOf.
      destruct (findRecord k (records self)) as [found|] eqn:Hfind; [|reflexivity].
      exfalso. apply Hnew, findRecord_known. rewrite Hfind. eauto.
Qed.

Lemma setTails_connectionOf (accountId apiToken : string) (scriptIds : list string)
    (self self' : Controller) :
  setTails tailUrl createTail now accountId apiToken scriptIds self = (Return tt, self') ->
  forall k,
    is_Some (findRecord k (records self)) ->
    connectionOf k (records self') = connectionOf k (records self).
Proof.
  unfold setTails.
  destruct (startTails tailUrl createTail now accountId apiToken scriptIds
              (map TailRecord.tailKey (records self)) self)
    as [[stopKeys'|e] self1] eqn:Hstart; [|discriminate].
  intros [= <-] k Hknown.
  destruct (startTails_run _ _ _ _ _ _ _ Hstart) as (_ & Hconn & _).
  destruct (stopTails_run stopKeys' self1) as (_ & Hsame & _).
  rewrite Hsame. apply Hconn, Hknown.
Qed.

(** X10: when [setTails] returns, the tails of the scripts it was given
    are started and every other tail the controller knew is stopping:
    whatever their state was before, and no record is ever removed. *)
Theorem setTails_started_and_stopping (accountId apiToken : string)
    (scriptIds : list string) (self self' : Controller) :
  setTails tailUrl createTail now accountId apiToken scriptIds self = (Return tt, self') ->
  forall k,
    stateOf k (records self')
    = if bool_decide (k ∈ tailKeys accountId scriptIds) then Some started
      else stopped (stateOf k (records self)).
Proof. exact (setTails_stateOf accountId apiToken scriptIds self self'). Qed.

(** X11: when [setTails] returns, having been given a script or knowing a
    tail, the last call it made on the callbacks is [onTailsChanged], with
    the keys of the records that are then started; the keys of a controller
    being distinct, these are exactly the keys of the scripts it was
    given. *)
Theorem setTails_last_callback (accountId apiToken : string)
    (scriptIds : list string) (self self' : Controller) :
  setTails tailUrl createTail now accountId apiToken scriptIds self = (Return tt, self') ->
  scriptIds <> [] \/ records self <> [] ->
  NoDup (map TailRecord.tailKey (records self)) ->
  exists tailKeys',
    last (called self') = Some (OnTailsChanged tailKeys') /\
    tailKeys' = map TailRecord.tailKey (List.filter isStarted (records self')) /\
    forall k, k ∈ tailKeys' <-> k ∈ tailKeys accountId scriptIds.
Proof.
  intros Hset Hsome Hnodup. pose proof (setTails_stateOf _ _ _ _ _ Hset) as Hstate.
  unfold setTails in Hset.
  destruct (startTails tailUrl createTail now accountId apiToken scriptIds
              (map TailRecord.tailKey (records self)) self)
    as [[stopKeys'|e] self1] eqn:Hstart; [|discriminate].
  injection Hset as <-.
  destruct (startTails_run _ _ _ _ _ _ _ Hstart) as (_ & _ & Hstop & _ & Hlast & Hnil).
  destruct (stopTails_run stopKeys' self1) as (_ & _ & _ & Hlast' & Hnil').
  eexists. split; [|split; [reflexivity|]].
  - destruct stopKeys' as [|stopKey rest].
    + rewrite (Hnil' eq_refl). apply Hlast.
      destruct Hsome as [Hids|Hrecords]; [exact Hids|].
      intros ->. rewrite (Hnil eq_refl) in *.
      destruct (records self) as [|r rs]; [contradiction|].
      assert (TailRecord.tailKey r ∈ @nil string) as Hin; [|inversion Hin].
      apply Hstop. split; [left|]. apply not_elem_of_nil.
    + apply Hlast'. discriminate.
  - intros k. rewrite started_keys.
    + rewrite Hstate. destruct (bool_decide (k ∈ tailKeys accountId scriptIds)) eqn:Hin.
      * apply bool_decide_eq_true_1 in Hin. split; auto.
      * apply bool_decide_eq_false_1 in Hin.
        split; [|contradiction].
        destruct (stateOf k (records self)); discriminate.
    + rewrite stopTails_keys. apply (startTails_NoDup _ _ _ _ _ _ _ Hstart Hnodup).
Qed.

(** X12: [setTails] calls [createTail] exactly for the scripts it was given
    that have no record when their turn comes, in their order, and for no
    script that has one; and it leaves the connection of every record it
    already had as it is: a tail that is stopped keeps its connection, and
    a tail that is started again gets no new one. *)
Theorem setTails_creates_only_new (accountId apiToken : string)
    (scriptIds : list string) (self self' : Controller) :
  setTails tailUrl createTail now accountId apiToken scriptIds self = (Return tt, self') ->
  created self'
  = created self
    ++ map (fun scriptId => (accountId, scriptId, apiToken))
         (newScripts accountId scriptIds (map TailRecord.tailKey (records self))) /\
  forall k,
    is_Some (findRecord k (records self)) ->
    connectionOf k (records self') = connectionOf k (records self).
Proof.
  intros Hset. split; [|exact (setTails_connectionOf _ _ _ _ _ Hset)].
  unfold setTails in Hset.
  destruct (startTails tailUrl createTail now accountId apiToken scriptIds
              (map TailRecord.tailKey (records self)) self)
    as [[stopKeys'|e] self1] eqn:Hstart; [|discriminate].
  injection Hset as <-.
  destruct (startTails_run _ _ _ _ _ _ _ Hstart) as (_ & _ & _ & Hcreated & _).
  destruct (stopTails_run stopKeys' self1) as (_ & _ & Hsame & _).
  rewrite Hsame. exact Hcreated.
Qed.

(** X13: after [setTails] has returned, a tail message of a connection is
    passed on to the callbacks exactly when the connection belongs to one
    of the scripts that call was given; a message of any other connection
    is dropped, and nothing else happens. *)
Theorem tail_messages_only_when_started (accountId apiToken : string)
    (scriptIds : list string) (self self' : Controller)
    (cn : TailConnection) (timeStamp : Z) (message : TailMessage) :
  setTails tailUrl createTail now accountId apiToken scriptIds self = (Return tt, self') ->
  connectionCallback now cn (GotTailMessage timeStamp message) self'
  = if bool_decide (cnRecord cn ∈ tailKeys accountId scriptIds)
    then emit (OnTailConnectionMessage (cnAccountId cn) (cnScriptId cn) timeStamp message)
           self'
    else self'.
Proof.
  intros Hset. pose proof (setTails_stateOf _ _ _ _ _ Hset (cnRecord cn)) as Hstate.
  unfold connectionCallback. rewrite findRecord_getRecord.
  remember (stateOf (cnRecord cn) (records self)) as before eqn:Hbefore.
  unfold stateOf in Hstate.
  destruct (findRecord (cnRecord cn) (records self')) as [record|];
    destruct (bool_decide (cnRecord cn ∈ tailKeys accountId scriptIds));
    destruct before as [old|];
    cbn in Hstate; try discriminate; try reflexivity.
  - injection Hstate as Hst. unfold isStarted.
    rewrite bool_decide_eq_true_2 by exact Hst. reflexivity.
  - injection Hstate as Hst. unfold isStarted.
    rewrite bool_decide_eq_true_2 by exact Hst. reflexivity.
  - injection Hstate as Hst. unfold isStarted.
    rewrite bool_decide_eq_false_2 by (rewrite Hst; discriminate).
    reflexivity.
Qed.

(** X14: when [createTail] fails for a script that has no record, after
    the scripts before it were started, [setTails] throws that error at
    once: the record just made stays behind in the state [starting] with no
    connection, [onTailCreating] is the last callback, and no tail is
    stopped.  The next [setTails] that is given the script and returns
    finds that record, marks it started and leaves it without a
    connection. *)
Theorem setTails_failed_creation (accountId apiToken scriptId : string)
    (done rest : list string) (self self1 : Controller)
    (stopKeys1 : list string) (e : JsError) :
  startTails tailUrl createTail now accountId apiToken done
    (map TailRecord.tailKey (records self)) self = (Return stopKeys1, self1) ->
  findRecord (computeTailKey accountId scriptId) (records self1) = None ->
  createTail (length (created self1)) accountId scriptId apiToken = Throw e ->
  setTails tailUrl createTail now accountId apiToken (done ++ scriptId :: rest) self
  = (Throw e,
     {| records := records self1
          ++ [TailRecord.mk (computeTailKey accountId scriptId) starting None];
        called := called self1 ++ [OnTailCreating accountId scriptId];
        created := created self1 ++ [(accountId, scriptId, apiToken)];
        clockReads := S (clockReads self1) |}) /\
  forall (apiToken' : string) (scriptIds' : list string) (later later' : Controller),
    stateOf (computeTailKey accountId scriptId) (records later) = Some starting ->
    connectionOf (computeTailKey accountId scriptId) (records later) = None ->
    scriptId ∈ scriptIds' ->
    setTails tailUrl createTail now accountId apiToken' scriptIds' later
    = (Return tt, later') ->
    stateOf (computeTailKey accountId scriptId) (records later') = Some started /\
    connectionOf (computeTailKey accountId scriptId) (records later') = None.
Proof.
  intros Hdone Hfind Hcreate. split.
  - unfold setTails. rewrite startTails_app, Hdone, startTails_cons.
    rewrite (startTail_failed _ _ _ _ _ Hfind Hcreate). reflexivity.
  - intros apiToken' scriptIds' later later' Hstate Hconn Hin Hset. split.
    + rewrite (setTails_stateOf _ _ _ _ _ Hset).
      rewrite bool_decide_eq_true_2; [reflexivity|].
      unfold tailKeys. apply list_elem_of_fmap. eauto.
    + rewrite (setTails_connectionOf _ _ _ _ _ Hset); [exact Hconn|].
      unfold stateOf in Hstate.
      destruct (findRecord (computeTailKey accountId scriptId) (records later));
        [eauto|discriminate].
Qed.

End TailControllerProperties.

(** ** The further properties on concrete inputs *)

Lemma packing_keeps_registered_bodies_witness :
  1 <> nextBodyId oneBody /\
  source (snd (packResponse fiveMegabytes streamedResponse oneBody)) 1 = source oneBody 1.
Proof.
  assert (1 <> nextBodyId oneBody) as Hne by (vm_compute; discriminate).
  split; [exact Hne|].
  exact (proj1 (@packing_keeps_registered_bodies ListHeaders fiveMegabytes oneBody)
           streamedResponse 1 Hne).
Defined.

Lemma packRequest_body_by_reference_witness :
  Request.body uploadRequest = Some threeChunks /\
  exists bodies',
    packRequest (InfoRequest uploadRequest) None newBodies
    = (Return (PackedRequest.mk "POST" "https://example.test/upload"
                 [("content-type", "text/plain")] (Some 1)), bodies') /\
    pulls 4 1 bodies'
    = ([chunkResult abc; chunkResult de; chunkResult abc; doneResult], released 1 bodies').
Proof.
  split; [reflexivity|].
  destruct (@packRequest_body_by_reference ListHeaders demoUrlParser [] uploadRequest
              threeChunks eq_refl)
    as (bodies' & Hpack & Hpulls & _).
  exists bodies'. split; [exact Hpack|exact Hpulls].
Defined.

Lemma ListHeaders_get_newHeaders (headers : @Headers ListHeaders) (name : string) :
  @headersGet ListHeaders (@newHeaders ListHeaders (@headersEntries ListHeaders headers)) name
  = @headersGet ListHeaders headers name.
Proof.
  cbn. induction headers as [|[key value] rest IH]; [reflexivity|].
  cbn. rewrite lowerCase_idem.
  destruct (String.eqb (lowerCase key) (lowerCase name)); [reflexivity|exact IH].
Qed.

Lemma pack_unpack_response_witness :
  packResponse fiveMegabytes smallResponse newBodies
  = (Return (PackedResponse.mk 200 [("content-length", "3")] None None (Some abc)),
     newBodies) /\
  unpackResponse (H := ListHeaders)
    (PackedResponse.mk 200 [("content-length", "3")] None None (Some abc)) failingResolver
  = Return (@NewResponse.mk ListHeaders ReadableStream (Some (BytesBody abc)) 200
              [("content-length", "3")]) /\
  exists unpacked,
    newResponse (@NewResponse.mk ListHeaders ReadableStream (Some (BytesBody abc)) 200
                   [("content-length", "3")])
    = Return unpacked.
Proof.
  split; [reflexivity|]. split; [reflexivity|].
  apply (proj2 (proj2 (proj2 (@pack_unpack_response ListHeaders fiveMegabytes
                                ListHeaders_entries_newHeaders ListHeaders_get_newHeaders
                                ReadableStream smallResponse newBodies newBodies _
                                failingResolver _ eq_refl eq_refl)))).
  split; [cbn; lia|left; reflexivity].
Defined.

Lemma makeFetchOverRpc_one_fetch_witness :
  packRequest (H := ListHeaders) (InfoUrl "https://example.test/x") (Some initWithBody)
    newBodies
  = (Throw (Error "packRequest: init.body"), newBodies) /\
  makeFetchOverRpc (H := ListHeaders) registryPeer echoFetch
    (InfoUrl "https://example.test/x") (Some initWithBody) newBodies
    {| fetchSent := []; fetchPeer := newBodies |}
  = (Throw (Error "packRequest: init.body"), newBodies,
     {| fetchSent := []; fetchPeer := newBodies |}).
Proof.
  split; [reflexivity|].
  exact (proj1 (@makeFetchOverRpc_one_fetch ListHeaders Bodies registryPeer echoFetch
                  (InfoUrl "https://example.test/x") (Some initWithBody) newBodies
                  {| fetchSent := []; fetchPeer := newBodies |})
           _ newBodies eq_refl).
Defined.

Lemma unpackTailKey_computeTailKey_witness :
  nonEmpty "abc123" = true /\ allChars isAccountChar "abc123" = true /\
  nonEmpty "my-script" = true /\ allChars isScriptChar "my-script" = true /\
  unpackTailKey "abc123-my-script" = Return (TailKeyParts.mk "abc123" "my-script").
Proof.
  repeat (split; [reflexivity|]).
  exact (unpackTailKey_computeTailKey "abc123" "my-script"
           eq_refl eq_refl eq_refl eq_refl).
Defined.

Lemma unpackTailKey_first_hyphen_witness :
  nonEmpty "a" = true /\ allChars isAccountChar "a" = true /\
  allChars isScriptChar "b" = true /\ allChars isScriptChar "c" = true /\
  unpackTailKey (computeTailKey "a-b" "c") = Return (TailKeyParts.mk "a" "b-c").
Proof.
  repeat (split; [reflexivity|]).
  exact (unpackTailKey_first_hyphen "a" "b" "c" eq_refl eq_refl eq_refl eq_refl).
Defined.

Lemma setTails_started_and_stopping_witness :
  demoSetTails ["b"] afterAB = (Return tt, afterB) /\
  stateOf "acct-a" (records afterB) = Some stopping /\
  stateOf "acct-b" (records afterB) = Some started.
Proof.
  assert (demoSetTails ["b"] afterAB = (Return tt, afterB)) as Hset by reflexivity.
  split; [exact Hset|]. split.
  - exact (setTails_started_and_stopping _ _ _ _ _ _ _ _ _ _ _ _ Hset "acct-a").
  - exact (setTails_started_and_stopping _ _ _ _ _ _ _ _ _ _ _ _ Hset "acct-b").
Defined.

Lemma setTails_last_callback_witness :
  demoSetTails ["b"] afterAB = (Return tt, afterB) /\
  (["b"] <> [] \/ records afterAB <> []) /\
  NoDup (map TailRecord.tailKey (records afterAB)) /\
  exists tailKeys',
    last (called afterB) = Some (OnTailsChanged tailKeys') /\
    tailKeys' = map TailRecord.tailKey (List.filter isStarted (records afterB)) /\
    forall k, k ∈ tailKeys' <-> k ∈ tailKeys "acct" ["b"].
Proof.
  assert (demoSetTails ["b"] afterAB = (Return tt, afterB)) as Hset by reflexivity.
  assert (["b"] <> [] \/ records afterAB <> []) as Hsome by (left; discriminate).
  assert (NoDup (map TailRecord.tailKey (records afterAB))) as Hnodup.
  { change (NoDup ["acct-a"; "acct-b"]).
    repeat (apply NoDup_cons; split; [rewrite ?elem_of_cons, ?elem_of_nil; intuition discriminate|]).
    apply NoDup_nil_2. }
  split; [exact Hset|]. split; [exact Hsome|]. split; [exact Hnodup|].
  exact (setTails_last_callback _ _ _ _ _ _ _ _ _ _ _ _ Hset Hsome Hnodup).
Defined.

Lemma setTails_creates_only_new_witness :
  demoSetTails ["b"] afterAB = (Return tt, afterB) /\
  created afterB = created afterAB /\
  connectionOf "acct-a" (records afterB) = connectionOf "acct-a" (records afterAB).
Proof.
  assert (demoSetTails ["b"] afterAB = (Return tt, afterB)) as Hset by reflexivity.
  split; [exact Hset|].
  destruct (setTails_creates_only_new _ _ _ _ _ _ _ _ _ _ _ _ Hset) as [Hcreated Hconn].
  split.
  - rewrite Hcreated. reflexivity.
  - apply Hconn. vm_compute. eauto.
Defined.

Lemma tail_messages_only_when_started_witness :
  demoSetTails ["b"] afterAB = (Return tt, afterB) /\
  (forall cn : TailConnection,
      connectionOf "acct-a" (records afterB) = Some cn ->
      connectionCallback demoNow cn (GotTailMessage 5 "log line") afterB = afterB).
Proof.
  assert (demoSetTails ["b"] afterAB = (Return tt, afterB)) as Hset by reflexivity.
  split; [exact Hset|]. intros cn Hcn. vm_compute in Hcn. injection Hcn as <-.
  exact (tail_messages_only_when_started _ _ _ _ _ _ _ _ _ _ _ _ _ 5 "log line" Hset).
Defined.

Lemma setTails_failed_creation_witness :
  startTails (fun url : string => url) demoCreateTail demoNow "acct" "token" ["a"]
    (map TailRecord.tailKey (records demoController)) demoController
  = (Return [], snd (startTail (fun url : string => url) demoCreateTail demoNow
                       "acct" "token" "a" demoController)) /\
  fst (demoSetTails ["a"; "broken"; "b"] demoController)
  = Throw (Error "createTail failed") /\
  map TailRecord.state (records (snd (demoSetTails ["a"; "broken"; "b"] demoController)))
  = [started; starting].
Proof.
  assert (startTails (fun url : string => url) demoCreateTail demoNow "acct" "token" ["a"]
            (map TailRecord.tailKey (records demoController)) demoController
          = (Return [], snd (startTail (fun url : string => url) demoCreateTail demoNow
                               "acct" "token" "a" demoController))) as Hdone
    by reflexivity.
  split; [exact Hdone|].
  pose proof (proj1 (setTails_failed_creation _ _ _ _ (fun url : string => url)
                       demoCreateTail demoNow "acct" "token" "broken" ["a"] ["b"]
                       demoController _ [] (Error "createTail failed")
                       Hdone eq_refl eq_refl)) as Hfail.
  unfold demoSetTails. cbn [app] in Hfail. rewrite Hfail. split; reflexivity.
Defined.

(** *** Examples *)

Example unpackTailKey_examples :
  unpackTailKey "abc123-my-script" = Return (TailKeyParts.mk "abc123" "my-script") /\
  unpackTailKey "nohyphen" = Throw (Error "Bad tailKey: nohyphen") /\
  unpackTailKey "-script" = Throw (Error "Bad tailKey: -script") /\
  unpackTailKey "acct-" = Throw (Error "Bad tailKey: acct-") /\
  unpackTailKey "acct-two words" = Throw (Error "Bad tailKey: acct-two words").
Proof. repeat split. Qed.

(** The callbacks heard while the controller is given [a] and [b], and
    then [b] alone. *)
Example setTails_callbacks :
  called afterAB
  = [OnTailCreating "acct" "a";
     OnTailCreated "acct" "a" 1 "wss://tail.test/acct/a";
     OnTailsChanged ["acct-a"];
     OnTailCreating "acct" "b";
     OnTailCreated "acct" "b" 1 "wss://tail.test/acct/b";
     OnTailsChanged ["acct-a"; "acct-b"]] /\
  called afterB
  = called afterAB ++ [OnTailsChanged ["acct-a"; "acct-b"]; OnTailsChanged ["acct-b"]].
Proof. vm_compute. split; reflexivity. Qed.

(* ===================================================================== *)
(** ** The checks of a site configuration *)
(* ===================================================================== *)

Lemma sequence_returns {A B : Type} (c : Completion A) (k : Completion B) (r : B) :
  (c;; k) = Return r <-> (exists a, c = Return a) /\ k = Return r.
Proof.
  destruct c as [a|e]; cbn; split.
  - intros Hk. split; [eauto|exact Hk].
  - intros [_ Hk]. exact Hk.
  - intros [=].
  - intros [[a [=]] _].
Qed.

Lemma takeWord_run (run after : string) :
  allChars isWordChar run = true ->
  (forall c rest, after = String c rest -> isWordChar c = false) ->
  takeWord (run +:+ after) = (run, after).
Proof.
  intros Hall Hstop. induction run as [|c run IH].
  - change (EmptyString +:+ after) with after.
    destruct after as [|c rest]; [reflexivity|].
    cbn [takeWord]. rewrite (Hstop c rest eq_refl). reflexivity.
  - apply andb_true_iff in Hall as [Hc Hall].
    change (String c run +:+ after) with (String c (run +:+ after)).
    cbn [takeWord]. rewrite Hc, (IH Hall). reflexivity.
Qed.

Lemma takeWord_spec (s run after : string) :
  takeWord s = (run, after) ->
  s = run +:+ after /\ allChars isWordChar run = true.
Proof.
  revert run after. induction s as [|c s IH]; intros run after; cbn [takeWord].
  - intros [= <- <-]. split; reflexivity.
  - destruct (isWordChar c) eqn:Hc.
    + destruct (takeWord s) as [run' after'] eqn:Htake. intros [= <- <-].
      destruct (IH _ _ eq_refl) as (-> & Hall).
      cbn [allChars]. rewrite Hc, Hall. split; reflexivity.
    + intros [= <- <-]. split; reflexivity.
Qed.

Lemma nonEmpty_true (s : string) : nonEmpty s = true <-> s <> EmptyString.
Proof. destruct s; cbn; split; congruence. Qed.

Lemma matchesThemeColor_spec (s : string) :
  matchesThemeColor s = true <->
  exists digits, s = "#" +:+ digits /\
    String.length digits = 6%nat /\ allChars isHexDigit digits = true.
Proof.
  split.
  - destruct s as [|c digits]; [intros [=]|]. cbv beta iota delta [matchesThemeColor].
    intros Hm. apply andb_true_iff in Hm as [Hm Hall].
    apply andb_true_iff in Hm as [Hc Hlen].
    apply Ascii.eqb_eq in Hc as ->. apply Nat.eqb_eq in Hlen.
    exists digits. repeat split; assumption.
  - intros (digits & -> & Hlen & Hall).
    change ("#" +:+ digits) with (String "#" digits). cbv beta iota delta [matchesThemeColor].
    rewrite Hlen, Hall. reflexivity.
Qed.

Lemma matchesRepo_spec (s : string) :
  matchesRepo s = true <->
  exists owner name, s = owner +:+ "/" +:+ name /\
    nonEmpty owner = true /\ allChars isWordChar owner = true /\
    nonEmpty name = true /\ allChars isWordChar name = true.
Proof.
  unfold matchesRepo. split.
  - destruct (takeWord s) as [owner after] eqn:Htake.
    destruct (takeWord_spec _ _ _ Htake) as (-> & Hall).
    destruct after as [|c name]; [intros [=]|].
    intros Hm. apply andb_true_iff in Hm as [Hm Hchars].
    apply andb_true_iff in Hm as [Hm Hname]. apply andb_true_iff in Hm as [Howner Hc].
    apply Ascii.eqb_eq in Hc as ->.
    exists owner, name. repeat split; assumption.
  - intros (owner & name & -> & Howner & HoChars & Hname & HnChars).
    rewrite (takeWord_run owner ("/" +:+ name) HoChars).
    + change ("/" +:+ name) with (String "/" name).
      rewrite Howner, Hname, HnChars. reflexivity.
    + intros c rest [= <- <-]. reflexivity.
Qed.

Lemma matchesTwitterUsername_spec (s : string) :
  matchesTwitterUsername s = true <->
  exists first rest, s = "@" +:+ String first rest /\ isWordChar first = true.
Proof.
  split.
  - destruct s as [|c [|first rest]]; [intros [=]|intros [=]|].
    cbv beta iota delta [matchesTwitterUsername].
    intros Hm. apply andb_true_iff in Hm as [Hc Hfirst]. apply Ascii.eqb_eq in Hc as ->.
    exists first, rest. split; [reflexivity|exact Hfirst].
  - intros (first & rest & -> & Hfirst).
    change ("@" +:+ String first rest) with (String "@" (String first rest)).
    cbv beta iota delta [matchesTwitterUsername]. rewrite Hfirst. reflexivity.
Qed.

(** Each check either returns [true] or throws. *)
Lemma checkNotBlankString_returns (name : string) (value : JsValue) :
  (exists r, checkNotBlankString name value = Return r) <-> notBlank value.
Proof.
  unfold notBlank. split.
  - destruct value as [| |[|c text]| |]; intros [r [=]].
    exists (String c text). split; [reflexivity|discriminate].
  - intros (text & -> & Hne). destruct text; [congruence|]. cbn. eauto.
Qed.

Lemma checkOptionalString_returns (name : string) (value : JsValue) :
  (exists r, checkOptionalString name value = Return r) <-> optional notBlank value.
Proof.
  unfold optional. split.
  - destruct value; cbn [checkOptionalString]; intros Hr;
      try (right; apply (checkNotBlankString_returns name); exact Hr).
    left. reflexivity.
  - intros [->|Hnb]; [cbn; eauto|].
    apply (checkNotBlankString_returns name) in Hnb.
    destruct value; try exact Hnb. cbn. eauto.
Qed.

Lemma checkThemeColor_returns (name : string) (value : JsValue) :
  (exists r, checkThemeColor name value = Return r) <-> optional isThemeColor value.
Proof.
  unfold optional, isThemeColor. split.
  - destruct value as [| |text| |]; cbn;
      [intros _; left; reflexivity|intros [r [=]]| |intros [r [=]]|intros [r [=]]].
    destruct (matchesThemeColor text) eqn:Hm; [|intros [r [=]]]. intros _. right.
    apply matchesThemeColor_spec in Hm as (digits & -> & Hlen & Hall). eauto.
  - intros [->|(digits & -> & Hlen & Hall)]; [cbn; eauto|].
    cbn [checkThemeColor].
    rewrite (proj2 (matchesThemeColor_spec _)); [eauto|]. eauto.
Qed.

Lemma checkRepo_returns (name : string) (value : JsValue) :
  (exists r, checkRepo name value = Return r) <-> optional isRepo value.
Proof.
  unfold optional, isRepo. split.
  - destruct value as [| |text| |]; cbn;
      [intros _; left; reflexivity|intros [r [=]]| |intros [r [=]]|intros [r [=]]].
    destruct (matchesRepo text) eqn:Hm; [|intros [r [=]]]. intros _. right.
    apply matchesRepo_spec in Hm as (owner & repo & -> & Hrest). eauto.
  - intros [->|(owner & repo & -> & Hrest)]; [cbn; eauto|].
    cbn [checkRepo].
    rewrite (proj2 (matchesRepo_spec _)); [eauto|]. eauto.
Qed.

Lemma checkTwitterUsername_returns (name : string) (value : JsValue) :
  (exists r, checkTwitterUsername name value = Return r) <->
  optional isTwitterUsername value.
Proof.
  unfold optional, isTwitterUsername. split.
  - destruct value as [| |text| |]; cbn;
      [intros _; left; reflexivity|intros [r [=]]| |intros [r [=]]|intros [r [=]]].
    destruct (matchesTwitterUsername text) eqn:Hm; [|intros [r [=]]]. intros _. right.
    apply matchesTwitterUsername_spec in Hm as (first & rest & -> & Hfirst). eauto.
  - intros [->|(first & rest & -> & Hfirst)]; [cbn; eauto|].
    cbn [checkTwitterUsername].
    rewrite (proj2 (matchesTwitterUsername_spec _)); [eauto|]. eauto.
Qed.

Lemma destructure_returns (value : JsValue) :
  (exists r, destructure value = Return r) <-> destructurable value.
Proof.
  unfold destructurable. split.
  - destruct value; cbn; intros [r Hr]; try discriminate Hr; split; discriminate.
  - intros [Hu Hn]. destruct value; cbn; eauto; congruence.
Qed.

Lemma truthy_checked (value : JsValue) :
  optional isThemeColor value ->
  truthy value = match value with JsUndefined => false | _ => true end.
Proof.
  intros [->|(digits & -> & _)]; reflexivity.
Qed.

Section SiteConfigProperties.

Variable parseUrl : string -> option (string * string).
Variable checkObject : string -> JsValue -> Completion unit.

Lemma checkOrigin_returns (name : string) (value : JsValue) :
  (exists r, checkOrigin parseUrl name value = Return r) <->
  optional (isOrigin parseUrl) value.
Proof.
  unfold optional, isOrigin. split.
  - destruct value as [| |text| |]; cbn;
      [intros _; left; reflexivity|intros [r [=]]| |intros [r [=]]|intros [r [=]]].
    destruct (parseUrl text) as [[href origin]|] eqn:Hurl; [|intros [r [=]]].
    destruct (String.eqb href (origin +:+ "/")) eqn:Hhref; [|intros [r [=]]].
    apply String.eqb_eq in Hhref as ->. intros _. right. eauto.
  - intros [->|(text & origin & -> & Hurl)]; [cbn; eauto|].
    cbn [checkOrigin]. rewrite Hurl, String.eqb_refl. eauto.
Qed.

Lemma checkSiteMetadata_returns (siteMetadata : JsValue) :
  (exists r, checkSiteMetadata parseUrl siteMetadata = Return r) <->
  validSiteMetadata parseUrl siteMetadata.
Proof.
  unfold validSiteMetadata, checkSiteMetadata.
  rewrite <- destructure_returns, <- !(checkNotBlankString_returns),
    <- checkTwitterUsername_returns, <- checkOptionalString_returns,
    <- checkOrigin_returns.
  split.
  - intros [r Hr]. repeat (apply sequence_returns in Hr as [? Hr]).
    repeat (split; [eassumption|]). eassumption.
  - intros (H1 & H2 & H3 & H4 & H5 & H6).
    eexists. repeat (apply sequence_returns; split; [eassumption|]). reflexivity.
Qed.

Lemma throwIf_returns (cond : bool) (message : string) :
  (exists r, throwIf cond message = Return r) <-> cond = false.
Proof.
  destruct cond; cbn; split; eauto; try congruence. intros [r [=]].
Qed.

Lemma theme_rule (theme dark : JsValue) :
  optional isThemeColor theme -> optional isThemeColor dark ->
  truthy dark && negb (truthy theme) = false <->
  (dark <> JsUndefined -> theme <> JsUndefined).
Proof.
  intros Htheme Hdark.
  rewrite (truthy_checked _ Htheme), (truthy_checked _ Hdark).
  destruct Hdark as [->|(d & -> & _)], Htheme as [->|(t & -> & _)]; cbn;
    split; try congruence; try discriminate.
  intros Himp. exfalso. apply Himp; [discriminate|reflexivity].
Qed.

(** Turns the hypotheses and the goal that say a check returned into what
    the check lets through. *)
Ltac checks_returned :=
  repeat match goal with
  | H : exists _, destructure _ = Return _ |- _ => apply destructure_returns in H
  | H : exists _, checkNotBlankString _ _ = Return _ |- _ =>
      apply checkNotBlankString_returns in H
  | H : exists _, checkOptionalString _ _ = Return _ |- _ =>
      apply checkOptionalString_returns in H
  | H : exists _, checkRepo _ _ = Return _ |- _ => apply checkRepo_returns in H
  | H : exists _, checkThemeColor _ _ = Return _ |- _ => apply checkThemeColor_returns in H
  | H : exists _, checkTwitterUsername _ _ = Return _ |- _ =>
      apply checkTwitterUsername_returns in H
  | H : exists _, checkOrigin _ _ _ = Return _ |- _ => apply checkOrigin_returns in H
  | H : exists _, checkSiteMetadata _ _ = Return _ |- _ =>
      apply checkSiteMetadata_returns in H
  | H : exists _, throwIf _ _ = Return _ |- _ => apply throwIf_returns in H
  end.

Ltac check_returns :=
  first [ apply destructure_returns | apply checkNotBlankString_returns
        | apply checkOptionalString_returns | apply checkRepo_returns
        | apply checkThemeColor_returns | apply checkTwitterUsername_returns
        | apply checkOrigin_returns | apply checkSiteMetadata_returns ];
  assumption.

(** X15: [checkRepo] returns for [undefined] and for the strings made of a
    non-empty run of word characters, one slash and another non-empty run
    of word characters, and for nothing else; every other value is thrown
    back in an [Error] that names the property and shows the value. *)
Theorem checkRepo_accepts (name : string) (value : JsValue) :
  (checkRepo name value = Return true <-> optional isRepo value) /\
  (checkRepo name value = Return true \/ checkRepo name value = Throw (bad name value)).
Proof.
  split.
  - rewrite <- (checkRepo_returns name). split; [eauto|].
    intros [r Hr]. rewrite Hr. f_equal.
    destruct value as [| |text| |]; cbn in Hr; try discriminate Hr;
      [|destruct (matchesRepo text)]; congruence.
  - destruct value as [| |text| |]; cbn; auto. destruct (matchesRepo text); auto.
Qed.

(** X16: [checkSiteConfig] returns exactly for the configurations that
    [checkObject] lets through and whose properties are all as required:
    the optional ones [undefined] or of the right form, [product] and the
    metadata's [title] and [description] non-blank strings, a
    [themeColorDark] only together with a [themeColor]; and it returns the
    properties as it read them. *)
Theorem checkSiteConfig_accepts (config : JsValue) (r : SiteConfig) :
  checkSiteConfig parseUrl checkObject config = Return r <->
  (exists u, checkObject "config" config = Return u) /\
  validSiteConfig parseUrl config /\
  r = siteConfigOf config.
Proof.
  unfold checkSiteConfig, validSiteConfig. split.
  - intros Hr. repeat (apply sequence_returns in Hr as [? Hr]).
    split; [assumption|]. split; [|injection Hr as <-; reflexivity].
    checks_returned.
    match goal with
    | Ht : optional isThemeColor (property "themeColor" _),
      Hd : optional isThemeColor (property "themeColorDark" _),
      H : truthy _ && negb (truthy _) = false |- _ =>
        pose proof (proj1 (theme_rule _ _ Ht Hd) H)
    end.
    repeat (split; [assumption|]). assumption.
  - intros (Hobject & Hvalid & ->).
    destruct Hvalid as (H0 & H1 & H2 & H3 & H4 & H5 & H6 & H7 & H8 & H9 & H10 & H11 & H12).
    apply sequence_returns; split; [exact Hobject|].
    repeat (apply sequence_returns; split; [check_returns|]).
    apply sequence_returns; split.
    { apply throwIf_returns, theme_rule; assumption. }
    apply sequence_returns; split; [check_returns|]. reflexivity.
Qed.

Lemma sequence_returned {A B : Type} (c : Completion A) (k : Completion B) :
  (exists a, c = Return a) -> (c;; k) = k.
Proof. intros [a ->]. reflexivity. Qed.

Lemma checkNotBlankString_outcome (name : string) (value : JsValue) :
  (exists r, checkNotBlankString name value = Return r) \/
  checkNotBlankString name value = Throw (bad name value).
Proof. destruct value as [| |[|c text]| |]; cbn; eauto. Qed.

Lemma checkOptionalString_outcome (name : string) (value : JsValue) :
  (exists r, checkOptionalString name value = Return r) \/
  checkOptionalString name value = Throw (bad name value).
Proof. destruct value as [| |[|c text]| |]; cbn; eauto. Qed.

Lemma checkTwitterUsername_outcome (name : string) (value : JsValue) :
  (exists r, checkTwitterUsername name value = Return r) \/
  checkTwitterUsername name value = Throw (bad name value).
Proof.
  destruct value as [| |text| |]; cbn; eauto.
  destruct (matchesTwitterUsername text); eauto.
Qed.

(** X17: a configuration that passes every check up to the theme colours,
    with a [themeColorDark] and no [themeColor], is refused with the
    message that says so, whatever its metadata are. *)
Theorem checkSiteConfig_dark_needs_theme (config : JsValue) :
  (exists u, checkObject "config" config = Return u) ->
  destructurable config ->
  optional notBlank (property "organization" config) ->
  optional notBlank (property "organizationSuffix" config) ->
  optional notBlank (property "organizationSvg" config) ->
  optional notBlank (property "organizationUrl" config) ->
  notBlank (property "product" config) ->
  optional isRepo (property "productRepo" config) ->
  optional notBlank (property "productSvg" config) ->
  optional isRepo (property "contentRepo" config) ->
  property "themeColor" config = JsUndefined ->
  isThemeColor (property "themeColorDark" config) ->
  checkSiteConfig parseUrl checkObject config
  = Throw (Error "themeColor required when themeColorDark defined").
Proof.
  intros Hobject H0 H1 H2 H3 H4 H5 H6 H7 H8 Htheme Hdark.
  assert (optional isThemeColor (property "themeColor" config)) as H9
    by (left; exact Htheme).
  assert (optional isThemeColor (property "themeColorDark" config)) as H10
    by (right; exact Hdark).
  unfold checkSiteConfig.
  rewrite (sequence_returned _ _ Hobject).
  repeat (rewrite sequence_returned; [|check_returns]).
  rewrite (truthy_checked _ H9), (truthy_checked _ H10), Htheme.
  destruct Hdark as (digits & -> & _). reflexivity.
Qed.

(** X18: [checkSiteMetadata] throws a [TypeError], and not an [Error] that
    names a property, in two cases only: the metadata are [undefined] or
    [null]; or every check before the origin passes and the origin is a
    string the [URL] constructor refuses. *)
Theorem checkSiteMetadata_type_error (siteMetadata : JsValue) :
  checkSiteMetadata parseUrl siteMetadata = Throw TypeError <->
  ~ destructurable siteMetadata \/
  (notBlank (property "title" siteMetadata) /\
   notBlank (property "description" siteMetadata) /\
   optional isTwitterUsername (property "twitterUsername" siteMetadata) /\
   optional notBlank (property "image" siteMetadata) /\
   exists text, property "origin" siteMetadata = JsString text /\ parseUrl text = None).
Proof.
  unfold checkSiteMetadata. split.
  - destruct (destructure siteMetadata) as [[]|e] eqn:Hd.
    2:{ intros _. left. intros Hok. apply destructure_returns in Hok as [r Hr].
        congruence. }
    cbn [mbind Completion_bind].
    destruct (checkNotBlankString_outcome "title" (property "title" siteMetadata))
      as [H1|H1]; [|rewrite H1; intros Hbad; unfold bad in Hbad; discriminate Hbad].
    rewrite (sequence_returned _ _ H1).
    destruct (checkNotBlankString_outcome "description"
                (property "description" siteMetadata))
      as [H2|H2]; [|rewrite H2; intros Hbad; unfold bad in Hbad; discriminate Hbad].
    rewrite (sequence_returned _ _ H2).
    destruct (checkTwitterUsername_outcome "twitterUsername"
                (property "twitterUsername" siteMetadata))
      as [H3|H3]; [|rewrite H3; intros Hbad; unfold bad in Hbad; discriminate Hbad].
    rewrite (sequence_returned _ _ H3).
    destruct (checkOptionalString_outcome "image" (property "image" siteMetadata))
      as [H4|H4]; [|rewrite H4; intros Hbad; unfold bad in Hbad; discriminate Hbad].
    rewrite (sequence_returned _ _ H4).
    checks_returned. intros Horigin. right. repeat (split; [assumption|]).
    destruct (property "origin" siteMetadata) as [| |text| |]; cbn in Horigin;
      try (unfold bad in Horigin; discriminate Horigin).
    exists text. split; [reflexivity|].
    destruct (parseUrl text) as [[href origin]|]; [|reflexivity].
    destruct (String.eqb href (origin +:+ "/"));
      unfold bad in Horigin; discriminate Horigin.
  - intros [Hno|(H1 & H2 & H3 & H4 & text & Horigin & Hurl)].
    + destruct siteMetadata; try reflexivity;
        exfalso; apply Hno; split; discriminate.
    + assert (destructurable siteMetadata) as H0.
      { destruct H1 as (t & Ht & _).
        destruct siteMetadata; try discriminate Ht; split; discriminate. }
      repeat (rewrite sequence_returned; [|check_returns]).
      rewrite Horigin. cbn. rewrite Hurl. reflexivity.
Qed.

End SiteConfigProperties.

(** *** The checks on concrete configurations *)

Lemma checkSiteConfig_dark_needs_theme_witness :
  checkSiteConfig demoParseUrl demoCheckObject darkOnlyConfig
  = Throw (Error "themeColor required when themeColorDark defined").
Proof.
  apply checkSiteConfig_dark_needs_theme.
  - exists tt. reflexivity.
  - split; discriminate.
  - left. reflexivity.
  - left. reflexivity.
  - left. reflexivity.
  - left. reflexivity.
  - exists "Denoflare". split; [reflexivity|discriminate].
  - left. reflexivity.
  - left. reflexivity.
  - left. reflexivity.
  - reflexivity.
  - exists "000000". repeat split.
Defined.

(** A handle is checked at its start only; a repository and a colour to
    their end; an address with a path is not an origin; metadata that are
    missing and an origin that is no address end in a [TypeError]. *)
Example checkSiteConfig_examples :
  checkSiteConfig demoParseUrl demoCheckObject demoConfig = Return (siteConfigOf demoConfig) /\
  checkRepo "productRepo" (JsString "skymethod/denoflare/cli")
  = Throw (Error "Bad productRepo: skymethod/denoflare/cli") /\
  checkThemeColor "themeColor" (JsString "#fff") = Throw (Error "Bad themeColor: #fff") /\
  checkNotBlankString "product" (JsOther "42" true) = Throw (Error "Bad product: 42") /\
  checkOrigin demoParseUrl "origin" (JsString "https://denoflare.dev/docs")
  = Throw (Error "Bad origin: https://denoflare.dev/docs") /\
  checkOrigin demoParseUrl "origin" (JsString "denoflare.dev") = Throw TypeError /\
  checkSiteConfig demoParseUrl demoCheckObject
    (JsObject [("product", JsString "Denoflare")]) = Throw TypeError.
Proof. vm_compute. repeat split. Qed.
